(** * ntoskrnl/ob/dirobj.c : directory objects of the object manager

    A shallow embedding of [NtOpenDirectoryObject],
    [NtQueryDirectoryObject] and [NtCreateDirectoryObject], with the
    properties of the directory enumeration proved over it.

    Conventions.
    - A [ULONG] is a [Z] in [0, 2^32); every C addition and multiplication
      on [ULONG]s is written with its wrap-around ([ULONG (a + b)]).
    - A pointer is a [Z] (an address); [NULL] is [0].  Pointer arithmetic
      is not wrapped.
    - Calls into the rest of the kernel and accesses to memory are recorded
      in a trace of [Event]s, in program order.
    - An exception raised inside a guarded block ([_SEH_TRY]) ends the block
      with its code in [Status]; one raised outside leaves the function
      ([Escapes]). *)

From Stdlib Require Import ZArith List Bool Lia.
From Stdlib.Strings Require Import Byte.
Import ListNotations.
Local Open Scope Z_scope.

(* ===================================================================== *)
(** ** Machine types *)

Definition ULONG_MAX : Z := 4294967295.
Definition USHORT_MAX : Z := 65535.

(** Truncation of an integer to a [ULONG] (32 bits, unsigned). *)
Definition ULONG (z : Z) : Z := z mod 4294967296.

(** An [NTSTATUS] is a [LONG]: a signed 32-bit integer, kept here as its
    signed value. *)
Definition NTSTATUS := Z.

Definition LONG (u : Z) : Z := if u <? 2147483648 then u else u - 4294967296.

(** Modelled from the spec: the status codes, which the source file takes
    from the NT headers (ntstatus.h).  The specification names them
    *success*, *more entries*, *no more entries*, *buffer too small* and
    *insufficient resources*; the values are the NT ones. *)
Definition STATUS_SUCCESS : NTSTATUS := LONG 0x00000000.
Definition STATUS_MORE_ENTRIES : NTSTATUS := LONG 0x00000105.
Definition STATUS_NO_MORE_ENTRIES : NTSTATUS := LONG 0x8000001A.
Definition STATUS_BUFFER_TOO_SMALL : NTSTATUS := LONG 0xC0000023.
Definition STATUS_INSUFFICIENT_RESOURCES : NTSTATUS := LONG 0xC000009A.
Definition STATUS_OBJECT_NAME_COLLISION : NTSTATUS := LONG 0xC0000035.

(** Modelled from the spec: the macro [NT_SUCCESS] of the NT headers,
    [#define NT_SUCCESS(Status) (((NTSTATUS)(Status)) >= 0)]: *success* and
    the informational *more entries* pass it, the warning *no more entries*
    and the errors do not. *)
Definition NT_SUCCESS (Status : NTSTATUS) : bool := 0 <=? Status.

(** Modelled from the spec: the trust level of the caller,
    [KPROCESSOR_MODE] in the NT headers. *)
Inductive KPROCESSOR_MODE := KernelMode | UserMode.

Definition NULL : Z := 0.

(** Modelled from the spec: the string descriptor (length, buffer pointer),
    [UNICODE_STRING] in the NT headers: a counted wide-character string.
    [Length] and [MaximumLength] are [USHORT] byte counts, [Buffer] is a
    [PWSTR]. *)
Record UNICODE_STRING := mkUS {
  Length : Z;
  MaximumLength : Z;
  Buffer : Z
}.

(** Modelled from the spec: the fixed-size record of the output, two
    string descriptors for (ObjectName, ObjectTypeName),
    [OBJECT_DIRECTORY_INFORMATION] in the NT headers. *)
Record OBJECT_DIRECTORY_INFORMATION := mkODI {
  ObjectName : UNICODE_STRING;
  ObjectTypeName : UNICODE_STRING
}.

(** Modelled from the spec: sizeof(record) and the size of a wide
    character, [sizeof(OBJECT_DIRECTORY_INFORMATION)] and [sizeof(WCHAR)] on
    the 32-bit target, where a [UNICODE_STRING] is two [USHORT]s and a
    pointer. *)
Definition sizeof_ODI : Z := 16.
Definition sizeof_WCHAR : Z := 2.

(** Modelled from the spec: an entry of the directory, with its optional
    Name and its Type Name, [ROS_OBJECT_HEADER] in the kernel's headers.
    Kept here is what the scan reads of it: the name in the object's name
    information ([HEADER_TO_OBJECT_NAME(h)->Name], absent when its length
    is 0) and the name of its type ([h->Type->Name]). *)
Record ROS_OBJECT_HEADER := mkHeader {
  Name : UNICODE_STRING;
  TypeName : UNICODE_STRING
}.

(** Modelled from the spec: the directory, a doubly-linked list of member
    entries, [DIRECTORY_OBJECT] in the kernel's headers: the circular list
    hanging off [head], read here in [Flink] order, the list head itself
    left out. *)
Definition DIRECTORY_OBJECT := list ROS_OBJECT_HEADER.

(** Kernel memory, read byte by byte. *)
Definition Memory := Z -> byte.

Definition read_bytes (mem : Memory) (p : Z) (n : Z) : list byte :=
  map (fun i => mem (p + Z.of_nat i)) (seq 0 (Z.to_nat n)).

(* ===================================================================== *)
(** ** Traces *)

Inductive Region :=
| CallerBuffer          (** [Buffer] *)
| CallerContext         (** [*Context] *)
| CallerReturnLength    (** [*ReturnLength] *)
| CallerHandle          (** [*DirectoryHandle] *)
| DirectoryList         (** [Directory->head] and the members' [Flink] *)
| EntryDescriptors      (** a member's [Name] and [Type->Name]: the
                            descriptors, with their size fields *)
| EntryCharacters       (** the characters those descriptors designate *)
| ScratchBuffer.        (** [TemporaryBuffer] *)

Inductive Event :=
| EvProbe (r : Region)
| EvRead (r : Region)
| EvWrite (r : Region) (offset len : Z)
| EvObReferenceObjectByHandle (Status : NTSTATUS)
| EvExAllocatePool (size : Z) (ok : bool)
| EvExFreePool
| EvKeAcquireSpinLock
| EvKeReleaseSpinLock
| EvObDereferenceObject
| EvObCreateObject (Status : NTSTATUS)
| EvObInsertObject (Status : NTSTATUS)
| EvObMakeTemporaryObject.

(** A computation with a trace. *)
Definition Eff (A : Type) : Type := (A * list Event)%type.

Definition ret {A} (a : A) : Eff A := (a, []).

Definition bind {A B} (m : Eff A) (f : A -> Eff B) : Eff B :=
  let (a, t) := m in let (b, t') := f a in (b, t ++ t').

Definition emit (e : Event) : Eff unit := (tt, [e]).

Declare Scope eff_scope.
Delimit Scope eff_scope with eff.
Notation "x <- m ;; k" := (bind m (fun x => k))
  (at level 61, m at next level, right associativity) : eff_scope.
Notation "m ;;; k" := (bind m (fun _ => k))
  (at level 61, right associativity) : eff_scope.

Definition value {A} (m : Eff A) : A := fst m.
Definition trace {A} (m : Eff A) : list Event := snd m.

(** How a function ends: it returns, or an exception that none of its
    handlers catches leaves it, with the exception's code. *)
Inductive Completion (A : Type) : Type :=
| Returns (a : A)
| Escapes (c : NTSTATUS).

Arguments Returns {A} a.
Arguments Escapes {A} c.

Local Open Scope eff_scope.

(* ===================================================================== *)
(** ** NtQueryDirectoryObject *)

(** What the call cannot decide by itself: the caller's mode, the exceptions
    raised while caller memory is touched, the answers of the object manager
    and of the pool allocator, and the kernel memory the members' strings
    live in. *)
Inductive ProbeStep := AtProbeBuffer | AtProbeContext | AtReadContext | AtProbeReturnLength.

(** Where the block that delivers the results raises: in the copy of line
    366, when byte [stored] of [Buffer] is the first that cannot be
    written, or in one of the writes of lines 369 and 373. *)
Inductive DeliverStep :=
| AtCopyBuffer (stored : Z)
| AtWriteContext
| AtWriteReturnLength.

Record Env := mkEnv {
  PreviousMode : KPROCESSOR_MODE;
  ProbeFault : option (ProbeStep * NTSTATUS);
  ReferenceStatus : NTSTATUS;         (** [ObReferenceObjectByHandle] *)
  PoolAvailable : bool;               (** [ExAllocatePool] returns non-NULL *)
  DeliverFault : option (DeliverStep * NTSTATUS);
  KernelMemory : Memory
}.

(** The locals of the scan.  [DirInfo] holds the slots of [TemporaryBuffer]
    written so far: the [DirInfo] pointer of the source is the slot after
    the last of them. *)
Record Locals := mkLocals {
  SkipEntries : Z;
  NextEntry : Z;
  RequiredSize : Z;
  nDirectories : Z;
  Status : NTSTATUS;
  DirInfo : list OBJECT_DIRECTORY_INFORMATION
}.

(** [EntrySize], lines 224-231. *)
Definition EntrySize (h : ROS_OBJECT_HEADER) : Z :=
  ULONG (ULONG (ULONG (sizeof_ODI +
                       (if Length (Name h) =? 0 then 0
                        else ULONG (Length (Name h) + sizeof_WCHAR))) +
                Length (TypeName h)) +
         sizeof_WCHAR).

(** The record staged for a member, lines 238-246. *)
Definition staged_record (h : ROS_OBJECT_HEADER) : OBJECT_DIRECTORY_INFORMATION :=
  mkODI (if Length (Name h) =? 0 then mkUS 0 0 NULL else Name h) (TypeName h).

(** One iteration of the [for] loop, lines 213-284.  The boolean tells
    whether the iteration left the loop through [break]. *)
Definition scan_entry (BufferLength : Z) (ReturnSingleEntry : bool)
    (h : ROS_OBJECT_HEADER) (l : Locals) : Eff (Locals * bool) :=
  let NextEntry' := ULONG (NextEntry l + 1) in
  if SkipEntries l =? 0 then
    emit (EvRead EntryDescriptors) ;;;
    if ULONG (RequiredSize l + EntrySize h) <=? BufferLength then
      emit (EvWrite ScratchBuffer
              (sizeof_ODI * Z.of_nat (length (DirInfo l))) sizeof_ODI) ;;;
      ret (mkLocals (SkipEntries l) NextEntry'
             (ULONG (RequiredSize l + EntrySize h))
             (ULONG (nDirectories l + 1))
             STATUS_SUCCESS
             (DirInfo l ++ [staged_record h]),
           ReturnSingleEntry)
    else
      ret (mkLocals (SkipEntries l) (ULONG (NextEntry' - 1))
             (if ReturnSingleEntry
              then ULONG (RequiredSize l + EntrySize h) else RequiredSize l)
             (nDirectories l)
             (if ReturnSingleEntry then STATUS_BUFFER_TOO_SMALL else Status l)
             (DirInfo l),
           true)
  else
    ret (mkLocals (ULONG (SkipEntries l - 1)) NextEntry'
           (RequiredSize l) (nDirectories l) (Status l) (DirInfo l),
         false).

(** The locals when the loop is entered, lines 145-148 and 200-205. *)
Definition initial_locals (SkipEntries : Z) : Locals :=
  mkLocals SkipEntries 0 sizeof_ODI 0 STATUS_NO_MORE_ENTRIES [].

(** The [for] loop, lines 209-285, over the members still ahead of
    [ListEntry].  The boolean is [ListEntry != &Directory->head] at the
    exit of the loop. *)
Fixpoint scan_list (BufferLength : Z) (ReturnSingleEntry : bool)
    (entries : list ROS_OBJECT_HEADER) (l : Locals) : Eff (Locals * bool) :=
  match entries with
  | [] => ret (l, false)
  | h :: rest =>
      r <- scan_entry BufferLength ReturnSingleEntry h l ;;
      if snd r then ret (fst r, true)
      else emit (EvRead DirectoryList) ;;;
           scan_list BufferLength ReturnSingleEntry rest (fst r)
  end.

(** The string area of [TemporaryBuffer] while it is filled, lines 296-354:
    [strbuf] is kept as its byte offset from the start of the area,
    [deststrbuf] is an address in the caller's buffer. *)
Record Packing := mkPacking {
  strbuf : Z;
  deststrbuf : Z;
  CopyBytes : Z;
  strings : list byte
}.

(** A store of [data] at byte [off] of a byte area. *)
Definition store (area : list byte) (off : Z) (data : list byte) : list byte :=
  let o := Z.to_nat off in
  firstn o (area ++ repeat x00 (o - length area)) ++ data
  ++ skipn (o + length data) area.

(** Lines 322-336 and 339-353: one string is copied after [strbuf] and
    followed by a wide null; its descriptor, in the record at [DirInfo], is
    made to point into the caller's buffer.  [base] is the offset of the
    string area in [TemporaryBuffer], [slot] the offset of the record. *)
Definition pack_string (mem : Memory) (base slot : Z) (s : UNICODE_STRING)
    (p : Packing) : Eff (UNICODE_STRING * Packing) :=
  emit (EvRead EntryCharacters) ;;;
  emit (EvWrite ScratchBuffer (base + strbuf p) (Length s)) ;;;
  let copied := store (strings p) (strbuf p) (read_bytes mem (Buffer s) (Length s)) in
  emit (EvWrite ScratchBuffer slot sizeof_ODI) ;;;
  let NameLength := Length s / sizeof_WCHAR in
  emit (EvWrite ScratchBuffer (base + strbuf p + sizeof_WCHAR * NameLength)
          sizeof_WCHAR) ;;;
  ret (mkUS (Length s) (MaximumLength s) (deststrbuf p),
       mkPacking (strbuf p + sizeof_WCHAR * (NameLength + 1))
                 (deststrbuf p + sizeof_WCHAR * (NameLength + 1))
                 (ULONG (CopyBytes p + ULONG ((NameLength + 1) * sizeof_WCHAR)))
                 (store copied (strbuf p + sizeof_WCHAR * NameLength) [x00; x00])).

(** The body of the second [for] loop, lines 318-353. *)
Definition pack_entry (mem : Memory) (base slot : Z) (d : OBJECT_DIRECTORY_INFORMATION)
    (p : Packing) : Eff (OBJECT_DIRECTORY_INFORMATION * Packing) :=
  emit (EvRead ScratchBuffer) ;;;
  n <- (if Length (ObjectName d) >? 0
        then pack_string mem base slot (ObjectName d) p
        else ret (ObjectName d, p)) ;;
  t <- pack_string mem base slot (ObjectTypeName d) (snd n) ;;
  ret (mkODI (fst n) (fst t), snd t).

(** The second [for] loop, lines 314-354, over the staged records, [DirInfo]
    starting at offset [slot] of [TemporaryBuffer]. *)
Fixpoint pack_entries (mem : Memory) (base slot : Z)
    (slots : list OBJECT_DIRECTORY_INFORMATION) (p : Packing)
    : Eff (list OBJECT_DIRECTORY_INFORMATION * Packing) :=
  match slots with
  | [] => ret ([], p)
  | d :: rest =>
      r <- pack_entry mem base slot d p ;;
      rs <- pack_entries mem base (slot + sizeof_ODI) rest (snd r) ;;
      ret (fst r :: fst rs, snd rs)
  end.

Definition zero_ODI : OBJECT_DIRECTORY_INFORMATION :=
  mkODI (mkUS 0 0 NULL) (mkUS 0 0 NULL).

(** [TemporaryBuffer] as the source types it: the array of records at its
    start and the string area behind them. *)
Definition Scratch : Type :=
  (list OBJECT_DIRECTORY_INFORMATION * list byte)%type.

(** Lines 294-355. *)
Definition compact (mem : Memory) (Buffer : Z) (l : Locals) (Status' : NTSTATUS)
    : Eff (Z * Scratch) :=
  if NT_SUCCESS Status' && (nDirectories l >? 0) then
    let base := sizeof_ODI * nDirectories l + sizeof_ODI in
    emit (EvWrite ScratchBuffer (sizeof_ODI * nDirectories l) sizeof_ODI) ;;;
    r <- pack_entries mem base 0 (DirInfo l)
           (mkPacking 0 (Buffer + base)
              (ULONG (ULONG (nDirectories l + 1) * sizeof_ODI)) []) ;;
    ret (CopyBytes (snd r), (fst r ++ [zero_ODI], strings (snd r)))
  else ret (0, (DirInfo l, [])).

(** [RtlCopyMemory(Buffer, TemporaryBuffer, CopyBytes)], line 366: the
    records that lie within the first [CopyBytes] bytes, and as much of the
    string area. *)
Definition copy_out (CopyBytes : Z) (s : Scratch) : Scratch :=
  (firstn (Z.to_nat (CopyBytes / sizeof_ODI)) (fst s),
   firstn (Z.to_nat (CopyBytes - sizeof_ODI * Z.of_nat (length (fst s)))) (snd s)).

(** What the caller sees: the status returned and what was written
    through [Buffer], [Context] and [ReturnLength]. *)
Record Outcome := mkOutcome {
  ReturnStatus : NTSTATUS;
  BufferOut : option Scratch;
  ContextOut : option Z;
  ReturnLengthOut : option Z
}.

(** The copy of [CopyBytes] bytes raises when the byte that cannot be
    written is one of them: the bytes before it have been stored. *)
Definition copy_fault (f : option (DeliverStep * NTSTATUS)) (CopyBytes : Z)
    : option (Z * NTSTATUS) :=
  match f with
  | Some (AtCopyBuffer stored, c) =>
      if (0 <=? stored) && (stored <? CopyBytes) then Some (stored, c) else None
  | _ => None
  end.

Definition faults_at (f : option (DeliverStep * NTSTATUS)) (s : DeliverStep)
    : option NTSTATUS :=
  match f, s with
  | Some (AtWriteContext, c), AtWriteContext
  | Some (AtWriteReturnLength, c), AtWriteReturnLength => Some c
  | _, _ => None
  end.

(** The guarded block of lines 362-380.  An exception ends the block with
    its code in [Status].  A copy that raises leaves in [Buffer] the bytes
    it had stored: they are kept as [copy_out] keeps them, the records that
    lie within them and as much of the string area. *)
Definition deliver (env : Env) (Status' : NTSTATUS) (CopyBytes : Z)
    (tmp : Scratch) (NextEntry RequiredSize : Z) (ReturnLength : bool)
    : Eff Outcome :=
  match copy_fault (DeliverFault env) CopyBytes with
  | Some (stored, c) =>
    b <- (if stored =? 0 then ret None
          else emit (EvWrite CallerBuffer 0 stored) ;;;
               ret (Some (copy_out stored tmp))) ;;
    ret (mkOutcome c b None None)
  | None =>
    b <- (if CopyBytes =? 0 then ret None
          else emit (EvWrite CallerBuffer 0 CopyBytes) ;;;
               ret (Some (copy_out CopyBytes tmp))) ;;
    match faults_at (DeliverFault env) AtWriteContext with
    | Some c => ret (mkOutcome c b None None)
    | None =>
      emit (EvWrite CallerContext 0 4) ;;;
      if ReturnLength then
        match faults_at (DeliverFault env) AtWriteReturnLength with
        | Some c => ret (mkOutcome c b (Some NextEntry) None)
        | None =>
          emit (EvWrite CallerReturnLength 0 4) ;;;
          ret (mkOutcome Status' b (Some NextEntry) (Some RequiredSize))
        end
      else ret (mkOutcome Status' b (Some NextEntry) None)
    end
  end.

Definition probe_faults_at (f : option (ProbeStep * NTSTATUS)) (s : ProbeStep)
    : option NTSTATUS :=
  match f, s with
  | Some (AtProbeBuffer, c), AtProbeBuffer
  | Some (AtProbeContext, c), AtProbeContext
  | Some (AtReadContext, c), AtReadContext
  | Some (AtProbeReturnLength, c), AtProbeReturnLength => Some c
  | _, _ => None
  end.

(** Line 166: the probe of [ReturnLength], when the pointer is not NULL. *)
Definition probe_ReturnLength (env : Env) (ReturnLength : bool) (SkipEntries : Z)
    : Eff (NTSTATUS * Z) :=
  if ReturnLength then
    emit (EvProbe CallerReturnLength) ;;;
    match probe_faults_at (ProbeFault env) AtProbeReturnLength with
    | Some c => ret (c, SkipEntries)
    | None => ret (STATUS_SUCCESS, SkipEntries)
    end
  else ret (STATUS_SUCCESS, SkipEntries).

(** The guarded block of lines 153-172, entered for a caller in user mode:
    the probes and the read of [*Context].  The result is [Status] and
    [SkipEntries]; an exception leaves the block with its code in
    [Status]. *)
Definition probe_block (env : Env) (RestartScan : bool) (Context : Z)
    (ReturnLength : bool) : Eff (NTSTATUS * Z) :=
  emit (EvProbe CallerBuffer) ;;;
  match probe_faults_at (ProbeFault env) AtProbeBuffer with
  | Some c => ret (c, 0)
  | None =>
    emit (EvProbe CallerContext) ;;;
    match probe_faults_at (ProbeFault env) AtProbeContext with
    | Some c => ret (c, 0)
    | None =>
      if RestartScan then probe_ReturnLength env ReturnLength 0
      else
        emit (EvRead CallerContext) ;;;
        match probe_faults_at (ProbeFault env) AtReadContext with
        | Some c => ret (c, 0)
        | None => probe_ReturnLength env ReturnLength Context
        end
    end
  end.

(** Lines 151-184: [Status] and [SkipEntries] when the handle is about to
    be resolved.  For a caller in kernel mode the read of [*Context], line
    183, stands outside any guarded block: an exception it raises leaves
    the function. *)
Definition capture (env : Env) (RestartScan : bool) (Context : Z)
    (ReturnLength : bool) : Eff (Completion (NTSTATUS * Z)) :=
  match PreviousMode env with
  | KernelMode =>
      if RestartScan then ret (Returns (STATUS_SUCCESS, 0))
      else
        emit (EvRead CallerContext) ;;;
        match probe_faults_at (ProbeFault env) AtReadContext with
        | Some c => ret (Escapes c)
        | None => ret (Returns (STATUS_SUCCESS, Context))
        end
  | UserMode =>
      r <- probe_block env RestartScan Context ReturnLength ;;
      ret (Returns r)
  end.

Definition failed (Status : NTSTATUS) : Outcome := mkOutcome Status None None None.

(** [NtQueryDirectoryObject], lines 133-392.  [Directory] is the object the
    handle designates; [Context] is the value held by [*Context] when the
    call is made; [ReturnLength] tells whether the pointer is non-NULL. *)
Definition NtQueryDirectoryObject (env : Env) (Directory : DIRECTORY_OBJECT)
    (Buffer BufferLength : Z) (ReturnSingleEntry RestartScan : bool)
    (Context : Z) (ReturnLength : bool) : Eff (Completion Outcome) :=
  c <- capture env RestartScan Context ReturnLength ;;
  match c with
  | Escapes e => ret (Escapes e)
  | Returns c =>
    if match PreviousMode env with
       | UserMode => negb (NT_SUCCESS (fst c))
       | KernelMode => false
       end
    then ret (Returns (failed (fst c)))
    else
      emit (EvObReferenceObjectByHandle (ReferenceStatus env)) ;;;
      if NT_SUCCESS (ReferenceStatus env) then
        emit (EvExAllocatePool BufferLength (PoolAvailable env)) ;;;
        if PoolAvailable env then
          emit (EvKeAcquireSpinLock) ;;;
          emit (EvRead DirectoryList) ;;;
          r <- scan_list BufferLength ReturnSingleEntry Directory
                 (initial_locals (snd c)) ;;
          let Status' := if negb ReturnSingleEntry && snd r
                         then STATUS_MORE_ENTRIES else Status (fst r) in
          k <- compact (KernelMemory env) Buffer (fst r) Status' ;;
          emit EvKeReleaseSpinLock ;;;
          emit EvObDereferenceObject ;;;
          o <- (if NT_SUCCESS Status' || ReturnSingleEntry
                then deliver env Status' (fst k) (snd k)
                       (NextEntry (fst r)) (RequiredSize (fst r)) ReturnLength
                else ret (failed Status')) ;;
          emit EvExFreePool ;;;
          ret (Returns o)
        else ret (Returns (failed STATUS_INSUFFICIENT_RESOURCES))
      else ret (Returns (failed (ReferenceStatus env)))
  end.

(* ===================================================================== *)
(** ** The scan as the specification words it *)

(** [entrySize = sizeof(record) + (hasName ? nameBytes + 2 : 0)
                 + typeNameBytes + 2], over the integers. *)
Definition spec_entrySize (h : ROS_OBJECT_HEADER) : Z :=
  sizeof_ODI
  + (if Length (Name h) =? 0 then 0 else Length (Name h) + 2)
  + Length (TypeName h) + 2.

(** The state of the specification's Acquire-and-Scan phase. *)
Record Scan := mkScan {
  skip : Z;
  consumed : Z;                       (** index of the first unconsumed entry *)
  runningRequired : Z;
  staged : list ROS_OBJECT_HEADER;    (** [collected] is its length *)
  status : NTSTATUS;
  exhausted : bool
}.

Definition collected (s : Scan) : Z := Z.of_nat (length (staged s)).

(** Phase 1 of the specification, entry by entry, with unbounded
    arithmetic. *)
Fixpoint spec_scan (bufferLength : Z) (returnSingleEntry : bool)
    (entries : list ROS_OBJECT_HEADER) (s : Scan) : Scan :=
  match entries with
  | [] => mkScan (skip s) (consumed s) (runningRequired s) (staged s) (status s) true
  | h :: rest =>
      if 0 <? skip s then
        spec_scan bufferLength returnSingleEntry rest
          (mkScan (skip s - 1) (consumed s + 1) (runningRequired s)
                  (staged s) (status s) false)
      else if runningRequired s + spec_entrySize h <=? bufferLength then
        let s' := mkScan (skip s) (consumed s + 1)
                    (runningRequired s + spec_entrySize h)
                    (staged s ++ [h]) STATUS_SUCCESS false in
        if returnSingleEntry then s'
        else spec_scan bufferLength returnSingleEntry rest s'
      else if returnSingleEntry then
        mkScan (skip s) (consumed s) (runningRequired s + spec_entrySize h)
               (staged s) STATUS_BUFFER_TOO_SMALL false
      else
        mkScan (skip s) (consumed s) (runningRequired s) (staged s) (status s) false
  end.

Definition spec_start (skip0 : Z) : Scan :=
  mkScan skip0 0 sizeof_ODI [] STATUS_NO_MORE_ENTRIES false.

(** A Staged Record in the specification's words: a copy of one entry's
    (Name, TypeName) pair.  The Type Name is always there; the Name of an
    anonymous member is absent, which the record shows as the empty
    descriptor. *)
Definition stages (h : ROS_OBJECT_HEADER) (d : OBJECT_DIRECTORY_INFORMATION)
    : Prop :=
  ObjectTypeName d = TypeName h /\
  (Length (Name h) <> 0 -> ObjectName d = Name h) /\
  (Length (Name h) = 0 -> ObjectName d = mkUS 0 0 NULL).

(** The locals of the source that stand for a state of the specification. *)
Definition locals_of (s : Scan) : Locals :=
  mkLocals (skip s) (consumed s) (runningRequired s) (collected s) (status s)
           (map staged_record (staged s)).

(* ===================================================================== *)
(** ** Well-formed input *)

(** [Length] and [MaximumLength] are [USHORT]s. *)
Definition is_USHORT (z : Z) : Prop := 0 <= z <= USHORT_MAX.
Definition is_ULONG (z : Z) : Prop := 0 <= z <= ULONG_MAX.

Definition typed_string (s : UNICODE_STRING) : Prop :=
  is_USHORT (Length s) /\ is_USHORT (MaximumLength s).

(** A counted wide-character string holds whole [WCHAR]s. *)
Definition whole_string (s : UNICODE_STRING) : Prop :=
  Z.even (Length s) = true.

Definition typed_header (h : ROS_OBJECT_HEADER) : Prop :=
  typed_string (Name h) /\ typed_string (TypeName h).

Definition whole_header (h : ROS_OBJECT_HEADER) : Prop :=
  whole_string (Name h) /\ whole_string (TypeName h).

(** A directory of the 32-bit machine: typed strings, and no more members
    than a [ULONG] counts. *)
Definition typed_directory (d : DIRECTORY_OBJECT) : Prop :=
  Forall typed_header d /\ Z.of_nat (length d) <= ULONG_MAX.

(** The largest [EntrySize]: a record, two strings of 65535 bytes and their
    terminators. *)
Definition MAX_ENTRY_SIZE : Z := sizeof_ODI + (USHORT_MAX + 2) + USHORT_MAX + 2.

(** The sums [RequiredSize + EntrySize] of a scan in a buffer of
    [BufferLength] bytes stay below 2^32: the buffer leaves room for one
    more entry.  A scratch buffer of [BufferLength] bytes that lies in a
    32-bit address space next to the kernel leaves that room. *)
Definition no_wrap (BufferLength : Z) : Prop :=
  BufferLength + MAX_ENTRY_SIZE <= ULONG_MAX.


(* ===================================================================== *)
(** ** Closed forms of the scan *)

(** The number of leading members of [entries] that fit one after the
    other in [BufferLength] bytes, [rr] bytes being taken already. *)
Fixpoint fit_count (BufferLength rr : Z) (entries : list ROS_OBJECT_HEADER) : nat :=
  match entries with
  | [] => 0
  | h :: rest =>
      if rr + spec_entrySize h <=? BufferLength
      then S (fit_count BufferLength (rr + spec_entrySize h) rest)
      else 0
  end.

Definition total_size (l : list ROS_OBJECT_HEADER) : Z :=
  fold_right (fun h a => spec_entrySize h + a) 0 l.

(* ===================================================================== *)
(** ** The layout of the output *)

(** The characters a descriptor designates. *)
Definition chars (mem : Memory) (s : UNICODE_STRING) : list byte :=
  read_bytes mem (Buffer s) (Length s).

Definition wide_null : list byte := [x00; x00].

(** A string as it lies in the string area: its whole [WCHAR]s, then a
    wide null. *)
Definition packed (mem : Memory) (s : UNICODE_STRING) : list byte :=
  firstn (Z.to_nat (sizeof_WCHAR * (Length s / sizeof_WCHAR))) (chars mem s)
  ++ wide_null.

(** The records and the string area made of staged records, the string
    area starting at address [p] of the caller's buffer. *)
Fixpoint layout (mem : Memory) (p : Z) (slots : list OBJECT_DIRECTORY_INFORMATION)
    : list OBJECT_DIRECTORY_INFORMATION * list byte :=
  match slots with
  | [] => ([], [])
  | d :: rest =>
      let n := if Length (ObjectName d) >? 0 then packed mem (ObjectName d) else [] in
      let t := packed mem (ObjectTypeName d) in
      let r := layout mem (p + Z.of_nat (length n) + Z.of_nat (length t)) rest in
      (mkODI (if Length (ObjectName d) >? 0
              then mkUS (Length (ObjectName d)) (MaximumLength (ObjectName d)) p
              else ObjectName d)
             (mkUS (Length (ObjectTypeName d)) (MaximumLength (ObjectTypeName d))
                   (p + Z.of_nat (length n)))
       :: fst r,
       n ++ t ++ snd r)
  end.

Definition typed_record (d : OBJECT_DIRECTORY_INFORMATION) : Prop :=
  typed_string (ObjectName d) /\ typed_string (ObjectTypeName d).

(* ===================================================================== *)
(** ** The call, when nothing around it fails *)

(** No exception is raised, the handle designates a directory, and the pool
    has memory. *)
Definition quiet (env : Env) : Prop :=
  ProbeFault env = None /\
  NT_SUCCESS (ReferenceStatus env) = true /\
  PoolAvailable env = true /\
  DeliverFault env = None.

(** Lines 287-292: the status after the loop. *)
Definition final_status (ReturnSingleEntry : bool) (s : Scan) : NTSTATUS :=
  if negb ReturnSingleEntry && negb (exhausted s)
  then STATUS_MORE_ENTRIES else status s.

(** The output for the staged [members]: their records, the terminating
    record, and the string area behind them in the caller's buffer. *)
Definition output_of (mem : Memory) (Buffer : Z) (members : list ROS_OBJECT_HEADER)
    : Scratch :=
  let n := Z.of_nat (length members) in
  let l := layout mem (Buffer + (sizeof_ODI * n + sizeof_ODI)) (map staged_record members) in
  (fst l ++ [zero_ODI], snd l).

(** What the caller sees of a scan that ended in state [s]. *)
Definition outcome_of (mem : Memory) (Buffer : Z) (ReturnSingleEntry ReturnLength : bool)
    (s : Scan) : Outcome :=
  let Status' := final_status ReturnSingleEntry s in
  if NT_SUCCESS Status' || ReturnSingleEntry then
    mkOutcome Status'
      (if NT_SUCCESS Status' && (collected s >? 0)
       then Some (output_of mem Buffer (staged s)) else None)
      (Some (consumed s))
      (if ReturnLength then Some (runningRequired s) else None)
  else failed Status'.

(** The bytes of the output: the records, the terminator and the string
    area. *)
Definition output_bytes (out : Scratch) : Z :=
  sizeof_ODI * Z.of_nat (length (fst out)) + Z.of_nat (length (snd out)).


(* ===================================================================== *)
(** ** A directory to run the calls on *)

(** "Foo", "Device" and "Bar" in kernel memory, from address 1000 on. *)
Definition example_memory : Memory := fun a =>
  if a <? 1000 then x00
  else nth (Z.to_nat (a - 1000))
         [x46; x00; x6f; x00; x6f; x00;
          x44; x00; x65; x00; x76; x00; x69; x00; x63; x00; x65; x00;
          x42; x00; x61; x00; x72; x00] x00.

Definition Foo : UNICODE_STRING := mkUS 6 8 1000.
Definition Device : UNICODE_STRING := mkUS 12 12 1006.
Definition Bar : UNICODE_STRING := mkUS 6 6 1018.

(** Two members, "Foo" and "Bar", both of type "Device". *)
Definition example_directory : DIRECTORY_OBJECT :=
  [mkHeader Foo Device; mkHeader Bar Device].

(** A caller in user mode, around whose call nothing fails. *)
Definition example_env : Env :=
  mkEnv UserMode None STATUS_SUCCESS true None example_memory.

(* ===================================================================== *)
(** ** Reading the output back *)

(** The strings of a member, as kernel memory holds them: its name, if it
    has one, and the name of its type. *)
Definition member_strings (mem : Memory) (h : ROS_OBJECT_HEADER)
    : option (list byte) * list byte :=
  (if Length (Name h) =? 0 then None else Some (chars mem (Name h)),
   chars mem (TypeName h)).

(** The string area the specification describes: each name that is present
    and each type name, followed by one wide null. *)
Definition spec_heap (mem : Memory) (members : list ROS_OBJECT_HEADER) : list byte :=
  flat_map (fun h =>
              (if Length (Name h) =? 0 then [] else chars mem (Name h) ++ wide_null)
              ++ chars mem (TypeName h) ++ wide_null) members.

(** [len] bytes at address [p], in a byte area that starts at address
    [base]. *)
Definition read_area (base : Z) (area : list byte) (p len : Z) : list byte :=
  firstn (Z.to_nat len) (skipn (Z.to_nat (p - base)) area).

(** What the caller reads through the descriptors of one record, the
    string area lying at address [base]. *)
Definition decode_record (base : Z) (area : list byte)
    (d : OBJECT_DIRECTORY_INFORMATION) : option (list byte) * list byte :=
  (if Length (ObjectName d) =? 0 then None
   else Some (read_area base area (Buffer (ObjectName d)) (Length (ObjectName d))),
   read_area base area (Buffer (ObjectTypeName d)) (Length (ObjectTypeName d))).

(** The (name, type name) pairs the caller reads in what was written at
    address [Buffer]: the records before the terminator, their strings
    fetched behind the records. *)
Definition decode (Buffer : Z) (out : Scratch)
    : list (option (list byte) * list byte) :=
  map (decode_record (Buffer + sizeof_ODI * Z.of_nat (length (fst out))) (snd out))
      (removelast (fst out)).

Definition delivered (Buffer : Z) (o : Outcome)
    : list (option (list byte) * list byte) :=
  match BufferOut o with
  | Some out => decode Buffer out
  | None => []
  end.

(** The outcome and the trace of a call. *)
(** What a call leaves its caller with: the outcome it returns, or, when
    an exception leaves the function, the exception's code and nothing
    written. *)
Definition results (c : Completion Outcome) : Outcome :=
  match c with
  | Returns o => o
  | Escapes e => failed e
  end.

Definition query (env : Env) (Directory : DIRECTORY_OBJECT)
    (Buffer BufferLength : Z) (ReturnSingleEntry RestartScan : bool)
    (Context : Z) (ReturnLength : bool) : Outcome :=
  results (value (NtQueryDirectoryObject env Directory Buffer BufferLength
                    ReturnSingleEntry RestartScan Context ReturnLength)).

Definition query_trace (env : Env) (Directory : DIRECTORY_OBJECT)
    (Buffer BufferLength : Z) (ReturnSingleEntry RestartScan : bool)
    (Context : Z) (ReturnLength : bool) : list Event :=
  trace (NtQueryDirectoryObject env Directory Buffer BufferLength
           ReturnSingleEntry RestartScan Context ReturnLength).

(* ===================================================================== *)
(** ** NtCreateDirectoryObject *)

(** What the creation cannot decide by itself: the caller's mode, the
    exceptions raised on the caller's handle variable, and the answers of
    the object manager. *)
Record CreateEnv := mkCreateEnv {
  CreatorMode : KPROCESSOR_MODE;
  HandleProbeFault : option NTSTATUS;   (** [ProbeForWriteHandle] raises *)
  CreateStatus : NTSTATUS;              (** [ObCreateObject] *)
  InsertStatus : NTSTATUS;              (** [ObInsertObject] *)
  hDirectory : Z;                       (** the handle [ObInsertObject] gives *)
  HandleWriteFault : option NTSTATUS    (** [*DirectoryHandle = ...] raises *)
}.

Record CreateOutcome := mkCreateOutcome {
  CreateReturn : NTSTATUS;
  HandleOut : option Z                  (** written through [DirectoryHandle] *)
}.

(** [NtCreateDirectoryObject], lines 414-488. *)
Definition NtCreateDirectoryObject (env : CreateEnv) : Eff CreateOutcome :=
  p <- (match CreatorMode env with
        | KernelMode => ret STATUS_SUCCESS
        | UserMode =>
            emit (EvProbe CallerHandle) ;;;
            ret (match HandleProbeFault env with
                 | Some c => c
                 | None => STATUS_SUCCESS
                 end)
        end) ;;
  if match CreatorMode env with
     | UserMode => negb (NT_SUCCESS p)
     | KernelMode => false
     end
  then ret (mkCreateOutcome p None)
  else
    emit (EvObCreateObject (CreateStatus env)) ;;;
    if NT_SUCCESS (CreateStatus env) then
      emit (EvObInsertObject (InsertStatus env)) ;;;
      (if negb (NT_SUCCESS (InsertStatus env))
       then emit EvObMakeTemporaryObject else ret tt) ;;;
      emit EvObDereferenceObject ;;;
      if NT_SUCCESS (InsertStatus env) then
        match HandleWriteFault env with
        | Some c => ret (mkCreateOutcome c None)
        | None =>
            emit (EvWrite CallerHandle 0 4) ;;;
            ret (mkCreateOutcome (InsertStatus env) (Some (hDirectory env)))
        end
      else ret (mkCreateOutcome (InsertStatus env) None)
    else ret (mkCreateOutcome (CreateStatus env) None).

(** The creation reaches [ObCreateObject]. *)
Definition handle_probed (env : CreateEnv) : Prop :=
  CreatorMode env = KernelMode \/ HandleProbeFault env = None.

(* ===================================================================== *)
(** ** Reading traces *)

(** What the claim lets a call touch while the spin lock is held: the
    directory's list linkage, the entries' size fields and string
    descriptors, and the scratch buffer. *)
Definition claimed_resident (e : Event) : bool :=
  match e with
  | EvRead DirectoryList | EvRead EntryDescriptors | EvRead ScratchBuffer
  | EvWrite DirectoryList _ _ | EvWrite EntryDescriptors _ _
  | EvWrite ScratchBuffer _ _ => true
  | _ => false
  end.

(** Accesses to memory that is resident while the spin lock is held: those
    of [claimed_resident], and the reads of the characters of the members'
    strings, which [RtlCopyMemory] fetches at lines 322-324 and 339-341. *)
Definition resident (e : Event) : bool :=
  match e with
  | EvRead EntryCharacters => true
  | _ => claimed_resident e
  end.

(** Writes through the caller's [Buffer], [Context] and [ReturnLength]. *)
Definition writes_caller (e : Event) : bool :=
  match e with
  | EvWrite CallerBuffer _ _ | EvWrite CallerContext _ _
  | EvWrite CallerReturnLength _ _ => true
  | _ => false
  end.

Inductive LockState := NeverTaken | Held | Released.

Definition lock_step (st : LockState) (e : Event) : LockState :=
  match e with
  | EvKeAcquireSpinLock => Held
  | EvKeReleaseSpinLock => Released
  | _ => st
  end.

(** The state of [Directory->Lock] after the events of [t]. *)
Definition lock_after (t : list Event) : LockState :=
  fold_left lock_step t NeverTaken.

(** The references on the directory a trace leaves behind: one more for
    each [ObReferenceObjectByHandle] that succeeded, one less for each
    [ObDereferenceObject]. *)
Fixpoint references (t : list Event) : Z :=
  match t with
  | [] => 0
  | EvObReferenceObjectByHandle st :: t' =>
      (if NT_SUCCESS st then 1 else 0) + references t'
  | EvObDereferenceObject :: t' => references t' - 1
  | _ :: t' => references t'
  end.

Fixpoint dereferences (t : list Event) : nat :=
  match t with
  | [] => 0
  | EvObDereferenceObject :: t' => S (dereferences t')
  | _ :: t' => dereferences t'
  end.

(** What the lock allows of an event that comes when it is in state
    [st]. *)
Definition lock_allows (st : LockState) (e : Event) : bool :=
  (if writes_caller e
   then match st with Released => true | _ => false end else true)
  &&
  (match st with
   | Held => match e with EvKeReleaseSpinLock => true | _ => resident e end
   | _ => match e with EvKeReleaseSpinLock => false | _ => true end
   end).

Fixpoint disciplined (st : LockState) (t : list Event) : bool :=
  match t with
  | [] => true
  | e :: t' => lock_allows st e && disciplined (lock_step st e) t'
  end.

(** The events of the probing block: probes, and the read of [*Context]. *)
Definition probing (e : Event) : bool :=
  match e with
  | EvProbe _ | EvRead CallerContext => true
  | _ => false
  end.

(** The events of a call that has taken the lock, from the acquisition
    on. *)
Definition locked_part (env : Env) (Directory : DIRECTORY_OBJECT)
    (Buffer BufferLength : Z) (ReturnSingleEntry : bool) (SkipEntries : Z)
    (ReturnLength : bool) : list Event :=
  let r := scan_list BufferLength ReturnSingleEntry Directory
             (initial_locals SkipEntries) in
  let Status' := if negb ReturnSingleEntry && snd (value r)
                 then STATUS_MORE_ENTRIES else Status (fst (value r)) in
  let k := compact (KernelMemory env) Buffer (fst (value r)) Status' in
  [EvKeAcquireSpinLock; EvRead DirectoryList]
  ++ trace r ++ trace k
  ++ [EvKeReleaseSpinLock; EvObDereferenceObject]
  ++ (if NT_SUCCESS Status' || ReturnSingleEntry
      then trace (deliver env Status' (fst (value k)) (snd (value k))
                    (NextEntry (fst (value r))) (RequiredSize (fst (value r)))
                    ReturnLength)
      else [])
  ++ [EvExFreePool].

(** The pool has no memory for the scratch buffer of a caller whose handle
    designates a directory. *)
Definition exhausted_pool_env : Env :=
  mkEnv UserMode None STATUS_SUCCESS false None example_memory.

(** A creation whose insertion into the namespace fails on a name that
    exists already, and one that succeeds with handle 84. *)
Definition collision_env : CreateEnv :=
  mkCreateEnv UserMode None STATUS_SUCCESS STATUS_OBJECT_NAME_COLLISION 0 None.

Definition created_env : CreateEnv :=
  mkCreateEnv UserMode None STATUS_SUCCESS STATUS_SUCCESS 84 None.

(** The records the specification describes for the staged [members], the
    first string lying at address [p] of the caller's buffer: every
    descriptor points at its string in the string area. *)
Fixpoint spec_records (p : Z) (members : list ROS_OBJECT_HEADER)
    : list OBJECT_DIRECTORY_INFORMATION :=
  match members with
  | [] => []
  | h :: rest =>
      let n := if Length (Name h) =? 0 then 0 else Length (Name h) + 2 in
      mkODI (if Length (Name h) =? 0 then mkUS 0 0 NULL
             else mkUS (Length (Name h)) (MaximumLength (Name h)) p)
            (mkUS (Length (TypeName h)) (MaximumLength (TypeName h)) (p + n))
      :: spec_records (p + n + (Length (TypeName h) + 2)) rest
  end.

(** The copies into the caller's buffer a trace holds: offset and length. *)
Fixpoint buffer_writes (t : list Event) : list (Z * Z) :=
  match t with
  | [] => []
  | EvWrite CallerBuffer off len :: t' => (off, len) :: buffer_writes t'
  | _ :: t' => buffer_writes t'
  end.

(* ===================================================================== *)
(** ** A scan over several calls *)

(** What a caller chooses for one call of a scan, and what surrounds the
    call. *)
Record Call := mkCall {
  call_env : Env;
  call_Buffer : Z;
  call_BufferLength : Z;
  call_ReturnSingleEntry : bool;
  call_ReturnLength : bool
}.

(** The cursor variable of the caller after a call: what the call wrote
    into it, or what it held. *)
Definition cursor_after (Context : Z) (o : Outcome) : Z :=
  match ContextOut o with
  | Some n => n
  | None => Context
  end.

(** The calls of a scan over a directory that does not change: the first
    with [RestartScan] as given, the others without, each with the cursor
    the one before it left.  The result is the outcome of each call, with
    the buffer it was given, and the cursor at the end. *)
Fixpoint enumerate (Directory : DIRECTORY_OBJECT) (RestartScan : bool)
    (Context : Z) (calls : list Call) : list (Z * Outcome) * Z :=
  match calls with
  | [] => ([], Context)
  | c :: rest =>
      let o := query (call_env c) Directory (call_Buffer c) (call_BufferLength c)
                 (call_ReturnSingleEntry c) RestartScan Context
                 (call_ReturnLength c) in
      let r := enumerate Directory false (cursor_after Context o) rest in
      ((call_Buffer c, o) :: fst r, snd r)
  end.

(** The (name, type name) pairs the caller has read over the calls. *)
Definition all_delivered (outs : list (Z * Outcome))
    : list (option (list byte) * list byte) :=
  flat_map (fun bo => delivered (fst bo) (snd bo)) outs.

(** A call around which nothing fails, on the kernel memory [mem], in a
    buffer in which its sums do not wrap. *)
Definition sane_call (mem : Memory) (c : Call) : Prop :=
  quiet (call_env c) /\
  KernelMemory (call_env c) = mem /\
  (call_ReturnSingleEntry c = true \/ no_wrap (call_BufferLength c)).

(** A scan of the example directory in three calls: one entry, then as
    many as fit, then the end. *)
Definition example_calls : list Call :=
  [mkCall example_env 5000 64 true true;
   mkCall example_env 6000 128 false false;
   mkCall example_env 5000 128 false true].

(** A write into the scratch buffer or into the caller's buffer that stays
    between the bytes [lo] and [hi] of its buffer. *)
Definition within (lo hi : Z) (e : Event) : Prop :=
  match e with
  | EvWrite ScratchBuffer off len
  | EvWrite CallerBuffer off len => lo <= off /\ 0 <= len /\ off + len <= hi
  | _ => True
  end.

(** One step of the specification's scan on the member [h]: the state
    after it, and whether the scan stops there. *)
Definition spec_step (bufferLength : Z) (returnSingleEntry : bool)
    (h : ROS_OBJECT_HEADER) (s : Scan) : Scan * bool :=
  if 0 <? skip s then
    (mkScan (skip s - 1) (consumed s + 1) (runningRequired s) (staged s)
            (status s) false, false)
  else if runningRequired s + spec_entrySize h <=? bufferLength then
    (mkScan (skip s) (consumed s + 1) (runningRequired s + spec_entrySize h)
            (staged s ++ [h]) STATUS_SUCCESS false, returnSingleEntry)
  else if returnSingleEntry then
    (mkScan (skip s) (consumed s) (runningRequired s + spec_entrySize h)
            (staged s) STATUS_BUFFER_TOO_SMALL false, true)
  else
    (mkScan (skip s) (consumed s) (runningRequired s) (staged s) (status s) false,
     true).

(* ===================================================================== *)
(** ** Counting the events of a trace *)

Definition count (p : Event -> bool) (t : list Event) : nat :=
  length (filter p t).

Definition is_probe (e : Event) : bool :=
  match e with EvProbe _ => true | _ => false end.

(** [ExAllocatePool] returned memory. *)
Definition is_allocation (e : Event) : bool :=
  match e with EvExAllocatePool _ true => true | _ => false end.

Definition is_free (e : Event) : bool :=
  match e with EvExFreePool => true | _ => false end.

Definition is_acquire (e : Event) : bool :=
  match e with EvKeAcquireSpinLock => true | _ => false end.

Definition is_release (e : Event) : bool :=
  match e with EvKeReleaseSpinLock => true | _ => false end.

(** The statement of the probing block at which the exception [s] is
    raised is executed: [*Context] is read only when the scan is not
    restarted, [ReturnLength] is probed only when it is not NULL. *)
Definition probe_step_reached (s : ProbeStep) (RestartScan ReturnLength : bool)
    : bool :=
  match s with
  | AtProbeBuffer | AtProbeContext => true
  | AtReadContext => negb RestartScan
  | AtProbeReturnLength => ReturnLength
  end.

(** The same surroundings, without an exception in the probing block, and
    without one in the block that delivers the results. *)
Definition without_probe_fault (env : Env) : Env :=
  mkEnv (PreviousMode env) None (ReferenceStatus env) (PoolAvailable env)
        (DeliverFault env) (KernelMemory env).


(* ===================================================================== *)
(** ** NtOpenDirectoryObject *)

(** What the opening cannot decide by itself: the caller's mode, the
    exceptions raised on the caller's handle variable, and the answer of
    [ObOpenObjectByName]. *)
Record OpenEnv := mkOpenEnv {
  OpenerMode : KPROCESSOR_MODE;
  OpenProbeFault : option NTSTATUS;    (** [ProbeForWriteHandle] raises *)
  OpenStatus : NTSTATUS;               (** [ObOpenObjectByName] *)
  hOpened : Z;                         (** the handle it gives *)
  OpenWriteFault : option NTSTATUS     (** [*DirectoryHandle = ...] raises *)
}.

Inductive OpenEvent :=
| OpProbeForWriteHandle
| OpObOpenObjectByName (Status : NTSTATUS)
| OpWriteHandle (h : Z).

Record OpenOutcome := mkOpenOutcome {
  OpenReturn : NTSTATUS;
  OpenedHandle : option Z              (** written through [DirectoryHandle] *)
}.

(** Lines 67-85: the resolution of the name and the write of the handle. *)
Definition open_by_name (env : OpenEnv) : OpenOutcome * list OpenEvent :=
  if NT_SUCCESS (OpenStatus env) then
    match OpenWriteFault env with
    | Some c => (mkOpenOutcome c None, [OpObOpenObjectByName (OpenStatus env)])
    | None =>
        (mkOpenOutcome (OpenStatus env) (Some (hOpened env)),
         [OpObOpenObjectByName (OpenStatus env); OpWriteHandle (hOpened env)])
    end
  else (mkOpenOutcome (OpenStatus env) None,
        [OpObOpenObjectByName (OpenStatus env)]).

(** [NtOpenDirectoryObject], lines 37-88, with the events in program
    order. *)
Definition NtOpenDirectoryObject (env : OpenEnv) : OpenOutcome * list OpenEvent :=
  match OpenerMode env with
  | KernelMode => open_by_name env
  | UserMode =>
      let Status := match OpenProbeFault env with
                    | Some c => c
                    | None => STATUS_SUCCESS
                    end in
      if negb (NT_SUCCESS Status)
      then (mkOpenOutcome Status None, [OpProbeForWriteHandle])
      else (fst (open_by_name env),
            OpProbeForWriteHandle :: snd (open_by_name env))
  end.

(** An opening by name of a directory that exists, from user mode. *)
Definition opened_env : OpenEnv :=
  mkOpenEnv UserMode None STATUS_SUCCESS 44 None.

(** The exceptions around a handle variable carry failure codes. *)
Definition failure_code (f : option NTSTATUS) : Prop :=
  match f with
  | Some c => NT_SUCCESS c = false
  | None => True
  end.

(* ===================================================================== *)
(** ** Strings of odd length *)

(** The bytes the scan counts for the strings of [members] and the packing
    does not write: one for each string whose [Length] is odd, since lines
    332 and 349 put the terminating null at the last whole character. *)
Definition odd_bytes (members : list ROS_OBJECT_HEADER) : Z :=
  fold_right (fun h a => Length (Name h) mod 2 + Length (TypeName h) mod 2 + a)
             0 members.

(** What a caller reads through a delivered descriptor for the string [s]
    of a member: [Length s] bytes, the last of which is the first byte of
    the terminating null when [Length s] is odd. *)
Definition read_back (mem : Memory) (s : UNICODE_STRING) : list byte :=
  if Z.even (Length s) then chars mem s
  else removelast (chars mem s) ++ [x00].

Definition member_read_back (mem : Memory) (h : ROS_OBJECT_HEADER)
    : option (list byte) * list byte :=
  (if Length (Name h) =? 0 then None else Some (read_back mem (Name h)),
   read_back mem (TypeName h)).

(* ===================================================================== *)
(** ** Reads of the cursor *)

Definition is_context_read (e : Event) : bool :=
  match e with EvRead CallerContext => true | _ => false end.

(** A directory with one member of type "Device" whose name has the odd
    [Length] 5: the bytes of "Fo" and the first byte of the second "o". *)
Definition odd_directory : DIRECTORY_OBJECT :=
  [mkHeader (mkUS 5 6 1000) Device].

(* ===================================================================== *)
(** ** The life of the scratch buffer *)

Inductive PoolState := NotAllocated | Allocated | Freed.

(** Events that access [TemporaryBuffer]: the staging and the packing, and
    the copy of line 366, which reads it. *)
Definition uses_scratch (e : Event) : bool :=
  match e with
  | EvRead ScratchBuffer | EvWrite ScratchBuffer _ _
  | EvWrite CallerBuffer _ _ => true
  | _ => false
  end.

Definition pool_step (st : PoolState) (e : Event) : PoolState :=
  match e with
  | EvExAllocatePool _ true => Allocated
  | EvExFreePool => Freed
  | _ => st
  end.

(** What the state of the scratch buffer allows of an event: one
    allocation, accesses and one release while it is allocated. *)
Definition pool_allows (st : PoolState) (e : Event) : bool :=
  match e with
  | EvExAllocatePool _ _ => match st with NotAllocated => true | _ => false end
  | EvExFreePool => match st with Allocated => true | _ => false end
  | _ => if uses_scratch e
         then match st with Allocated => true | _ => false end
         else true
  end.

Fixpoint pool_disciplined (st : PoolState) (t : list Event) : bool :=
  match t with
  | [] => true
  | e :: t' => pool_allows st e && pool_disciplined (pool_step st e) t'
  end.

Definition pool_after (t : list Event) : PoolState :=
  fold_left pool_step t NotAllocated.

(* ===================================================================== *)
(** ** Where the delivered descriptors point *)


(* ===================================================================== *)
(** ** Traces and values of the monad *)

Lemma value_bind {A B} (m : Eff A) (f : A -> Eff B) :
  value (bind m f) = value (f (value m)).
Proof. unfold bind, value. destruct m as [a t]. simpl. destruct (f a). reflexivity. Qed.

Lemma trace_bind {A B} (m : Eff A) (f : A -> Eff B) :
  trace (bind m f) = trace m ++ trace (f (value m)).
Proof. unfold bind, value, trace. destruct m as [a t]. simpl. destruct (f a). reflexivity. Qed.

Lemma value_ret {A} (a : A) : value (ret a) = a.
Proof. reflexivity. Qed.

Lemma trace_ret {A} (a : A) : trace (ret a) = [].
Proof. reflexivity. Qed.

Lemma trace_emit e : trace (emit e) = [e].
Proof. reflexivity. Qed.

Lemma eff_eta {A} (m : Eff A) : m = (value m, trace m).
Proof. destruct m; reflexivity. Qed.

Create Rewrite HintDb eff.
#[local] Hint Rewrite @value_bind @value_ret @trace_bind @trace_ret trace_emit : eff.

Ltac eff := autorewrite with eff.

(* ===================================================================== *)
(** ** Arithmetic of the scan *)

Lemma ULONG_small z : 0 <= z <= ULONG_MAX -> ULONG z = z.
Proof. unfold ULONG, ULONG_MAX. intros. apply Z.mod_small. lia. Qed.

Lemma ULONG_range z : 0 <= ULONG z <= ULONG_MAX.
Proof. unfold ULONG, ULONG_MAX. pose proof (Z.mod_pos_bound z 4294967296). lia. Qed.

Ltac zlia :=
  unfold no_wrap, is_ULONG, is_USHORT, MAX_ENTRY_SIZE, ULONG_MAX, USHORT_MAX,
    sizeof_ODI, sizeof_WCHAR in *; lia.

Ltac no_ULONG :=
  repeat match goal with
         | |- context [ULONG ?z] => rewrite (ULONG_small z) by zlia
         end.

Lemma spec_entrySize_bounds h :
  typed_header h ->
  sizeof_ODI + 2 <= spec_entrySize h <= MAX_ENTRY_SIZE.
Proof.
  unfold typed_header, typed_string, is_USHORT, spec_entrySize, MAX_ENTRY_SIZE,
    sizeof_ODI, USHORT_MAX.
  intros [[? _] [? _]]. destruct (Z.eqb_spec (Length (Name h)) 0); lia.
Qed.

(** On typed strings the 32-bit sum of the source is the specification's. *)
Lemma EntrySize_spec h : typed_header h -> EntrySize h = spec_entrySize h.
Proof.
  intros Hh. pose proof (spec_entrySize_bounds h Hh) as Hb.
  destruct Hh as [[Hn _] [Ht _]].
  unfold EntrySize, spec_entrySize, MAX_ENTRY_SIZE, is_USHORT, USHORT_MAX,
    sizeof_ODI, sizeof_WCHAR in *.
  destruct (Z.eqb_spec (Length (Name h)) 0);
    no_ULONG; lia.
Qed.

Lemma collected_snoc s0 h sk c r st e :
  collected (mkScan sk c r (staged s0 ++ [h]) st e) = collected s0 + 1.
Proof. unfold collected. simpl. rewrite length_app. simpl. lia. Qed.

Lemma spec_scan_runningRequired_mono BufferLength ReturnSingleEntry :
  forall entries s,
    Forall typed_header entries ->
    runningRequired s <=
    runningRequired (spec_scan BufferLength ReturnSingleEntry entries s).
Proof.
  induction entries as [|h rest IH]; intros s Hty; cbn [spec_scan].
  - cbn. lia.
  - inversion Hty as [|? ? Hh Hrest]; subst.
    pose proof (spec_entrySize_bounds h Hh) as Hes.
    repeat match goal with
           | |- context [if ?b then _ else _] => destruct b
           end;
      try match goal with
          | |- _ <= runningRequired (spec_scan _ _ _ ?s') =>
              specialize (IH s' Hrest); cbn [runningRequired] in IH
          end; cbn [runningRequired]; zlia.
Qed.

(** In a buffer that leaves room for one more entry below 2^32, the
    running total of a multi-entry scan stays below the buffer's length. *)
Lemma spec_scan_runningRequired_le BufferLength :
  forall entries s,
    runningRequired s <= Z.max BufferLength sizeof_ODI ->
    runningRequired (spec_scan BufferLength false entries s)
    <= Z.max BufferLength sizeof_ODI.
Proof.
  induction entries as [|h rest IH]; intros s Hr; cbn [spec_scan].
  - exact Hr.
  - destruct (0 <? skip s).
    + apply IH. exact Hr.
    + destruct (Z.leb_spec (runningRequired s + spec_entrySize h) BufferLength).
      * apply IH. cbn [runningRequired]. lia.
      * exact Hr.
Qed.

(** The loop of the source computes the specification's phase 1, as long
    as its 32-bit sums do not wrap: a single-entry scan never does, a
    multi-entry scan does not when its final total leaves room for one more
    entry below 2^32. *)
Lemma scan_list_refines BufferLength ReturnSingleEntry :
  forall entries s,
    Forall typed_header entries ->
    ReturnSingleEntry = true \/
      runningRequired (spec_scan BufferLength ReturnSingleEntry entries s)
      + MAX_ENTRY_SIZE <= ULONG_MAX ->
    0 <= skip s <= ULONG_MAX ->
    0 <= consumed s ->
    consumed s + Z.of_nat (length entries) <= ULONG_MAX ->
    collected s <= consumed s ->
    0 <= runningRequired s ->
    runningRequired s + MAX_ENTRY_SIZE <= ULONG_MAX ->
    value (scan_list BufferLength ReturnSingleEntry entries (locals_of s)) =
    (locals_of (spec_scan BufferLength ReturnSingleEntry entries s),
     negb (exhausted (spec_scan BufferLength ReturnSingleEntry entries s))).
Proof.
  induction entries as [|h rest IH]; intros s Hty Hnw Hsk Hc Hlen Hcol Hr Hrm.
  - reflexivity.
  - inversion Hty as [|? ? Hh Hrest]; subst.
    pose proof (spec_entrySize_bounds h Hh) as Hes.
    assert (Hcol0 : 0 <= collected s) by (unfold collected; lia).
    cbn [length] in Hlen. rewrite Nat2Z.inj_succ in Hlen.
    cbn [scan_list spec_scan]. eff. unfold scan_entry.
    cbn [locals_of SkipEntries NextEntry RequiredSize nDirectories Status DirInfo].
    rewrite (EntrySize_spec h Hh).
    destruct (Z.eqb_spec (skip s) 0) as [E0|E0].
    + rewrite E0. cbn [Z.ltb Z.compare]. eff.
      rewrite (ULONG_small (runningRequired s + spec_entrySize h))
        by zlia.
      destruct (Z.leb_spec (runningRequired s + spec_entrySize h) BufferLength) as [Hfit|Hfit].
      * eff. cbn [fst snd].
        rewrite (ULONG_small (consumed s + 1)) by zlia.
        rewrite (ULONG_small (collected s + 1)) by zlia.
        destruct ReturnSingleEntry.
        -- eff. unfold locals_of. cbn [skip consumed runningRequired staged status exhausted negb].
           rewrite collected_snoc, map_app, <- E0. reflexivity.
        -- eff. destruct Hnw as [Hnw|Hnw]; [discriminate|].
           cbn [spec_scan] in Hnw. rewrite E0 in Hnw. cbn [Z.ltb Z.compare] in Hnw.
           destruct (Z.leb_spec (runningRequired s + spec_entrySize h) BufferLength);
             [|lia].
           pose proof (spec_scan_runningRequired_mono BufferLength false rest
                         (mkScan 0 (consumed s + 1)
                             (runningRequired s + spec_entrySize h)
                             (staged s ++ [h]) STATUS_SUCCESS false) Hrest) as Hmono.
           cbn [runningRequired] in Hmono.
           specialize (IH (mkScan (skip s) (consumed s + 1)
                             (runningRequired s + spec_entrySize h)
                             (staged s ++ [h]) STATUS_SUCCESS false) Hrest).
           unfold locals_of in IH at 1.
           cbn [skip consumed runningRequired staged status] in IH.
           rewrite collected_snoc, map_app in IH. cbn [map] in IH.
           rewrite <- E0. rewrite <- E0 in IH at 1.
           apply IH; cbn [skip consumed runningRequired staged status];
             try rewrite collected_snoc; try zlia.
           right. rewrite E0. exact Hnw.
      * eff. cbn [fst snd]. eff.
        rewrite (ULONG_small (consumed s + 1)) by zlia.
        replace (consumed s + 1 - 1) with (consumed s) by lia.
        rewrite (ULONG_small (consumed s)) by zlia.
        destruct ReturnSingleEntry; unfold locals_of;
          cbn [skip consumed runningRequired staged status exhausted negb];
          rewrite <- E0; reflexivity.
    + assert (Hpos : 0 < skip s) by lia.
      destruct (Z.ltb_spec 0 (skip s)); [|lia].
      eff. cbn [fst snd]. eff.
      rewrite (ULONG_small (consumed s + 1)) by zlia.
      rewrite (ULONG_small (skip s - 1)) by zlia.
      specialize (IH (mkScan (skip s - 1) (consumed s + 1) (runningRequired s)
                        (staged s) (status s) false) Hrest).
      apply IH; [destruct Hnw as [Hnw|Hnw]; [left; exact Hnw|right];
                 cbn [spec_scan] in Hnw;
                 destruct (Z.ltb_spec 0 (skip s)); [exact Hnw|lia] | ..]; cbn [skip consumed runningRequired staged status]; unfold collected in *;
        cbn [staged]; zlia.
Qed.

(* ===================================================================== *)
(** ** Closed forms of the specification's scan *)

Lemma spec_scan_flag BufferLength single entries sk c r st stt e e' :
  spec_scan BufferLength single entries (mkScan sk c r st stt e) =
  spec_scan BufferLength single entries (mkScan sk c r st stt e').
Proof. destruct entries; reflexivity. Qed.

(** Skipping: the first [skip] members are passed over unexamined. *)
Lemma spec_scan_skip BufferLength single :
  forall entries s,
    0 <= skip s ->
    spec_scan BufferLength single entries s =
    if (length entries <=? Z.to_nat (skip s))%nat
    then mkScan (skip s - Z.of_nat (length entries))
                (consumed s + Z.of_nat (length entries))
                (runningRequired s) (staged s) (status s) true
    else spec_scan BufferLength single (skipn (Z.to_nat (skip s)) entries)
           (mkScan 0 (consumed s + skip s) (runningRequired s) (staged s)
                   (status s) false).
Proof.
  induction entries as [|h rest IH]; intros s Hs.
  - cbn. f_equal; lia.
  - cbn [spec_scan]. destruct (Z.ltb_spec 0 (skip s)) as [Hpos|Hz].
    + rewrite IH by (cbn; lia). cbn [skip consumed runningRequired staged status length].
      replace (Z.to_nat (skip s)) with (S (Z.to_nat (skip s - 1))) by lia.
      cbn [Nat.leb skipn].
      destruct (Nat.leb_spec (length rest) (Z.to_nat (skip s - 1))).
      * f_equal; lia.
      * f_equal. f_equal. lia.
    + assert (E : skip s = 0) by lia.
      rewrite E. cbn [Z.to_nat length Nat.leb skipn spec_scan Z.ltb Z.compare].
      rewrite Z.add_0_r. reflexivity.
Qed.

Lemma fit_count_le BufferLength : forall entries rr,
  (fit_count BufferLength rr entries <= length entries)%nat.
Proof.
  induction entries as [|h rest IH]; intros rr; cbn; [lia|].
  destruct (_ <=? _); [specialize (IH (rr + spec_entrySize h))|]; lia.
Qed.

Lemma fit_count_total BufferLength : forall entries rr,
  (0 < fit_count BufferLength rr entries)%nat ->
  rr + total_size (firstn (fit_count BufferLength rr entries) entries) <= BufferLength.
Proof.
  induction entries as [|h rest IH]; intros rr; cbn [fit_count]; [lia|].
  destruct (Z.leb_spec (rr + spec_entrySize h) BufferLength); [|lia].
  intros _. cbn [firstn total_size fold_right]. fold (total_size (firstn (fit_count BufferLength (rr + spec_entrySize h) rest) rest)).
  destruct (fit_count BufferLength (rr + spec_entrySize h) rest) eqn:E.
  - cbn. lia.
  - rewrite <- E. specialize (IH (rr + spec_entrySize h)). rewrite E in IH at 1.
    specialize (IH ltac:(lia)). lia.
Qed.

(** A multi-entry scan stages the longest run of members that fits. *)
Lemma spec_scan_multi BufferLength :
  forall entries s,
    skip s = 0 ->
    let j := fit_count BufferLength (runningRequired s) entries in
    spec_scan BufferLength false entries s =
    mkScan 0 (consumed s + Z.of_nat j)
           (runningRequired s + total_size (firstn j entries))
           (staged s ++ firstn j entries)
           (if (j =? 0)%nat then status s else STATUS_SUCCESS)
           (j =? length entries)%nat.
Proof.
  induction entries as [|h rest IH]; intros s Hs; cbn zeta.
  - cbn. rewrite Hs, app_nil_r. f_equal; lia.
  - cbn [spec_scan fit_count]. rewrite Hs. cbn [Z.ltb Z.compare].
    destruct (Z.leb_spec (runningRequired s + spec_entrySize h) BufferLength).
    + rewrite IH by reflexivity. cbn [skip consumed runningRequired staged status].
      cbn [firstn total_size fold_right length Nat.eqb].
      rewrite <- app_assoc. cbn [app].
      f_equal; try lia.
      * unfold total_size. lia.
      * destruct (_ =? 0)%nat; reflexivity.
    + cbn. rewrite app_nil_r. f_equal; lia.
Qed.

(** A single-entry scan looks at one member. *)
Lemma spec_scan_single BufferLength h rest s :
  skip s = 0 ->
  spec_scan BufferLength true (h :: rest) s =
  if runningRequired s + spec_entrySize h <=? BufferLength
  then mkScan 0 (consumed s + 1) (runningRequired s + spec_entrySize h)
              (staged s ++ [h]) STATUS_SUCCESS false
  else mkScan 0 (consumed s) (runningRequired s + spec_entrySize h)
              (staged s) STATUS_BUFFER_TOO_SMALL false.
Proof.
  intros Hs. cbn [spec_scan]. rewrite Hs. cbn [Z.ltb Z.compare]. reflexivity.
Qed.

(* ===================================================================== *)
(** ** The string area *)

Lemma length_read_bytes mem p n : length (read_bytes mem p n) = Z.to_nat n.
Proof. unfold read_bytes. rewrite length_map, length_seq. reflexivity. Qed.

Lemma length_chars mem s : length (chars mem s) = Z.to_nat (Length s).
Proof. apply length_read_bytes. Qed.

Lemma store_at_end area data :
  store area (Z.of_nat (length area)) data = area ++ data.
Proof.
  unfold store. rewrite Nat2Z.id, Nat.sub_diag. cbn [repeat].
  rewrite app_nil_r, firstn_all, skipn_all2 by lia. rewrite app_nil_r. reflexivity.
Qed.

(** A store that starts inside the last [c] of the area and reaches its
    end keeps what lies before it. *)
Lemma store_over_tail a c (m : nat) data :
  (m <= length c <= m + length data)%nat ->
  store (a ++ c) (Z.of_nat (length a) + Z.of_nat m) data = a ++ firstn m c ++ data.
Proof.
  intros H. unfold store.
  replace (Z.to_nat (Z.of_nat (length a) + Z.of_nat m)) with (length a + m)%nat by lia.
  rewrite length_app.
  replace (length a + m - (length a + length c))%nat with 0%nat by lia.
  cbn [repeat]. rewrite app_nil_r.
  rewrite firstn_app, firstn_all2 by lia.
  replace (length a + m - length a)%nat with m by lia.
  rewrite skipn_all2 by (rewrite length_app; lia).
  rewrite app_nil_r, <- app_assoc. reflexivity.
Qed.

Lemma half_bounds z : 0 <= z -> 0 <= 2 * (z / 2) <= z /\ z <= 2 * (z / 2) + 1.
Proof. intros. pose proof (Z.div_mod z 2 ltac:(lia)). pose proof (Z.mod_pos_bound z 2 ltac:(lia)). lia. Qed.

Lemma length_packed mem s :
  0 <= Length s ->
  Z.of_nat (length (packed mem s)) = sizeof_WCHAR * (Length s / sizeof_WCHAR + 1).
Proof.
  intros H. unfold packed, wide_null, sizeof_WCHAR.
  pose proof (half_bounds (Length s) H).
  rewrite length_app, length_firstn, length_chars. cbn [length]. lia.
Qed.

(** One string packed: its characters and a wide null are appended to the
    string area, and the descriptor points at their place in the caller's
    buffer. *)
Lemma pack_string_value mem base slot s p :
  typed_string s ->
  strbuf p = Z.of_nat (length (strings p)) ->
  0 <= CopyBytes p ->
  CopyBytes p + Z.of_nat (length (packed mem s)) <= ULONG_MAX ->
  value (pack_string mem base slot s p) =
  (mkUS (Length s) (MaximumLength s) (deststrbuf p),
   mkPacking (strbuf p + Z.of_nat (length (packed mem s)))
             (deststrbuf p + Z.of_nat (length (packed mem s)))
             (CopyBytes p + Z.of_nat (length (packed mem s)))
             (strings p ++ packed mem s)).
Proof.
  intros [[HL0 HL1] _] Hs Hc0 Hc.
  pose proof (half_bounds (Length s) HL0) as Hh.
  rewrite length_packed in * by exact HL0.
  unfold pack_string. eff. unfold sizeof_WCHAR in *.
  f_equal. f_equal.
  - replace ((Length s / 2 + 1) * 2) with (2 * (Length s / 2 + 1)) by lia.
    no_ULONG. reflexivity.
  - rewrite Hs, store_at_end.
    replace (2 * (Length s / 2)) with (Z.of_nat (Z.to_nat (2 * (Length s / 2)))) at 1 by lia.
    rewrite store_over_tail.
    + unfold packed, wide_null, chars, sizeof_WCHAR. reflexivity.
    + rewrite length_read_bytes. cbn [length]. lia.
Qed.

(** The second loop lays the staged records out as [layout] says. *)
Lemma pack_entries_value mem base :
  forall slots slot p,
    Forall typed_record slots ->
    strbuf p = Z.of_nat (length (strings p)) ->
    0 <= CopyBytes p ->
    CopyBytes p + Z.of_nat (length (snd (layout mem (deststrbuf p) slots)))
      <= ULONG_MAX ->
    value (pack_entries mem base slot slots p) =
    (fst (layout mem (deststrbuf p) slots),
     let heap := snd (layout mem (deststrbuf p) slots) in
     mkPacking (strbuf p + Z.of_nat (length heap))
               (deststrbuf p + Z.of_nat (length heap))
               (CopyBytes p + Z.of_nat (length heap))
               (strings p ++ heap)).
Proof.
  induction slots as [|d rest IH]; intros slot p Hty Hs Hc0 Hc; cbn zeta.
  - cbn. rewrite !Z.add_0_r, app_nil_r. destruct p; reflexivity.
  - inversion Hty as [|? ? [Hn Ht] Hrest]; subst.
    cbn [layout fst snd] in *. cbn [pack_entries]. eff. unfold pack_entry. eff.
    set (n := if Length (ObjectName d) >? 0 then packed mem (ObjectName d) else []) in *.
    set (t := packed mem (ObjectTypeName d)) in *.
    rewrite !length_app in Hc.
    assert (Hname :
      value (if Length (ObjectName d) >? 0
             then pack_string mem base slot (ObjectName d) p
             else ret (ObjectName d, p)) =
      (if Length (ObjectName d) >? 0
       then mkUS (Length (ObjectName d)) (MaximumLength (ObjectName d)) (deststrbuf p)
       else ObjectName d,
       mkPacking (strbuf p + Z.of_nat (length n)) (deststrbuf p + Z.of_nat (length n))
                 (CopyBytes p + Z.of_nat (length n)) (strings p ++ n))).
    { subst n. destruct (Length (ObjectName d) >? 0).
      - apply pack_string_value; auto; lia.
      - eff. cbn [length]. rewrite !Z.add_0_r, app_nil_r. destruct p; reflexivity. }
    rewrite Hname. cbn [fst snd].
    rewrite pack_string_value;
      cbn [strbuf deststrbuf CopyBytes strings]; auto;
      [| rewrite length_app; lia | lia | fold t; lia ].
    cbn [fst snd]. fold t.
    rewrite IH; cbn [strbuf deststrbuf CopyBytes strings]; auto;
      [| rewrite !length_app; lia | lia
       | rewrite <- Z.add_assoc; lia ].
    cbn [fst snd]. rewrite <- !Z.add_assoc.
    f_equal. rewrite !length_app, <- !app_assoc. f_equal; lia.
Qed.

(* ===================================================================== *)
(** ** Sizes *)

Lemma total_size_app l1 l2 : total_size (l1 ++ l2) = total_size l1 + total_size l2.
Proof. induction l1 as [|h l1 IH]; cbn in *; [reflexivity|]. unfold total_size in *. lia. Qed.

Lemma total_size_nonneg l : Forall typed_header l -> 0 <= total_size l.
Proof.
  induction 1 as [|h l Hh _ IH]; cbn; [lia|].
  pose proof (spec_entrySize_bounds h Hh). unfold total_size in *. zlia.
Qed.

Lemma spec_scan_staged_Forall (P : ROS_OBJECT_HEADER -> Prop) BufferLength single :
  forall entries s,
    Forall P entries -> Forall P (staged s) ->
    Forall P (staged (spec_scan BufferLength single entries s)).
Proof.
  induction entries as [|h rest IH]; intros s He Hs; cbn [spec_scan]; [exact Hs|].
  inversion He; subst.
  repeat match goal with
         | |- context [if ?b then _ else _] => destruct b
         end; try apply IH; cbn [staged]; auto;
    apply Forall_app; split; auto.
Qed.

(** The running total accounts for the terminator and for every staged
    member. *)
Lemma spec_scan_total BufferLength single :
  forall entries s,
    Forall typed_header entries ->
    runningRequired s - total_size (staged s) <=
    runningRequired (spec_scan BufferLength single entries s)
    - total_size (staged (spec_scan BufferLength single entries s)).
Proof.
  induction entries as [|h rest IH]; intros s Hty; cbn [spec_scan].
  - cbn [runningRequired staged]. lia.
  - inversion Hty as [|? ? Hh Hrest]; subst.
    pose proof (spec_entrySize_bounds h Hh) as Hes.
    repeat match goal with
           | |- context [if ?b then _ else _] => destruct b
           end;
      try match goal with
          | |- _ <= runningRequired (spec_scan _ _ _ ?s') - _ =>
              specialize (IH s' Hrest); cbn [runningRequired staged] in IH;
              try rewrite total_size_app in IH
          end; cbn [runningRequired staged]; try rewrite total_size_app;
      cbn [total_size fold_right] in *; zlia.
Qed.

Lemma typed_staged_record h : typed_header h -> typed_record (staged_record h).
Proof.
  intros [Hn Ht]. unfold staged_record, typed_record. cbn.
  destruct (Length (Name h) =? 0); split; auto.
  unfold typed_string, is_USHORT, USHORT_MAX. cbn. lia.
Qed.

Lemma length_layout_records mem : forall slots p,
  length (fst (layout mem p slots)) = length slots.
Proof. induction slots as [|d rest IH]; intros p; cbn; [reflexivity|]. rewrite IH. reflexivity. Qed.

(** The records and strings of the staged members take no more room than
    the scan counted for them. *)
Lemma layout_size mem : forall members p,
  Forall typed_header members ->
  sizeof_ODI * Z.of_nat (length members)
  + Z.of_nat (length (snd (layout mem p (map staged_record members))))
  <= total_size members.
Proof.
  induction members as [|h rest IH]; intros p Hty; [cbn; lia|].
  inversion Hty as [|? ? Hh Hrest]; subst.
  cbn [map layout snd length total_size fold_right].
  fold (total_size rest).
  rewrite !length_app.
  match goal with |- context [layout mem ?q (map staged_record rest)] =>
    specialize (IH q Hrest);
    set (R := length (snd (layout mem q (map staged_record rest)))) in * end.
  destruct Hh as [[[Hn0 Hn1] _] [[Ht0 Ht1] _]].
  assert (Ht : Z.of_nat (length (packed mem (ObjectTypeName (staged_record h))))
               <= Length (TypeName h) + 2).
  { rewrite length_packed by (cbn; lia). cbn [staged_record ObjectTypeName].
    pose proof (half_bounds (Length (TypeName h)) Ht0). zlia. }
  unfold spec_entrySize, staged_record in *. cbn [ObjectName ObjectTypeName] in *.
  rewrite !Nat2Z.inj_add.
  destruct (Z.eqb_spec (Length (Name h)) 0) as [E|E].
  - cbn [Length Z.gtb Z.compare length]. zlia.
  - destruct (Z.gtb_spec (Length (Name h)) 0); [|lia].
    rewrite (length_packed mem (Name h)) by lia.
    pose proof (half_bounds (Length (Name h)) Hn0). zlia.
Qed.

(* ===================================================================== *)
(** ** The call as a function of the scan *)

Lemma capture_quiet env RestartScan Context ReturnLength :
  ProbeFault env = None ->
  value (capture env RestartScan Context ReturnLength) =
  Returns (STATUS_SUCCESS, if RestartScan then 0 else Context).
Proof.
  intros H. unfold capture, probe_block, probe_ReturnLength. rewrite H.
  destruct (PreviousMode env), RestartScan, ReturnLength; reflexivity.
Qed.

Lemma length_output_records mem Buffer members :
  length (fst (output_of mem Buffer members)) = S (length members).
Proof.
  unfold output_of. cbn [fst]. rewrite length_app, length_layout_records, length_map.
  cbn [length]. lia.
Qed.

Lemma copy_out_all out : copy_out (output_bytes out) out = out.
Proof.
  unfold copy_out, output_bytes. destruct out as [recs heap]. cbn [fst snd].
  f_equal.
  - apply firstn_all2. unfold sizeof_ODI.
    assert (Z.of_nat (length recs) <= (16 * Z.of_nat (length recs) + Z.of_nat (length heap)) / 16).
    { apply Z.div_le_lower_bound; lia. }
    lia.
  - apply firstn_all2. lia.
Qed.

(** Lines 294-355 on the locals a scan ends with. *)
Lemma compact_value mem Buffer s St :
  Forall typed_header (staged s) ->
  sizeof_ODI + total_size (staged s) <= ULONG_MAX ->
  value (compact mem Buffer (locals_of s) St) =
  if NT_SUCCESS St && (collected s >? 0)
  then (output_bytes (output_of mem Buffer (staged s)),
        output_of mem Buffer (staged s))
  else (0, (map staged_record (staged s), [])).
Proof.
  intros Hty Hsz. unfold compact.
  cbn [locals_of nDirectories DirInfo].
  destruct (NT_SUCCESS St && (collected s >? 0)); [|reflexivity].
  eff.
  pose proof (layout_size mem (staged s)
                (Buffer + (sizeof_ODI * collected s + sizeof_ODI)) Hty) as Hl.
  pose proof (total_size_nonneg _ Hty) as Hnn.
  unfold collected in *.
  rewrite pack_entries_value; cbn [strbuf deststrbuf CopyBytes strings length].
  - cbn [fst snd app]. unfold output_of, output_bytes.
    cbn [fst snd]. rewrite length_app, length_layout_records, length_map.
    cbn [length CopyBytes strings].
    rewrite (ULONG_small (Z.of_nat (length (staged s)) + 1)) by zlia.
    rewrite ULONG_small by zlia.
    apply (f_equal2 pair); [|reflexivity].
    rewrite Nat2Z.inj_add. zlia.
  - rewrite Forall_map. eapply Forall_impl; [|exact Hty]. exact typed_staged_record.
  - reflexivity.
  - apply ULONG_range.
  - rewrite (ULONG_small (Z.of_nat (length (staged s)) + 1)) by zlia.
    rewrite ULONG_small by zlia. zlia.
Qed.

Lemma deliver_quiet env St CopyBytes tmp NextEntry RequiredSize ReturnLength :
  DeliverFault env = None ->
  value (deliver env St CopyBytes tmp NextEntry RequiredSize ReturnLength) =
  mkOutcome St (if CopyBytes =? 0 then None else Some (copy_out CopyBytes tmp))
            (Some NextEntry) (if ReturnLength then Some RequiredSize else None).
Proof.
  intros H. unfold deliver. rewrite H. cbn [faults_at copy_fault].
  destruct (CopyBytes =? 0), ReturnLength; reflexivity.
Qed.

Lemma spec_scan_single_bound BufferLength :
  forall entries s,
    Forall typed_header entries ->
    runningRequired (spec_scan BufferLength true entries s)
    <= runningRequired s + MAX_ENTRY_SIZE.
Proof.
  induction entries as [|h rest IH]; intros s Hty; cbn [spec_scan].
  - cbn. zlia.
  - inversion Hty as [|? ? Hh Hrest]; subst.
    pose proof (spec_entrySize_bounds h Hh) as Hes.
    destruct (0 <? skip s).
    + specialize (IH (mkScan (skip s - 1) (consumed s + 1) (runningRequired s)
                        (staged s) (status s) false) Hrest). exact IH.
    + destruct (_ <=? _); cbn [runningRequired]; lia.
Qed.

Lemma output_bytes_pos mem Buffer members :
  sizeof_ODI <= output_bytes (output_of mem Buffer members).
Proof.
  unfold output_bytes. rewrite length_output_records. zlia.
Qed.

(** A call around which nothing fails returns what the specification's
    scan of the directory determines. *)
Lemma NtQueryDirectoryObject_quiet env Directory Buffer BufferLength
    (ReturnSingleEntry RestartScan : bool) (Context : Z) (ReturnLength : bool) :
  quiet env ->
  typed_directory Directory ->
  is_ULONG (if RestartScan then 0 else Context) ->
  let s := spec_scan BufferLength ReturnSingleEntry Directory
             (spec_start (if RestartScan then 0 else Context)) in
  ReturnSingleEntry = true \/ runningRequired s + MAX_ENTRY_SIZE <= ULONG_MAX ->
  results (value (NtQueryDirectoryObject env Directory Buffer BufferLength
                    ReturnSingleEntry RestartScan Context ReturnLength)) =
  outcome_of (KernelMemory env) Buffer ReturnSingleEntry ReturnLength s.
Proof.
  intros (Hp & Hr & Ha & Hd) [Hty Hlen] Hctx s Hnw.
  set (skip0 := if RestartScan then 0 else Context) in *.
  assert (Hskip : 0 <= skip0 <= ULONG_MAX) by exact Hctx.
  unfold NtQueryDirectoryObject. eff.
  rewrite capture_quiet by exact Hp. cbv beta iota. cbn [fst snd].
  match goal with
  | |- context [match PreviousMode env with KernelMode => ?a | UserMode => ?b end] =>
      replace (match PreviousMode env with KernelMode => a | UserMode => b end)
        with false by (destruct (PreviousMode env); reflexivity)
  end.
  eff. rewrite Hr. eff. rewrite Ha. eff.
  change (if RestartScan then 0 else Context) with skip0.
  change (initial_locals skip0) with (locals_of (spec_start skip0)).
  rewrite scan_list_refines;
    [ | exact Hty | exact Hnw | cbn; zlia .. ].
  fold s. cbn [fst snd].
  pose proof (spec_scan_total BufferLength ReturnSingleEntry Directory
                (spec_start skip0) Hty) as Htot.
  fold s in Htot. cbn [spec_start runningRequired staged total_size fold_right] in Htot.
  assert (Hrr : runningRequired s <= ULONG_MAX).
  { destruct Hnw as [Hs|Hs]; [|zlia].
    subst ReturnSingleEntry.
    pose proof (spec_scan_single_bound BufferLength Directory (spec_start skip0) Hty).
    fold s in H. cbn [spec_start runningRequired] in H. zlia. }
  assert (Hst : Forall typed_header (staged s)).
  { apply spec_scan_staged_Forall; [exact Hty | constructor]. }
  rewrite compact_value by (auto; zlia).
  cbn [locals_of Status NextEntry RequiredSize].
  change (if negb ReturnSingleEntry && negb (exhausted s)
          then STATUS_MORE_ENTRIES else status s)
    with (final_status ReturnSingleEntry s).
  unfold outcome_of.
  destruct (NT_SUCCESS (final_status ReturnSingleEntry s) || ReturnSingleEntry);
    [|reflexivity].
  rewrite deliver_quiet by exact Hd.
  destruct (NT_SUCCESS (final_status ReturnSingleEntry s) && (collected s >? 0)).
  - cbn [fst snd]. rewrite copy_out_all.
    pose proof (output_bytes_pos (KernelMemory env) Buffer (staged s)).
    destruct (Z.eqb_spec (output_bytes (output_of (KernelMemory env) Buffer (staged s))) 0);
      [zlia|reflexivity].
  - reflexivity.
Qed.

Lemma no_wrap_scan BufferLength entries skip0 :
  no_wrap BufferLength ->
  runningRequired (spec_scan BufferLength false entries (spec_start skip0))
  + MAX_ENTRY_SIZE <= ULONG_MAX.
Proof.
  intros H.
  pose proof (spec_scan_runningRequired_le BufferLength entries (spec_start skip0)) as Hle.
  cbn [spec_start runningRequired] in Hle. specialize (Hle ltac:(lia)). zlia.
Qed.

Lemma wrap_free BufferLength (single : bool) entries skip0 :
  single = true \/ no_wrap BufferLength ->
  single = true \/
  runningRequired (spec_scan BufferLength single entries (spec_start skip0))
  + MAX_ENTRY_SIZE <= ULONG_MAX.
Proof.
  intros [H|H]; [left; exact H|].
  destruct single; [left; reflexivity|right]. apply no_wrap_scan. exact H.
Qed.

Lemma typed_example_directory : typed_directory example_directory.
Proof.
  split; [|cbn; zlia].
  repeat constructor; cbn; zlia.
Qed.

Lemma quiet_example_env : quiet example_env.
Proof. repeat split. Qed.

(* ===================================================================== *)
(** ** The scan stages what fits *)

(** C7.  Every member the scan examines is counted with
    [entrySize = sizeof(record) + (nameBytes + 2 if it has a name, else 0)
    + typeNameBytes + 2]; it is staged (collected incremented, entrySize
    added to runningRequired, status set to success) exactly when
    [runningRequired + entrySize <= bufferLength], runningRequired starting
    at sizeof(record); a single-entry scan stops after the first staged
    member.  That is: on a directory of the 32-bit machine the loop of the
    source computes [spec_scan], the scan in the specification's words over
    the integers, and [EntrySize] is its [spec_entrySize].  What is staged
    for a member is the member's own (Name, TypeName) pair: the slots
    written into the scratch buffer are, in order, the descriptors of the
    members the specification's scan has staged, with the empty descriptor
    for the name of an anonymous member.  A multi-entry scan is taken in a
    buffer that leaves room for one entry below 2^32. *)
Theorem scan_stages_what_fits BufferLength (ReturnSingleEntry : bool)
    Directory SkipEntries :
  typed_directory Directory ->
  is_ULONG SkipEntries ->
  ReturnSingleEntry = true \/ no_wrap BufferLength ->
  (forall h, In h Directory -> EntrySize h = spec_entrySize h) /\
  value (scan_list BufferLength ReturnSingleEntry Directory
           (initial_locals SkipEntries)) =
  (locals_of (spec_scan BufferLength ReturnSingleEntry Directory
                (spec_start SkipEntries)),
   negb (exhausted (spec_scan BufferLength ReturnSingleEntry Directory
                      (spec_start SkipEntries)))) /\
  Forall2 stages
    (staged (spec_scan BufferLength ReturnSingleEntry Directory
               (spec_start SkipEntries)))
    (DirInfo (fst (value (scan_list BufferLength ReturnSingleEntry Directory
                            (initial_locals SkipEntries))))).
Proof.
  intros [Hty Hlen] Hskip Hnw.
  assert (E : value (scan_list BufferLength ReturnSingleEntry Directory
                       (initial_locals SkipEntries)) =
              (locals_of (spec_scan BufferLength ReturnSingleEntry Directory
                            (spec_start SkipEntries)),
               negb (exhausted (spec_scan BufferLength ReturnSingleEntry Directory
                                  (spec_start SkipEntries))))).
  { change (initial_locals SkipEntries) with (locals_of (spec_start SkipEntries)).
    apply scan_list_refines; try exact Hty; cbn; try zlia.
    apply wrap_free. exact Hnw. }
  split; [|split; [exact E|]].
  - intros h Hin. apply EntrySize_spec.
    rewrite Forall_forall in Hty. apply Hty. exact Hin.
  - rewrite E. cbn [fst locals_of DirInfo].
    induction (staged (spec_scan BufferLength ReturnSingleEntry Directory
                         (spec_start SkipEntries))) as [|h rest IH];
      [constructor|].
    cbn [map]. constructor; [|exact IH].
    unfold stages, staged_record. cbn [ObjectName ObjectTypeName].
    split; [reflexivity|].
    destruct (Z.eqb_spec (Length (Name h)) 0); split; intros; congruence.
Qed.

Lemma scan_stages_what_fits_witness :
  typed_directory example_directory /\ is_ULONG 0 /\ no_wrap 64 /\
  value (scan_list 64 false example_directory (initial_locals 0)) =
  (locals_of (spec_scan 64 false example_directory (spec_start 0)), true) /\
  Forall2 stages [mkHeader Foo Device]
    (DirInfo (fst (value (scan_list 64 false example_directory
                            (initial_locals 0))))) /\
  DirInfo (fst (value (scan_list 64 false example_directory (initial_locals 0))))
  = [mkODI Foo Device].
Proof.
  assert (H1 : typed_directory example_directory) by exact typed_example_directory.
  assert (H2 : is_ULONG 0) by (unfold is_ULONG, ULONG_MAX; lia).
  assert (H3 : no_wrap 64) by (unfold no_wrap, MAX_ENTRY_SIZE, ULONG_MAX, sizeof_ODI, USHORT_MAX; lia).
  split; [exact H1|]. split; [exact H2|]. split; [exact H3|].
  split; [|split; [|reflexivity]].
  - exact (proj1 (proj2 (scan_stages_what_fits 64 false example_directory 0
                           H1 H2 (or_intror H3)))).
  - exact (proj2 (proj2 (scan_stages_what_fits 64 false example_directory 0
                           H1 H2 (or_intror H3)))).
Defined.

(* ===================================================================== *)
(** ** Reading the output back *)

Lemma packed_whole mem s :
  typed_string s -> whole_string s -> packed mem s = chars mem s ++ wide_null.
Proof.
  intros [[H0 _] _] Hw. unfold packed. f_equal.
  apply firstn_all2. rewrite length_chars.
  unfold whole_string in Hw. apply Z.even_spec in Hw. destruct Hw as [k Hk].
  unfold sizeof_WCHAR. rewrite Hk, (Z.mul_comm 2 k), Z.div_mul by lia. lia.
Qed.

(** On whole strings the string area is the one the specification
    describes. *)
Lemma layout_heap mem : forall members p,
  Forall typed_header members -> Forall whole_header members ->
  snd (layout mem p (map staged_record members)) = spec_heap mem members.
Proof.
  induction members as [|h rest IH]; intros p Hty Hwh; [reflexivity|].
  inversion Hty as [|? ? [Hn Ht] Hrest]; subst.
  inversion Hwh as [|? ? [Wn Wt] Wrest]; subst.
  cbn [map layout snd spec_heap flat_map]. rewrite IH by assumption.
  fold (spec_heap mem rest).
  cbn [staged_record ObjectName ObjectTypeName].
  rewrite (packed_whole mem (TypeName h)) by assumption.
  pose proof Hn as [[Hn0 Hn1] Hn2].
  destruct (Z.eqb_spec (Length (Name h)) 0) as [E|E].
  - cbn [Length Z.gtb Z.compare app]. rewrite <- app_assoc. reflexivity.
  - destruct (Z.gtb_spec (Length (Name h)) 0); [|lia].
    rewrite packed_whole by assumption.
    rewrite <- !app_assoc. reflexivity.
Qed.

Lemma read_area_here base pre s rest (p len : Z) :
  p = base + Z.of_nat (length pre) ->
  len = Z.of_nat (length s) ->
  read_area base (pre ++ s ++ rest) p len = s.
Proof.
  intros -> ->. unfold read_area.
  replace (Z.to_nat (base + Z.of_nat (length pre) - base)) with (length pre) by lia.
  rewrite skipn_app, skipn_all, Nat.sub_diag, Nat2Z.id. cbn [app skipn].
  rewrite firstn_app, firstn_all, Nat.sub_diag. cbn [firstn]. apply app_nil_r.
Qed.

(** Read through its descriptors, every record gives back the strings of
    the member it was staged for. *)
Lemma decode_layout mem base : forall members pre p,
  Forall typed_header members -> Forall whole_header members ->
  p = base + Z.of_nat (length pre) ->
  map (decode_record base (pre ++ snd (layout mem p (map staged_record members))))
      (fst (layout mem p (map staged_record members)))
  = map (member_strings mem) members.
Proof.
  induction members as [|h rest IH]; intros pre p Hty Hwh Hp; [reflexivity|].
  inversion Hty as [|? ? [Hn Ht] Hrest]; subst.
  inversion Hwh as [|? ? [Wn Wt] Wrest]; subst.
  cbn [map layout fst snd].
  set (n := if Length (ObjectName (staged_record h)) >? 0
            then packed mem (ObjectName (staged_record h)) else []).
  set (t := packed mem (ObjectTypeName (staged_record h))).
  set (q := base + Z.of_nat (length pre) + Z.of_nat (length n) + Z.of_nat (length t)).
  f_equal.
  - unfold decode_record, member_strings.
    cbn [ObjectName ObjectTypeName Length Buffer].
    assert (Et : t = chars mem (TypeName h) ++ wide_null).
    { subst t. cbn [staged_record ObjectTypeName]. apply packed_whole; assumption. }
    pose proof Hn as [[Hn0 Hn1] Hn2]. pose proof Ht as [[Ht0 Ht1] Ht2].
    f_equal.
    + subst n. unfold staged_record. cbn [ObjectName].
      destruct (Z.eqb_spec (Length (Name h)) 0) as [E|E].
      * cbn [Length Z.gtb Z.compare Z.eqb]. reflexivity.
      * destruct (Z.gtb_spec (Length (Name h)) 0); [|lia].
        cbn [Length Buffer].
        destruct (Z.eqb_spec (Length (Name h)) 0); [lia|].
        f_equal. rewrite packed_whole by assumption.
        rewrite <- !app_assoc.
        apply read_area_here; [reflexivity|]. rewrite length_chars. lia.
    + rewrite Et. cbn [staged_record ObjectTypeName Length].
      rewrite (app_assoc pre n), <- !app_assoc.
      rewrite (app_assoc pre n).
      apply read_area_here; [rewrite length_app; lia|]. rewrite length_chars. lia.
  - specialize (IH (pre ++ n ++ t) q Hrest Wrest).
    rewrite <- !app_assoc in IH. apply IH.
    subst q. rewrite !length_app. lia.
Qed.

Lemma removelast_snoc {A} (l : list A) (x : A) : removelast (l ++ [x]) = l.
Proof. apply removelast_last. Qed.

(** The caller reads in the output the strings of the members it was laid
    out for, in order. *)
Lemma decode_output mem Buffer members :
  Forall typed_header members -> Forall whole_header members ->
  decode Buffer (output_of mem Buffer members) = map (member_strings mem) members.
Proof.
  intros Hty Hwh. unfold decode. rewrite length_output_records.
  unfold output_of. cbn [fst snd]. rewrite removelast_snoc.
  pose proof (decode_layout mem
                (Buffer + sizeof_ODI * Z.of_nat (S (length members)))
                members [] (Buffer + (sizeof_ODI * Z.of_nat (length members) + sizeof_ODI))
                Hty Hwh) as H.
  cbn [app length] in H. apply H. zlia.
Qed.

(* ===================================================================== *)
(** ** The member at the cursor *)

Lemma nth_error_skipn_cons {A} : forall (l : list A) n x,
  nth_error l n = Some x -> skipn n l = x :: skipn (S n) l /\ (n < length l)%nat.
Proof.
  induction l as [|a l IH]; intros [|n] x H; cbn in H; try discriminate.
  - inversion H; subst. cbn. split; [reflexivity|lia].
  - destruct (IH n x H) as [E L]. cbn [skipn length]. split; [|lia].
    rewrite E. reflexivity.
Qed.

Lemma spec_scan_at BufferLength single Directory k h :
  0 <= k ->
  nth_error Directory (Z.to_nat k) = Some h ->
  spec_scan BufferLength single Directory (spec_start k) =
  spec_scan BufferLength single (h :: skipn (S (Z.to_nat k)) Directory)
    (mkScan 0 k sizeof_ODI [] STATUS_NO_MORE_ENTRIES false).
Proof.
  intros Hk Hn. destruct (nth_error_skipn_cons _ _ _ Hn) as [E L].
  rewrite spec_scan_skip by exact Hk. cbn [spec_start skip consumed runningRequired staged status].
  destruct (Nat.leb_spec (length Directory) (Z.to_nat k)); [lia|].
  rewrite E. reflexivity.
Qed.

(** A single-entry call with a member at the cursor: the member is
    delivered if the terminator and its own record and strings fit, and
    its size is reported if they do not. *)
Lemma single_entry_call env Directory Buffer BufferLength (RestartScan : bool)
    (Context : Z) (ReturnLength : bool) h :
  quiet env ->
  typed_directory Directory ->
  is_ULONG (if RestartScan then 0 else Context) ->
  nth_error Directory (Z.to_nat (if RestartScan then 0 else Context)) = Some h ->
  results (value (NtQueryDirectoryObject env Directory Buffer BufferLength
                    true RestartScan Context ReturnLength)) =
  if sizeof_ODI + spec_entrySize h <=? BufferLength
  then mkOutcome STATUS_SUCCESS
         (Some (output_of (KernelMemory env) Buffer [h]))
         (Some ((if RestartScan then 0 else Context) + 1))
         (if ReturnLength then Some (sizeof_ODI + spec_entrySize h) else None)
  else mkOutcome STATUS_BUFFER_TOO_SMALL None
         (Some (if RestartScan then 0 else Context))
         (if ReturnLength then Some (sizeof_ODI + spec_entrySize h) else None).
Proof.
  intros Hq Hty Hk Hn.
  rewrite NtQueryDirectoryObject_quiet by (auto; left; reflexivity).
  rewrite (spec_scan_at _ _ _ _ h) by (auto; apply Hk).
  rewrite spec_scan_single by reflexivity.
  cbn [runningRequired consumed staged app].
  destruct (sizeof_ODI + spec_entrySize h <=? BufferLength); reflexivity.
Qed.

(** A multi-entry call whose member at the cursor does not fit. *)
Lemma multi_entry_call_blocked env Directory Buffer BufferLength (RestartScan : bool)
    (Context : Z) (ReturnLength : bool) h :
  quiet env ->
  typed_directory Directory ->
  is_ULONG (if RestartScan then 0 else Context) ->
  nth_error Directory (Z.to_nat (if RestartScan then 0 else Context)) = Some h ->
  BufferLength < sizeof_ODI + spec_entrySize h ->
  results (value (NtQueryDirectoryObject env Directory Buffer BufferLength
                    false RestartScan Context ReturnLength)) =
  mkOutcome STATUS_MORE_ENTRIES None
    (Some (if RestartScan then 0 else Context))
    (if ReturnLength then Some sizeof_ODI else None).
Proof.
  intros Hq Hty Hk Hn Hfit.
  assert (E : spec_scan BufferLength false Directory
                (spec_start (if RestartScan then 0 else Context)) =
              mkScan 0 (if RestartScan then 0 else Context) sizeof_ODI []
                     STATUS_NO_MORE_ENTRIES false).
  { rewrite (spec_scan_at _ _ _ _ h) by (auto; apply Hk).
    cbn [spec_scan skip runningRequired Z.ltb Z.compare].
    destruct (Z.leb_spec (sizeof_ODI + spec_entrySize h) BufferLength); [lia|].
    reflexivity. }
  rewrite NtQueryDirectoryObject_quiet; auto.
  - rewrite E. reflexivity.
  - right. rewrite E. cbn. zlia.
Qed.

(* ===================================================================== *)
(** ** The empty directory *)

(** C2, as the code has it.  On a directory without members a call with
    RestartScan returns STATUS_NO_MORE_ENTRIES in both modes and copies
    nothing.  A single-entry call writes the cursor (0) and, when
    ReturnLength is supplied, the size of one record into it; a multi-entry
    call writes neither: line 360 lets the results out only on success or
    in single-entry mode. *)
Theorem empty_directory_no_more_entries env Buffer BufferLength
    (ReturnSingleEntry : bool) Context (ReturnLength : bool) :
  quiet env ->
  ReturnStatus (query env [] Buffer BufferLength ReturnSingleEntry true
                  Context ReturnLength) = STATUS_NO_MORE_ENTRIES /\
  BufferOut (query env [] Buffer BufferLength ReturnSingleEntry true
               Context ReturnLength) = None /\
  ReturnLengthOut (query env [] Buffer BufferLength ReturnSingleEntry true
                     Context ReturnLength)
    = (if ReturnSingleEntry && ReturnLength then Some sizeof_ODI else None) /\
  ContextOut (query env [] Buffer BufferLength ReturnSingleEntry true
                Context ReturnLength)
    = (if ReturnSingleEntry then Some 0 else None).
Proof.
  intros Hq. unfold query.
  rewrite NtQueryDirectoryObject_quiet;
    [ | exact Hq | split; [constructor | cbn; zlia] | zlia
      | right; cbn; zlia ].
  destruct ReturnSingleEntry, ReturnLength; repeat split; reflexivity.
Qed.

Lemma empty_directory_no_more_entries_witness :
  quiet example_env /\
  ReturnLengthOut (query example_env [] 5000 64 true true 7 true) = Some sizeof_ODI.
Proof.
  split; [exact quiet_example_env|].
  exact (proj1 (proj2 (proj2
    (empty_directory_no_more_entries example_env 5000 64 true 7 true
       quiet_example_env)))).
Defined.

(** C2 as stated fails in multi-entry mode: the call returns
    STATUS_NO_MORE_ENTRIES and leaves ReturnLength unwritten. *)
Lemma empty_directory_multi_entry_writes_nothing :
  ReturnStatus (query example_env [] 5000 64 false true 0 true)
    = STATUS_NO_MORE_ENTRIES /\
  ReturnLengthOut (query example_env [] 5000 64 false true 0 true) = None /\
  ReturnLengthOut (query example_env [] 5000 64 false true 0 true)
    <> Some sizeof_ODI.
Proof. repeat split. discriminate. Qed.

(* ===================================================================== *)
(** ** A member that does not fit *)

(** C4.  A single-entry call that continues a scan ([RestartScan] false)
    and whose first unconsumed member [h] does not fit (the terminator and
    the member's record and strings exceed BufferLength) returns
    STATUS_BUFFER_TOO_SMALL, copies nothing, writes the cursor back with
    the value it had, and writes into ReturnLength, when supplied, the
    bytes the member needs.  That number is exact: the same call with a
    buffer of at least that many bytes delivers the member and moves the
    cursor by one, and with fewer bytes it fails again. *)
Theorem single_entry_too_small_can_be_retried env Directory Buffer BufferLength
    Context (ReturnLength : bool) h :
  quiet env ->
  typed_directory Directory ->
  is_ULONG Context ->
  nth_error Directory (Z.to_nat Context) = Some h ->
  BufferLength < sizeof_ODI + spec_entrySize h ->
  (ReturnStatus (query env Directory Buffer BufferLength true false
                   Context ReturnLength) = STATUS_BUFFER_TOO_SMALL /\
   BufferOut (query env Directory Buffer BufferLength true false
                Context ReturnLength) = None /\
   ContextOut (query env Directory Buffer BufferLength true false
                 Context ReturnLength) = Some Context /\
   ReturnLengthOut (query env Directory Buffer BufferLength true false
                      Context ReturnLength)
     = (if ReturnLength then Some (sizeof_ODI + spec_entrySize h) else None)) /\
  (forall Buffer' BufferLength' (ReturnLength' : bool),
     sizeof_ODI + spec_entrySize h <= BufferLength' ->
     ReturnStatus (query env Directory Buffer' BufferLength' true false
                     Context ReturnLength') = STATUS_SUCCESS /\
     BufferOut (query env Directory Buffer' BufferLength' true false
                  Context ReturnLength')
       = Some (output_of (KernelMemory env) Buffer' [h]) /\
     ContextOut (query env Directory Buffer' BufferLength' true false
                   Context ReturnLength') = Some (Context + 1) /\
     (whole_header h ->
      delivered Buffer' (query env Directory Buffer' BufferLength' true false
                           Context ReturnLength')
        = [member_strings (KernelMemory env) h])) /\
  (forall Buffer' BufferLength' (ReturnLength' : bool),
     BufferLength' < sizeof_ODI + spec_entrySize h ->
     ReturnStatus (query env Directory Buffer' BufferLength' true false
                     Context ReturnLength') = STATUS_BUFFER_TOO_SMALL).
Proof.
  intros Hq Hty Hk Hn Hfit.
  assert (Hh : typed_header h).
  { destruct Hty as [Hty _]. rewrite Forall_forall in Hty.
    apply Hty. eapply nth_error_In. exact Hn. }
  unfold query. split; [|split].
  - rewrite (single_entry_call env Directory Buffer BufferLength false Context
               ReturnLength h) by assumption.
    destruct (Z.leb_spec (sizeof_ODI + spec_entrySize h) BufferLength); [lia|].
    repeat split; reflexivity.
  - intros Buffer' BufferLength' ReturnLength' Hfit'.
    rewrite (single_entry_call env Directory Buffer' BufferLength' false Context
               ReturnLength' h) by assumption.
    destruct (Z.leb_spec (sizeof_ODI + spec_entrySize h) BufferLength'); [|lia].
    repeat split; try reflexivity.
    intros Hw. unfold delivered. cbn [BufferOut].
    rewrite decode_output by (constructor; [assumption | constructor]). reflexivity.
  - intros Buffer' BufferLength' ReturnLength' Hfit'.
    rewrite (single_entry_call env Directory Buffer' BufferLength' false Context
               ReturnLength' h) by assumption.
    destruct (Z.leb_spec (sizeof_ODI + spec_entrySize h) BufferLength'); [lia|].
    reflexivity.
Qed.

Lemma single_entry_too_small_can_be_retried_witness :
  quiet example_env /\
  typed_directory example_directory /\
  is_ULONG 1 /\
  nth_error example_directory (Z.to_nat 1) = Some (mkHeader Bar Device) /\
  53 < sizeof_ODI + spec_entrySize (mkHeader Bar Device) /\
  ReturnLengthOut (query example_env example_directory 5000 53 true false 1 true)
    = Some (sizeof_ODI + spec_entrySize (mkHeader Bar Device)).
Proof.
  assert (H3 : is_ULONG 1) by (unfold is_ULONG, ULONG_MAX; lia).
  assert (H4 : nth_error example_directory (Z.to_nat 1) = Some (mkHeader Bar Device))
    by reflexivity.
  assert (H5 : 53 < sizeof_ODI + spec_entrySize (mkHeader Bar Device))
    by (vm_compute; reflexivity).
  split; [exact quiet_example_env|]. split; [exact typed_example_directory|].
  split; [exact H3|]. split; [exact H4|]. split; [exact H5|].
  destruct (single_entry_too_small_can_be_retried example_env example_directory
              5000 53 1 true (mkHeader Bar Device)
              quiet_example_env typed_example_directory H3 H4 H5)
    as [[_ [_ [_ H]]] _].
  exact H.
Defined.

(** C5, as the code has it.  A multi-entry call whose first unconsumed
    member [h] does not fit returns STATUS_MORE_ENTRIES, not
    STATUS_BUFFER_TOO_SMALL, delivers no record, and writes the cursor back
    with the index of that member: the value the cursor had when the scan is
    continued, and 0 when it is restarted. *)
Theorem multi_entry_blocked_returns_more_entries env Directory Buffer BufferLength
    (RestartScan : bool) (Context : Z) (ReturnLength : bool) h :
  quiet env ->
  typed_directory Directory ->
  is_ULONG (if RestartScan then 0 else Context) ->
  nth_error Directory (Z.to_nat (if RestartScan then 0 else Context)) = Some h ->
  BufferLength < sizeof_ODI + spec_entrySize h ->
  ReturnStatus (query env Directory Buffer BufferLength false RestartScan
                  Context ReturnLength) = STATUS_MORE_ENTRIES /\
  BufferOut (query env Directory Buffer BufferLength false RestartScan
               Context ReturnLength) = None /\
  delivered Buffer (query env Directory Buffer BufferLength false RestartScan
                      Context ReturnLength) = [] /\
  ContextOut (query env Directory Buffer BufferLength false RestartScan
                Context ReturnLength)
    = Some (if RestartScan then 0 else Context).
Proof.
  intros Hq Hty Hk Hn Hfit. unfold query.
  rewrite (multi_entry_call_blocked env Directory Buffer BufferLength RestartScan
             Context ReturnLength h) by assumption.
  repeat split; reflexivity.
Qed.

Lemma multi_entry_blocked_returns_more_entries_witness :
  quiet example_env /\
  typed_directory example_directory /\
  is_ULONG 1 /\
  nth_error example_directory (Z.to_nat 1) = Some (mkHeader Bar Device) /\
  53 < sizeof_ODI + spec_entrySize (mkHeader Bar Device) /\
  ContextOut (query example_env example_directory 5000 53 false false 1 true)
    = Some 1.
Proof.
  assert (H3 : is_ULONG 1) by (unfold is_ULONG, ULONG_MAX; lia).
  assert (H4 : nth_error example_directory (Z.to_nat 1) = Some (mkHeader Bar Device))
    by reflexivity.
  assert (H5 : 53 < sizeof_ODI + spec_entrySize (mkHeader Bar Device))
    by (vm_compute; reflexivity).
  split; [exact quiet_example_env|]. split; [exact typed_example_directory|].
  split; [exact H3|]. split; [exact H4|]. split; [exact H5|].
  destruct (multi_entry_blocked_returns_more_entries example_env example_directory
              5000 53 false 1 true (mkHeader Bar Device)
              quiet_example_env typed_example_directory H3 H4 H5)
    as [_ [_ [_ H]]].
  exact H.
Defined.

(** C5 as stated fails when the scan is restarted: the first member does
    not fit in 10 bytes, the call returns STATUS_MORE_ENTRIES, and the
    cursor, 5 before the call, is written back as 0. *)
Lemma multi_entry_blocked_restart_resets_cursor :
  nth_error example_directory 0 = Some (mkHeader Foo Device) /\
  10 < sizeof_ODI + spec_entrySize (mkHeader Foo Device) /\
  ReturnStatus (query example_env example_directory 5000 10 false true 5 true)
    = STATUS_MORE_ENTRIES /\
  ContextOut (query example_env example_directory 5000 10 false true 5 true)
    = Some 0 /\
  ContextOut (query example_env example_directory 5000 10 false true 5 true)
    <> Some 5.
Proof. repeat split. discriminate. Qed.

(* ===================================================================== *)
(** ** The shape of the traces *)

Lemma query_trace_eq env Directory Buffer BufferLength
    (ReturnSingleEntry RestartScan : bool) (Context : Z) (ReturnLength : bool) :
  query_trace env Directory Buffer BufferLength ReturnSingleEntry RestartScan
    Context ReturnLength =
  let c := capture env RestartScan Context ReturnLength in
  trace c ++
  match value c with
  | Escapes _ => []
  | Returns v =>
    if match PreviousMode env with
       | UserMode => negb (NT_SUCCESS (fst v))
       | KernelMode => false
       end
    then []
    else
      EvObReferenceObjectByHandle (ReferenceStatus env) ::
      if NT_SUCCESS (ReferenceStatus env) then
        EvExAllocatePool BufferLength (PoolAvailable env) ::
        if PoolAvailable env
        then locked_part env Directory Buffer BufferLength ReturnSingleEntry
               (snd v) ReturnLength
        else []
      else []
  end.
Proof.
  unfold query_trace, NtQueryDirectoryObject, locked_part. cbn zeta. eff.
  f_equal.
  destruct (value (capture env RestartScan Context ReturnLength)) as [v|e];
    [|reflexivity].
  destruct (match PreviousMode env with
            | UserMode => _ | KernelMode => false end); [reflexivity|].
  eff. cbn [app]. f_equal.
  destruct (NT_SUCCESS (ReferenceStatus env)); [|reflexivity].
  eff. cbn [app]. f_equal.
  destruct (PoolAvailable env); [|reflexivity].
  eff. cbn [app]. do 2 f_equal.
  cbn [app]. do 5 f_equal.
  destruct (_ || _); reflexivity.
Qed.

Lemma capture_probing env RestartScan Context ReturnLength :
  forallb probing (trace (capture env RestartScan Context ReturnLength)) = true.
Proof.
  unfold capture, probe_block, probe_ReturnLength.
  destruct (PreviousMode env), RestartScan, ReturnLength,
    (probe_faults_at (ProbeFault env) AtProbeBuffer),
    (probe_faults_at (ProbeFault env) AtProbeContext),
    (probe_faults_at (ProbeFault env) AtReadContext),
    (probe_faults_at (ProbeFault env) AtProbeReturnLength); reflexivity.
Qed.

Lemma scan_entry_resident BufferLength single h l :
  forallb resident (trace (scan_entry BufferLength single h l)) = true.
Proof.
  unfold scan_entry.
  destruct (SkipEntries l =? 0); [|reflexivity].
  eff. destruct (_ <=? _); reflexivity.
Qed.

Lemma scan_list_resident BufferLength single : forall entries l,
  forallb resident (trace (scan_list BufferLength single entries l)) = true.
Proof.
  induction entries as [|h rest IH]; intros l; [reflexivity|].
  cbn [scan_list]. eff. rewrite forallb_app, scan_entry_resident.
  destruct (snd (value (scan_entry BufferLength single h l))); [reflexivity|].
  eff. cbn [app forallb resident andb]. apply IH.
Qed.

Lemma pack_string_resident mem base slot s p :
  forallb resident (trace (pack_string mem base slot s p)) = true.
Proof. reflexivity. Qed.

Lemma pack_entries_resident mem base : forall slots slot p,
  forallb resident (trace (pack_entries mem base slot slots p)) = true.
Proof.
  induction slots as [|d rest IH]; intros slot p; [reflexivity|].
  cbn [pack_entries]. eff. unfold pack_entry. eff.
  rewrite !forallb_app, IH, pack_string_resident.
  destruct (Length (ObjectName d) >? 0); reflexivity.
Qed.

Lemma compact_resident mem Buffer l St :
  forallb resident (trace (compact mem Buffer l St)) = true.
Proof.
  unfold compact. destruct (_ && _); [|reflexivity].
  eff. rewrite !forallb_app, pack_entries_resident. reflexivity.
Qed.

Lemma deliver_writes_caller env St CopyBytes tmp NextEntry RequiredSize ReturnLength :
  forallb writes_caller
    (trace (deliver env St CopyBytes tmp NextEntry RequiredSize ReturnLength)) = true.
Proof.
  unfold deliver.
  destruct (copy_fault (DeliverFault env) CopyBytes) as [[stored c]|];
    [destruct (stored =? 0); reflexivity|].
  destruct (CopyBytes =? 0), ReturnLength,
    (faults_at (DeliverFault env) AtWriteContext),
    (faults_at (DeliverFault env) AtWriteReturnLength); reflexivity.
Qed.

(* ===================================================================== *)
(** ** The lock along a trace *)

Lemma disciplined_app st t1 t2 :
  disciplined st (t1 ++ t2) =
  disciplined st t1 && disciplined (fold_left lock_step t1 st) t2.
Proof.
  revert st. induction t1 as [|e t1 IH]; intros st; [reflexivity|].
  cbn [app disciplined fold_left]. rewrite IH, andb_assoc. reflexivity.
Qed.

Lemma disciplined_allows t : forall st t1 e t2,
  disciplined st t = true -> t = t1 ++ e :: t2 ->
  lock_allows (fold_left lock_step t1 st) e = true.
Proof.
  intros st t1 e t2 H ->. rewrite disciplined_app in H.
  apply andb_prop in H. destruct H as [_ H]. cbn [disciplined] in H.
  apply andb_prop in H. tauto.
Qed.

Lemma probing_keeps_lock t : forall st,
  forallb probing t = true ->
  st <> Held ->
  disciplined st t = true /\ fold_left lock_step t st = st.
Proof.
  induction t as [|e t IH]; intros st H Hst; [split; reflexivity|].
  cbn [forallb] in H. apply andb_prop in H. destruct H as [He Ht].
  cbn [disciplined fold_left].
  assert (lock_step st e = st /\ lock_allows st e = true) as [-> ->].
  { destruct e as [r|r| | | | | | | | | |]; try discriminate;
      try (destruct r; try discriminate); destruct st; try contradiction;
      split; reflexivity. }
  apply IH; assumption.
Qed.

Lemma resident_under_lock t :
  forallb resident t = true ->
  disciplined Held t = true /\ fold_left lock_step t Held = Held.
Proof.
  induction t as [|e t IH]; intros H; [split; reflexivity|].
  cbn [forallb] in H. apply andb_prop in H. destruct H as [He Ht].
  cbn [disciplined fold_left].
  assert (lock_step Held e = Held /\ lock_allows Held e = true) as [-> ->].
  { destruct e as [r|r|r ? ?| | | | | | | | |]; try discriminate;
      destruct r; try discriminate; split; reflexivity. }
  apply IH; assumption.
Qed.

Lemma writes_after_release t :
  forallb writes_caller t = true ->
  disciplined Released t = true /\ fold_left lock_step t Released = Released.
Proof.
  induction t as [|e t IH]; intros H; [split; reflexivity|].
  cbn [forallb] in H. apply andb_prop in H. destruct H as [He Ht].
  cbn [disciplined fold_left].
  assert (lock_step Released e = Released /\ lock_allows Released e = true) as [-> ->].
  { destruct e as [r|r|r ? ?| | | | | | | | |]; try discriminate;
      destruct r; try discriminate; split; reflexivity. }
  apply IH; assumption.
Qed.

Lemma locked_part_disciplined env Directory Buffer BufferLength single skip0 RL :
  disciplined NeverTaken
    (locked_part env Directory Buffer BufferLength single skip0 RL) = true.
Proof.
  unfold locked_part. cbn zeta. cbn [app disciplined lock_allows lock_step
    writes_caller resident andb].
  rewrite !disciplined_app.
  match goal with |- context [trace (scan_list ?a ?b ?c ?d)] =>
    destruct (resident_under_lock _ (scan_list_resident a b c d)) as [-> ->] end.
  match goal with |- context [trace (compact ?a ?b ?c ?d)] =>
    destruct (resident_under_lock _ (compact_resident a b c d)) as [-> ->] end.
  cbn [app disciplined lock_allows lock_step writes_caller resident andb fold_left].
  rewrite disciplined_app.
  match goal with |- context [if ?c then trace (deliver ?a ?b ?d ?e ?f ?g ?h) else []] =>
    assert (Hw : forallb writes_caller
                   (if c then trace (deliver a b d e f g h) else []) = true)
      by (destruct c; [apply deliver_writes_caller | reflexivity]);
    destruct (writes_after_release _ Hw) as [-> ->] end.
  reflexivity.
Qed.

(** Every call keeps the discipline of the lock. *)
Lemma query_disciplined env Directory Buffer BufferLength
    (ReturnSingleEntry RestartScan : bool) (Context : Z) (ReturnLength : bool) :
  disciplined NeverTaken
    (query_trace env Directory Buffer BufferLength ReturnSingleEntry RestartScan
       Context ReturnLength) = true.
Proof.
  rewrite query_trace_eq. cbn zeta. rewrite disciplined_app.
  destruct (probing_keeps_lock _ NeverTaken
              (capture_probing env RestartScan Context ReturnLength)
              ltac:(discriminate)) as [-> ->].
  cbn [andb].
  destruct (value (capture env _ Context ReturnLength)) as [v|esc];
    [|reflexivity].
  destruct (match PreviousMode env with
            | UserMode => _ | KernelMode => false end); [reflexivity|].
  cbn [disciplined lock_allows lock_step writes_caller andb].
  destruct (NT_SUCCESS (ReferenceStatus env)); [|reflexivity].
  cbn [disciplined lock_allows lock_step writes_caller andb].
  destruct (PoolAvailable env); [|reflexivity].
  apply locked_part_disciplined.
Qed.

(* ===================================================================== *)
(** ** Caller memory and the spin lock *)

(** C6, as the code has it.  In every call, each write through the caller's
    [Buffer], [Context] and [ReturnLength] comes when the directory's spin
    lock has been taken and released; and each event that comes while the
    lock is held is the release itself, an access to what the claim lists
    (the directory's list linkage, the entries' size fields and string
    descriptors, the scratch buffer), or a read of the characters of a
    member's string, which the claim does not list. *)
Theorem caller_memory_untouched_under_lock env Directory Buffer BufferLength
    (ReturnSingleEntry RestartScan : bool) (Context : Z) (ReturnLength : bool) :
  forall t1 e t2,
    query_trace env Directory Buffer BufferLength ReturnSingleEntry RestartScan
      Context ReturnLength = t1 ++ e :: t2 ->
    (writes_caller e = true -> lock_after t1 = Released) /\
    (lock_after t1 = Held ->
     e = EvKeReleaseSpinLock \/ claimed_resident e = true \/
     e = EvRead EntryCharacters).
Proof.
  intros t1 e t2 Ht.
  pose proof (disciplined_allows _ NeverTaken t1 e t2
                (query_disciplined env Directory Buffer BufferLength
                   ReturnSingleEntry RestartScan Context ReturnLength) Ht) as H.
  fold (lock_after t1) in H. unfold lock_allows in H.
  apply andb_prop in H. destruct H as [Hw Hh]. split.
  - intros He. rewrite He in Hw. destruct (lock_after t1); congruence.
  - intros Hl. rewrite Hl in Hh.
    destruct e as [r|r|r ? ?| | | | | | | | |]; auto;
      destruct r; cbn in Hh; auto; discriminate.
Qed.

(* ===================================================================== *)
(** ** The reference on the directory *)

Lemma references_app t1 t2 : references (t1 ++ t2) = references t1 + references t2.
Proof.
  induction t1 as [|e t1 IH]; [reflexivity|].
  cbn [app references]. destruct e; rewrite IH; lia.
Qed.

Lemma dereferences_app t1 t2 :
  dereferences (t1 ++ t2) = (dereferences t1 + dereferences t2)%nat.
Proof.
  induction t1 as [|e t1 IH]; [reflexivity|].
  cbn [app dereferences]. destruct e; rewrite IH; lia.
Qed.

Lemma no_reference_event (P : Event -> bool) t :
  (forall e, P e = true ->
     match e with
     | EvObReferenceObjectByHandle _ | EvObDereferenceObject => False
     | _ => True
     end) ->
  forallb P t = true -> references t = 0 /\ dereferences t = 0%nat.
Proof.
  intros HP. induction t as [|e t IH]; intros H; [split; reflexivity|].
  cbn [forallb] in H. apply andb_prop in H. destruct H as [He Ht].
  specialize (HP e He). destruct (IH Ht) as [IH1 IH2].
  destruct e; try contradiction; cbn [references dereferences]; split; assumption.
Qed.

Lemma probing_no_reference t :
  forallb probing t = true -> references t = 0 /\ dereferences t = 0%nat.
Proof. apply no_reference_event. intros e; destruct e; cbn; auto; discriminate. Qed.

Lemma resident_no_reference t :
  forallb resident t = true -> references t = 0 /\ dereferences t = 0%nat.
Proof. apply no_reference_event. intros e; destruct e; cbn; auto; discriminate. Qed.

Lemma writes_no_reference t :
  forallb writes_caller t = true -> references t = 0 /\ dereferences t = 0%nat.
Proof. apply no_reference_event. intros e; destruct e; cbn; auto; discriminate. Qed.

(** Once the lock is taken the call drops one reference. *)
Lemma locked_part_references env Directory Buffer BufferLength single skip0 RL :
  references (locked_part env Directory Buffer BufferLength single skip0 RL) = -1 /\
  dereferences (locked_part env Directory Buffer BufferLength single skip0 RL) = 1%nat.
Proof.
  unfold locked_part. cbn zeta.
  rewrite !references_app, !dereferences_app.
  match goal with |- context [trace (scan_list ?a ?b ?c ?d)] =>
    destruct (resident_no_reference _ (scan_list_resident a b c d)) as [-> ->] end.
  match goal with |- context [trace (compact ?a ?b ?c ?d)] =>
    destruct (resident_no_reference _ (compact_resident a b c d)) as [-> ->] end.
  match goal with |- context [if ?c then trace (deliver ?a ?b ?d ?e ?f ?g ?h) else []] =>
    assert (Hw : forallb writes_caller
                   (if c then trace (deliver a b d e f g h) else []) = true)
      by (destruct c; [apply deliver_writes_caller | reflexivity]);
    destruct (writes_no_reference _ Hw) as [-> ->] end.
  split; reflexivity.
Qed.

(** Where the scratch buffer is allocated, the reference taken on the
    directory is dropped before the call returns. *)
Lemma reference_released_when_pool_available env Directory Buffer BufferLength
    (ReturnSingleEntry RestartScan : bool) (Context : Z) (ReturnLength : bool) :
  PoolAvailable env = true ->
  references (query_trace env Directory Buffer BufferLength ReturnSingleEntry
                RestartScan Context ReturnLength) = 0.
Proof.
  intros Ha. rewrite query_trace_eq. cbn zeta. rewrite references_app.
  destruct (probing_no_reference _ (capture_probing env RestartScan Context ReturnLength))
    as [-> _].
  destruct (value (capture env _ Context ReturnLength)) as [v|esc];
    [|reflexivity].
  destruct (match PreviousMode env with
            | UserMode => _ | KernelMode => false end); [reflexivity|].
  cbn [references]. rewrite Ha.
  destruct (NT_SUCCESS (ReferenceStatus env)); [|reflexivity].
  cbn [references].
  destruct (locked_part_references env Directory Buffer BufferLength
              ReturnSingleEntry (snd v) ReturnLength) as [-> _].
  reflexivity.
Qed.

(** C1 fails on the path of line 387.  When the handle designates a
    directory and [ExAllocatePool] returns NULL, the call returns
    STATUS_INSUFFICIENT_RESOURCES without a call of [ObDereferenceObject]:
    the reference taken by [ObReferenceObjectByHandle] stays on the
    directory. *)
Theorem reference_leaks_when_pool_is_exhausted env Directory Buffer BufferLength
    (ReturnSingleEntry RestartScan : bool) (Context : Z) (ReturnLength : bool) :
  ProbeFault env = None ->
  NT_SUCCESS (ReferenceStatus env) = true ->
  PoolAvailable env = false ->
  ReturnStatus (query env Directory Buffer BufferLength ReturnSingleEntry
                  RestartScan Context ReturnLength)
    = STATUS_INSUFFICIENT_RESOURCES /\
  references (query_trace env Directory Buffer BufferLength ReturnSingleEntry
                RestartScan Context ReturnLength) = 1 /\
  dereferences (query_trace env Directory Buffer BufferLength ReturnSingleEntry
                  RestartScan Context ReturnLength) = 0%nat.
Proof.
  intros Hp Hr Ha. split.
  - unfold query, NtQueryDirectoryObject. eff.
    rewrite capture_quiet by exact Hp. cbn [fst snd].
    match goal with
    | |- context [match PreviousMode env with KernelMode => ?a | UserMode => ?b end] =>
        replace (match PreviousMode env with KernelMode => a | UserMode => b end)
          with false by (destruct (PreviousMode env); reflexivity)
    end.
    eff. rewrite Hr. eff. rewrite Ha. reflexivity.
  - rewrite query_trace_eq. cbn zeta.
    rewrite references_app, dereferences_app.
    destruct (probing_no_reference _
                (capture_probing env RestartScan Context ReturnLength)) as [-> ->].
    rewrite capture_quiet by exact Hp. cbn [fst snd].
    match goal with
    | |- context [match PreviousMode env with KernelMode => ?a | UserMode => ?b end] =>
        replace (match PreviousMode env with KernelMode => a | UserMode => b end)
          with false by (destruct (PreviousMode env); reflexivity)
    end.
    cbn [references dereferences]. rewrite Hr, Ha. split; reflexivity.
Qed.

Lemma reference_leaks_when_pool_is_exhausted_witness :
  ProbeFault exhausted_pool_env = None /\
  NT_SUCCESS (ReferenceStatus exhausted_pool_env) = true /\
  PoolAvailable exhausted_pool_env = false /\
  references (query_trace exhausted_pool_env example_directory 5000 64
                false true 0 true) = 1.
Proof.
  split; [reflexivity|]. split; [reflexivity|]. split; [reflexivity|].
  exact (proj1 (proj2
    (reference_leaks_when_pool_is_exhausted exhausted_pool_env example_directory
       5000 64 false true 0 true eq_refl eq_refl eq_refl))).
Defined.

(* ===================================================================== *)
(** ** The creation of a directory *)

(** C9.  Where [ObCreateObject] has succeeded: if [ObInsertObject] fails,
    the trace ends with the insertion, [ObMakeTemporaryObject] and
    [ObDereferenceObject], in this order, and no handle is written; in
    both cases one reference is dropped, after the insertion and none
    before; and a handle is written through [DirectoryHandle] only when the
    insertion has succeeded. *)
Theorem creation_drops_its_reference env :
  handle_probed env ->
  NT_SUCCESS (CreateStatus env) = true ->
  (NT_SUCCESS (InsertStatus env) = false ->
   exists t1,
     trace (NtCreateDirectoryObject env) =
     t1 ++ [EvObInsertObject (InsertStatus env); EvObMakeTemporaryObject;
            EvObDereferenceObject]) /\
  (exists t1 t2,
     trace (NtCreateDirectoryObject env) =
     t1 ++ EvObInsertObject (InsertStatus env) :: t2 /\
     dereferences t1 = 0%nat /\ dereferences t2 = 1%nat) /\
  (forall h, HandleOut (value (NtCreateDirectoryObject env)) = Some h ->
     NT_SUCCESS (InsertStatus env) = true /\ h = hDirectory env /\
     CreateReturn (value (NtCreateDirectoryObject env)) = InsertStatus env) /\
  (In (EvWrite CallerHandle 0 4) (trace (NtCreateDirectoryObject env)) ->
   NT_SUCCESS (InsertStatus env) = true).
Proof.
  intros Hp Hc.
  assert (E : NtCreateDirectoryObject env =
    ((if NT_SUCCESS (InsertStatus env)
      then match HandleWriteFault env with
           | Some c => mkCreateOutcome c None
           | None => mkCreateOutcome (InsertStatus env) (Some (hDirectory env))
           end
      else mkCreateOutcome (InsertStatus env) None),
     (match CreatorMode env with UserMode => [EvProbe CallerHandle] | KernelMode => [] end)
     ++ EvObCreateObject (CreateStatus env)
     :: EvObInsertObject (InsertStatus env)
     :: (if NT_SUCCESS (InsertStatus env) then [] else [EvObMakeTemporaryObject])
     ++ EvObDereferenceObject
     :: (if NT_SUCCESS (InsertStatus env)
         then match HandleWriteFault env with
              | Some _ => []
              | None => [EvWrite CallerHandle 0 4]
              end
         else []))).
  { unfold NtCreateDirectoryObject. rewrite Hc.
    destruct Hp as [Hp|Hp]; rewrite Hp;
      destruct (CreatorMode env), (NT_SUCCESS (InsertStatus env)),
        (HandleWriteFault env); reflexivity. }
  rewrite E. unfold trace, value. cbn [fst snd]. repeat split.
  - intros Hi. rewrite Hi. cbn [app].
    exists ((match CreatorMode env with
             | UserMode => [EvProbe CallerHandle] | KernelMode => [] end)
            ++ [EvObCreateObject (CreateStatus env)]).
    rewrite <- app_assoc. reflexivity.
  - exists ((match CreatorMode env with
             | UserMode => [EvProbe CallerHandle] | KernelMode => [] end)
            ++ [EvObCreateObject (CreateStatus env)]).
    eexists. split; [rewrite <- app_assoc; reflexivity|].
    split.
    + destruct (CreatorMode env); reflexivity.
    + destruct (NT_SUCCESS (InsertStatus env)), (HandleWriteFault env); reflexivity.
  - destruct (NT_SUCCESS (InsertStatus env)); [reflexivity|].
    cbn [HandleOut] in H. discriminate.
  - destruct (NT_SUCCESS (InsertStatus env)), (HandleWriteFault env);
      cbn [HandleOut] in H; congruence.
  - destruct (NT_SUCCESS (InsertStatus env)), (HandleWriteFault env);
      cbn [HandleOut CreateReturn] in *; congruence.
  - intros Hin. destruct (NT_SUCCESS (InsertStatus env)); [reflexivity|].
    exfalso. destruct (CreatorMode env); cbn in Hin;
      repeat (destruct Hin as [Hin|Hin]; [discriminate|]); exact Hin.
Qed.

Lemma creation_drops_its_reference_witness :
  handle_probed collision_env /\
  NT_SUCCESS (CreateStatus collision_env) = true /\
  exists t1,
    trace (NtCreateDirectoryObject collision_env) =
    t1 ++ [EvObInsertObject (InsertStatus collision_env); EvObMakeTemporaryObject;
           EvObDereferenceObject].
Proof.
  assert (H1 : handle_probed collision_env) by (right; reflexivity).
  split; [exact H1|]. split; [reflexivity|].
  exact (proj1 (creation_drops_its_reference collision_env H1 eq_refl) eq_refl).
Defined.

Lemma caller_memory_untouched_under_lock_witness :
  query_trace example_env example_directory 5000 128 false true 0 true =
    firstn 34 (query_trace example_env example_directory 5000 128 false true 0 true)
    ++ EvWrite CallerBuffer 0 92
    :: skipn 35 (query_trace example_env example_directory 5000 128 false true 0 true) /\
  writes_caller (EvWrite CallerBuffer 0 92) = true /\
  lock_after
    (firstn 34 (query_trace example_env example_directory 5000 128 false true 0 true))
    = Released.
Proof.
  assert (H : query_trace example_env example_directory 5000 128 false true 0 true =
    firstn 34 (query_trace example_env example_directory 5000 128 false true 0 true)
    ++ EvWrite CallerBuffer 0 92
    :: skipn 35 (query_trace example_env example_directory 5000 128 false true 0 true))
    by reflexivity.
  split; [exact H|]. split; [reflexivity|].
  exact (proj1 (caller_memory_untouched_under_lock example_env example_directory
                  5000 128 false true 0 true _ _ _ H) eq_refl).
Defined.

(** C6 as the claim words it fails on the copy of lines 322-324: in the call
    that delivers the two members of the example directory, the sixteenth
    event is the read of the characters of "Foo"; the lock is held, and the
    characters of a member's string are not among the directory's list
    linkage, the entries' size fields and string descriptors, and the
    scratch buffer. *)
Lemma string_characters_are_read_under_lock :
  query_trace example_env example_directory 5000 128 false true 0 true =
    firstn 15 (query_trace example_env example_directory 5000 128 false true 0 true)
    ++ EvRead EntryCharacters
    :: skipn 16 (query_trace example_env example_directory 5000 128 false true 0 true) /\
  lock_after
    (firstn 15 (query_trace example_env example_directory 5000 128 false true 0 true))
    = Held /\
  claimed_resident (EvRead EntryCharacters) = false /\
  EvRead EntryCharacters <> EvKeReleaseSpinLock.
Proof.
  split; [reflexivity|]. split; [reflexivity|]. split; [reflexivity|].
  discriminate.
Qed.

(* ===================================================================== *)
(** ** Which members a scan stages *)

(** A scan stages a run of members that starts at the cursor, and moves
    the cursor behind it. *)
Lemma spec_scan_shape BufferLength single entries s :
  0 <= skip s ->
  exists j : nat,
    (j <= length (skipn (Z.to_nat (skip s)) entries))%nat /\
    staged (spec_scan BufferLength single entries s)
      = staged s ++ firstn j (skipn (Z.to_nat (skip s)) entries) /\
    consumed (spec_scan BufferLength single entries s)
      = consumed s + Z.of_nat (Nat.min (Z.to_nat (skip s)) (length entries))
        + Z.of_nat j.
Proof.
  intros Hs. rewrite spec_scan_skip by exact Hs.
  destruct (Nat.leb_spec (length entries) (Z.to_nat (skip s))) as [Hle|Hlt].
  - exists 0%nat. cbn [staged consumed firstn]. rewrite app_nil_r.
    repeat split; lia.
  - set (rest := skipn (Z.to_nat (skip s)) entries).
    replace (Nat.min (Z.to_nat (skip s)) (length entries)) with (Z.to_nat (skip s)) by lia.
    destruct single.
    + destruct rest as [|h tl] eqn:E.
      * exists 0%nat. cbn. rewrite app_nil_r. repeat split; lia.
      * rewrite spec_scan_single by reflexivity.
        cbn [runningRequired consumed staged].
        destruct (_ <=? _).
        -- exists 1%nat. cbn [staged consumed firstn length]. repeat split; lia.
        -- exists 0%nat. cbn [staged consumed firstn length]. rewrite app_nil_r.
           repeat split; lia.
    + rewrite spec_scan_multi by reflexivity.
      cbn [runningRequired consumed staged].
      exists (fit_count BufferLength (runningRequired s) rest).
      repeat split; [apply fit_count_le | lia].
Qed.

(** On whole strings the records are the ones the specification
    describes. *)
Lemma layout_records mem : forall members p,
  Forall typed_header members -> Forall whole_header members ->
  fst (layout mem p (map staged_record members)) = spec_records p members.
Proof.
  induction members as [|h rest IH]; intros p Hty Hwh; [reflexivity|].
  inversion Hty as [|? ? [Hn Ht] Hrest]; subst.
  inversion Hwh as [|? ? [Wn Wt] Wrest]; subst.
  cbn [map layout fst spec_records].
  pose proof Hn as [[Hn0 Hn1] Hn2]. pose proof Ht as [[Ht0 Ht1] Ht2].
  assert (Et : Z.of_nat (length (packed mem (ObjectTypeName (staged_record h))))
               = Length (TypeName h) + 2).
  { cbn [staged_record ObjectTypeName]. rewrite packed_whole by assumption.
    rewrite length_app, length_chars. cbn [wide_null length]. lia. }
  rewrite Et, IH by assumption. clear Et IH.
  unfold staged_record. cbn [ObjectName ObjectTypeName].
  destruct (Z.eqb_spec (Length (Name h)) 0) as [E|E].
  - cbn [Length Z.gtb Z.compare length Z.of_nat]. reflexivity.
  - destruct (Z.gtb_spec (Length (Name h)) 0); [|lia].
    rewrite packed_whole by assumption.
    rewrite length_app, length_chars. cbn [wide_null length].
    replace (Z.of_nat (Z.to_nat (Length (Name h)) + 2)) with (Length (Name h) + 2) by lia.
    reflexivity.
Qed.

Lemma output_of_spec mem Buffer members :
  Forall typed_header members -> Forall whole_header members ->
  output_of mem Buffer members =
  (spec_records (Buffer + sizeof_ODI * (Z.of_nat (length members) + 1)) members
   ++ [zero_ODI],
   spec_heap mem members).
Proof.
  intros Hty Hwh. unfold output_of. cbn zeta.
  rewrite layout_records, layout_heap by assumption.
  replace (sizeof_ODI * Z.of_nat (length members) + sizeof_ODI)
    with (sizeof_ODI * (Z.of_nat (length members) + 1)) by zlia.
  reflexivity.
Qed.

(* ===================================================================== *)
(** ** The copy into the caller's buffer *)

Lemma buffer_writes_app t1 t2 :
  buffer_writes (t1 ++ t2) = buffer_writes t1 ++ buffer_writes t2.
Proof.
  induction t1 as [|e t1 IH]; [reflexivity|].
  cbn [app buffer_writes].
  destruct e as [|?|r ? ?| | | | | | | | |]; try exact IH.
  destruct r; cbn [app]; rewrite IH; reflexivity.
Qed.

Lemma no_buffer_write (P : Event -> bool) t :
  (forall off len, P (EvWrite CallerBuffer off len) = false) ->
  forallb P t = true -> buffer_writes t = [].
Proof.
  intros HP. induction t as [|e t IH]; intros H; [reflexivity|].
  cbn [forallb] in H. apply andb_prop in H. destruct H as [He Ht].
  cbn [buffer_writes].
  destruct e as [|?|r ? ?| | | | | | | | |]; auto.
  destruct r; auto. rewrite HP in He. discriminate.
Qed.

Lemma deliver_trace_quiet env St CopyBytes tmp NextEntry RequiredSize (ReturnLength : bool) :
  DeliverFault env = None ->
  trace (deliver env St CopyBytes tmp NextEntry RequiredSize ReturnLength) =
  (if CopyBytes =? 0 then [] else [EvWrite CallerBuffer 0 CopyBytes])
  ++ EvWrite CallerContext 0 4
  :: (if ReturnLength then [EvWrite CallerReturnLength 0 4] else []).
Proof.
  intros H. unfold deliver. rewrite H. cbn [faults_at copy_fault].
  destruct (CopyBytes =? 0), ReturnLength; reflexivity.
Qed.

(** The call copies into the caller's buffer once, from its start, the
    bytes of the output, or not at all. *)
Lemma query_buffer_writes env Directory Buffer BufferLength
    (ReturnSingleEntry RestartScan : bool) (Context : Z) (ReturnLength : bool) :
  quiet env ->
  typed_directory Directory ->
  is_ULONG (if RestartScan then 0 else Context) ->
  ReturnSingleEntry = true \/ no_wrap BufferLength ->
  buffer_writes (query_trace env Directory Buffer BufferLength ReturnSingleEntry
                   RestartScan Context ReturnLength) =
  match BufferOut (query env Directory Buffer BufferLength ReturnSingleEntry
                     RestartScan Context ReturnLength) with
  | Some out => [(0, output_bytes out)]
  | None => []
  end.
Proof.
  intros Hq Hty Hk Hnw. pose proof Hq as (Hp & Hr & Ha & Hd).
  pose proof (wrap_free BufferLength ReturnSingleEntry Directory
                (if RestartScan then 0 else Context) Hnw) as Hnw'.
  unfold query. rewrite NtQueryDirectoryObject_quiet by assumption.
  rewrite query_trace_eq. cbn zeta. rewrite buffer_writes_app.
  rewrite (no_buffer_write probing _ ltac:(reflexivity)
             (capture_probing env RestartScan Context ReturnLength)).
  rewrite capture_quiet by exact Hp. cbn [fst snd app].
  match goal with
  | |- context [match PreviousMode env with KernelMode => ?a | UserMode => ?b end] =>
      replace (match PreviousMode env with KernelMode => a | UserMode => b end)
        with false by (destruct (PreviousMode env); reflexivity)
  end.
  rewrite Hr, Ha. cbn [buffer_writes]. unfold locked_part. cbn zeta.
  set (skip0 := if RestartScan then 0 else Context) in *.
  change (initial_locals skip0) with (locals_of (spec_start skip0)).
  destruct Hty as [Hty Hlen].
  rewrite scan_list_refines; [ | exact Hty | exact Hnw' | cbn; zlia .. ].
  set (s := spec_scan BufferLength ReturnSingleEntry Directory (spec_start skip0)) in *.
  cbn [fst snd locals_of Status NextEntry RequiredSize].
  change (if negb ReturnSingleEntry && negb (exhausted s)
          then STATUS_MORE_ENTRIES else status s)
    with (final_status ReturnSingleEntry s).
  pose proof (spec_scan_total BufferLength ReturnSingleEntry Directory
                (spec_start skip0) Hty) as Htot.
  fold s in Htot. cbn [spec_start runningRequired staged total_size fold_right] in Htot.
  assert (Hrr : runningRequired s <= ULONG_MAX).
  { destruct Hnw' as [Hs|Hs]; [|zlia].
    subst ReturnSingleEntry.
    pose proof (spec_scan_single_bound BufferLength Directory (spec_start skip0) Hty) as H.
    fold s in H. cbn [spec_start runningRequired] in H. zlia. }
  assert (Hst : Forall typed_header (staged s)).
  { apply spec_scan_staged_Forall; [exact Hty | constructor]. }
  change (mkLocals (skip s) (consumed s) (runningRequired s) (collected s)
            (status s) (map staged_record (staged s))) with (locals_of s).
  rewrite compact_value by (auto; zlia).
  cbn [buffer_writes app]. rewrite !buffer_writes_app.
  rewrite (no_buffer_write resident _ ltac:(reflexivity)
             (scan_list_resident BufferLength ReturnSingleEntry Directory
                (locals_of (spec_start skip0)))).
  rewrite (no_buffer_write resident _ ltac:(reflexivity)
             (compact_resident (KernelMemory env) Buffer (locals_of s)
                (final_status ReturnSingleEntry s))).
  cbn [app buffer_writes]. rewrite buffer_writes_app.
  cbn [buffer_writes]. rewrite app_nil_r.
  unfold outcome_of.
  destruct (NT_SUCCESS (final_status ReturnSingleEntry s) || ReturnSingleEntry).
  - rewrite deliver_trace_quiet by exact Hd. cbn [BufferOut].
    destruct (NT_SUCCESS (final_status ReturnSingleEntry s) && (collected s >? 0)).
    + cbn [fst snd].
      pose proof (output_bytes_pos (KernelMemory env) Buffer (staged s)).
      destruct (Z.eqb_spec (output_bytes (output_of (KernelMemory env) Buffer (staged s))) 0);
        [zlia|].
      destruct ReturnLength; reflexivity.
    + cbn [fst snd Z.eqb]. destruct ReturnLength; reflexivity.
  - reflexivity.
Qed.

Lemma whole_example_directory : Forall whole_header example_directory.
Proof. repeat constructor. Qed.

(* ===================================================================== *)
(** ** The layout of what is delivered *)

(** C8.  Whenever a call copies records out, for the n > 0 members it
    staged (a run of the directory's members that starts at the cursor):
    what is written to [Buffer] is n + 1 records, the last one all zeroes,
    followed at once (at byte sizeof(record) * (n + 1)) by the string area
    in which each name that is present and each type name is followed by
    one wide null; each descriptor points at its string in that area of
    the caller's buffer, so that reading through the descriptors gives the
    members' strings; and the bytes copied are those of the records plus
    those of the string area.  The members' strings hold whole wide
    characters; a multi-entry scan is taken in a buffer that leaves room
    for one entry below 2^32. *)
Theorem output_is_records_then_strings env Directory Buffer BufferLength
    (ReturnSingleEntry RestartScan : bool) (Context : Z) (ReturnLength : bool) out :
  quiet env ->
  typed_directory Directory ->
  Forall whole_header Directory ->
  is_ULONG (if RestartScan then 0 else Context) ->
  ReturnSingleEntry = true \/ no_wrap BufferLength ->
  BufferOut (query env Directory Buffer BufferLength ReturnSingleEntry
               RestartScan Context ReturnLength) = Some out ->
  exists members,
    members <> [] /\
    members = firstn (length members)
                (skipn (Z.to_nat (if RestartScan then 0 else Context)) Directory) /\
    fst out = spec_records
                (Buffer + sizeof_ODI * (Z.of_nat (length members) + 1)) members
              ++ [zero_ODI] /\
    snd out = spec_heap (KernelMemory env) members /\
    decode Buffer out = map (member_strings (KernelMemory env)) members /\
    buffer_writes (query_trace env Directory Buffer BufferLength ReturnSingleEntry
                     RestartScan Context ReturnLength)
    = [(0, sizeof_ODI * (Z.of_nat (length members) + 1)
           + Z.of_nat (length (spec_heap (KernelMemory env) members)))].
Proof.
  intros Hq Hty Hwh Hk Hnw Hout.
  pose proof (query_buffer_writes env Directory Buffer BufferLength ReturnSingleEntry
                RestartScan Context ReturnLength Hq Hty Hk Hnw) as Hbw.
  rewrite Hout in Hbw. rewrite Hbw. clear Hbw.
  unfold query in Hout.
  rewrite NtQueryDirectoryObject_quiet in Hout
    by (auto; apply wrap_free; exact Hnw).
  set (s := spec_scan BufferLength ReturnSingleEntry Directory
              (spec_start (if RestartScan then 0 else Context))) in *.
  unfold outcome_of in Hout.
  destruct (NT_SUCCESS (final_status ReturnSingleEntry s) || ReturnSingleEntry);
    [|discriminate].
  cbn [BufferOut] in Hout.
  destruct (NT_SUCCESS (final_status ReturnSingleEntry s) && (collected s >? 0)) eqn:E;
    [|discriminate].
  apply andb_prop in E. destruct E as [_ Hcol].
  inversion Hout as [Eout]. clear Hout.
  destruct Hty as [Hty Hlen].
  assert (Hst : Forall typed_header (staged s))
    by (apply spec_scan_staged_Forall; [exact Hty | constructor]).
  assert (Hsw : Forall whole_header (staged s))
    by (apply spec_scan_staged_Forall; [exact Hwh | constructor]).
  destruct (spec_scan_shape BufferLength ReturnSingleEntry Directory
              (spec_start (if RestartScan then 0 else Context)) (proj1 Hk))
    as (j & Hj & Hstaged & _).
  fold s in Hstaged. cbn [spec_start skip staged app] in Hj, Hstaged.
  exists (staged s).
  rewrite output_of_spec by assumption. cbn [fst snd].
  split; [|split; [|split; [|split; [|split]]]].
  - intros E. unfold collected in Hcol. rewrite E in Hcol. discriminate.
  - rewrite Hstaged at 2. rewrite Hstaged, length_firstn. f_equal. lia.
  - reflexivity.
  - reflexivity.
  - rewrite <- output_of_spec by assumption. apply decode_output; assumption.
  - unfold output_bytes. cbn [fst snd].
    rewrite length_app. cbn [length].
    assert (Hr : forall members p, length (spec_records p members) = length members).
    { induction members as [|h rest IH]; intros p; cbn; [reflexivity|].
      rewrite IH. reflexivity. }
    rewrite Hr. do 2 f_equal. lia.
Qed.

Lemma output_is_records_then_strings_witness :
  quiet example_env /\
  typed_directory example_directory /\
  Forall whole_header example_directory /\
  is_ULONG 0 /\
  no_wrap 128 /\
  BufferOut (query example_env example_directory 5000 128 false true 0 true)
    = Some (output_of example_memory 5000 example_directory) /\
  exists members,
    members <> [] /\
    members = firstn (length members) (skipn (Z.to_nat 0) example_directory) /\
    fst (output_of example_memory 5000 example_directory)
      = spec_records (5000 + sizeof_ODI * (Z.of_nat (length members) + 1)) members
        ++ [zero_ODI] /\
    snd (output_of example_memory 5000 example_directory)
      = spec_heap example_memory members /\
    decode 5000 (output_of example_memory 5000 example_directory)
      = map (member_strings example_memory) members /\
    buffer_writes (query_trace example_env example_directory 5000 128 false true 0 true)
    = [(0, sizeof_ODI * (Z.of_nat (length members) + 1)
           + Z.of_nat (length (spec_heap example_memory members)))].
Proof.
  assert (H4 : is_ULONG 0) by (unfold is_ULONG, ULONG_MAX; lia).
  assert (H5 : no_wrap 128)
    by (unfold no_wrap, MAX_ENTRY_SIZE, ULONG_MAX, sizeof_ODI, USHORT_MAX; lia).
  assert (H6 : BufferOut (query example_env example_directory 5000 128 false true 0 true)
               = Some (output_of example_memory 5000 example_directory))
    by reflexivity.
  split; [exact quiet_example_env|]. split; [exact typed_example_directory|].
  split; [exact whole_example_directory|]. split; [exact H4|]. split; [exact H5|].
  split; [exact H6|].
  exact (output_is_records_then_strings example_env example_directory 5000 128
           false true 0 true _ quiet_example_env typed_example_directory
           whole_example_directory H4 (or_intror H5) H6).
Defined.

(* ===================================================================== *)
(** ** The ways a scan can end *)

Lemma fit_count_zero BufferLength rr h tl :
  fit_count BufferLength rr (h :: tl) = 0%nat ->
  BufferLength < rr + spec_entrySize h.
Proof.
  cbn [fit_count]. destruct (Z.leb_spec (rr + spec_entrySize h) BufferLength);
    [discriminate|auto].
Qed.

(** A scan from the cursor [k] stages a run of [j] members that starts at
    the cursor.  It ends behind the last member, stopped by a member that
    does not fit, or with members staged. *)
Lemma spec_scan_cases BufferLength (single : bool) Directory k :
  0 <= k ->
  let s := spec_scan BufferLength single Directory (spec_start k) in
  let e := Nat.min (Z.to_nat k) (length Directory) in
  exists j : nat,
    (j <= length (skipn e Directory))%nat /\
    staged s = firstn j (skipn e Directory) /\
    consumed s = Z.of_nat e + Z.of_nat j /\
    ((j = 0%nat /\ exhausted s = true /\ status s = STATUS_NO_MORE_ENTRIES /\
      (length Directory <= Z.to_nat k)%nat)
     \/ (j = 0%nat /\ exhausted s = false /\
         status s = (if single then STATUS_BUFFER_TOO_SMALL
                     else STATUS_NO_MORE_ENTRIES))
     \/ ((0 < j)%nat /\ status s = STATUS_SUCCESS /\
         (single = true -> exhausted s = false))).
Proof.
  intros Hk s e. subst s.
  rewrite spec_scan_skip by (cbn; exact Hk).
  cbn [spec_start skip consumed runningRequired staged status].
  destruct (Nat.leb_spec (length Directory) (Z.to_nat k)) as [Hle|Hlt].
  - exists 0%nat. cbn [staged consumed exhausted status firstn].
    replace e with (length Directory) by lia.
    split; [lia|]. split; [reflexivity|]. split; [lia|].
    left. repeat split; auto.
  - replace e with (Z.to_nat k) by lia.
    set (rest := skipn (Z.to_nat k) Directory).
    assert (Hrest : rest <> []).
    { intros E. apply (f_equal (@length _)) in E. subst rest.
      rewrite length_skipn in E. cbn in E. lia. }
    destruct single.
    + destruct rest as [|h tl]; [contradiction|].
      rewrite spec_scan_single by reflexivity.
      cbn [runningRequired consumed staged app].
      destruct (_ <=? _).
      * exists 1%nat. cbn [staged consumed exhausted status firstn length].
        split; [lia|]. split; [reflexivity|]. split; [lia|].
        right. right. repeat split; auto.
      * exists 0%nat. cbn [staged consumed exhausted status firstn length].
        split; [lia|]. split; [reflexivity|]. split; [lia|].
        right. left. repeat split; auto.
    + rewrite spec_scan_multi by reflexivity.
      cbn [runningRequired consumed staged status app].
      set (j := fit_count BufferLength sizeof_ODI rest).
      exists j. cbn [staged consumed exhausted status].
      split; [apply fit_count_le|]. split; [reflexivity|]. split; [lia|].
      destruct j as [|j'] eqn:Ej.
      * right. left. repeat split.
        destruct rest; [contradiction|reflexivity].
      * right. right. repeat split; [lia|discriminate].
Qed.

(* ===================================================================== *)
(** ** One call of a scan *)

Lemma Forall_run {A} (P : A -> Prop) (l : list A) j e :
  Forall P l -> Forall P (firstn j (skipn e l)).
Proof.
  intros H.
  rewrite <- (firstn_skipn e l) in H. apply Forall_app in H. destruct H as [_ H].
  rewrite <- (firstn_skipn j (skipn e l)) in H. apply Forall_app in H. tauto.
Qed.

(** A call delivers the run of members that its scan staged, and leaves
    the cursor behind that run. *)
Lemma call_step Directory mem c (RestartScan : bool) (Context : Z) :
  typed_directory Directory ->
  Forall whole_header Directory ->
  sane_call mem c ->
  is_ULONG Context ->
  let o := query (call_env c) Directory (call_Buffer c) (call_BufferLength c)
             (call_ReturnSingleEntry c) RestartScan Context (call_ReturnLength c) in
  let e := Nat.min (Z.to_nat (if RestartScan then 0 else Context)) (length Directory) in
  exists j : nat,
    (j <= length (skipn e Directory))%nat /\
    delivered (call_Buffer c) o
      = map (member_strings mem) (firstn j (skipn e Directory)) /\
    is_ULONG (cursor_after Context o) /\
    Nat.min (Z.to_nat (cursor_after Context o)) (length Directory) = (e + j)%nat /\
    (ReturnStatus o = STATUS_NO_MORE_ENTRIES -> e = length Directory).
Proof.
  intros Hty Hwh (Hq & Hmem & Hnw) Hctx o e.
  assert (Hk : is_ULONG (if RestartScan then 0 else Context))
    by (destruct RestartScan; [zlia|exact Hctx]).
  subst o. unfold query.
  rewrite NtQueryDirectoryObject_quiet by (auto; apply wrap_free; exact Hnw).
  rewrite Hmem.
  destruct (spec_scan_cases (call_BufferLength c) (call_ReturnSingleEntry c)
              Directory (if RestartScan then 0 else Context) (proj1 Hk))
    as (j & Hj & Hst & Hcons & Hcase).
  fold e in Hj, Hst, Hcons.
  set (s := spec_scan (call_BufferLength c) (call_ReturnSingleEntry c) Directory
              (spec_start (if RestartScan then 0 else Context))) in *.
  assert (He : (e <= length Directory)%nat) by (subst e; lia).
  destruct Hty as [Hty Hlen].
  rewrite length_skipn in Hj.
  exists j. split; [rewrite length_skipn; exact Hj|].
  unfold outcome_of, final_status, delivered, cursor_after, collected.
  destruct Hcase as [(Hj0 & Hex & Hstat & Hpast) | [(Hj0 & Hex & Hstat) | (Hj0 & Hstat & Hex)]].
  - (* behind the last member *)
    subst j. rewrite Hex, Hstat, Hst, Hcons. cbn [firstn map length Z.of_nat].
    rewrite andb_false_r.
    change (NT_SUCCESS STATUS_NO_MORE_ENTRIES) with false. cbn [orb andb].
    assert (Ee : e = length Directory) by (subst e; lia).
    destruct (call_ReturnSingleEntry c); cbn [BufferOut ContextOut ReturnStatus failed].
    + repeat split; auto; try zlia.
    + repeat split; auto; try zlia.
      destruct RestartScan; subst e; lia.
  - (* stopped by a member that does not fit *)
    subst j. rewrite Hex, Hstat, Hst, Hcons. cbn [firstn map length Z.of_nat negb].
    destruct (call_ReturnSingleEntry c);
      cbn [negb andb orb];
      [change (NT_SUCCESS STATUS_BUFFER_TOO_SMALL) with false
      |change (NT_SUCCESS STATUS_MORE_ENTRIES) with true];
      cbn [negb andb orb BufferOut ContextOut ReturnStatus];
      repeat split; auto; try zlia; try discriminate.
  - (* members staged *)
    rewrite Hstat, Hst, Hcons.
    assert (Hlenj : length (firstn j (skipn e Directory)) = j)
      by (rewrite length_firstn, length_skipn; lia).
    rewrite Hlenj.
    assert (Hfs : NT_SUCCESS (if negb (call_ReturnSingleEntry c) && negb (exhausted s)
                              then STATUS_MORE_ENTRIES else STATUS_SUCCESS) = true)
      by (destruct (negb (call_ReturnSingleEntry c) && negb (exhausted s)); reflexivity).
    rewrite Hfs. cbn [orb andb].
    destruct (Z.gtb_spec (Z.of_nat j) 0); [|lia].
    cbn [BufferOut ContextOut ReturnStatus].
    rewrite decode_output by (apply Forall_run; assumption).
    repeat split; auto; try zlia.
    destruct (negb (call_ReturnSingleEntry c) && negb (exhausted s)); discriminate.
Qed.

(* ===================================================================== *)
(** ** A scan over several calls *)

Lemma firstn_run {A} (l : list A) j m :
  (j <= length l)%nat ->
  firstn j l ++ firstn m (skipn j l) = firstn (j + m) l.
Proof.
  revert j. induction l as [|a l IH]; intros j Hj.
  - cbn in Hj. replace j with 0%nat by lia. rewrite skipn_nil, !firstn_nil. reflexivity.
  - destruct j as [|j]; [reflexivity|].
    cbn [firstn skipn app Nat.add]. f_equal. apply IH. cbn in Hj. lia.
Qed.

(** The calls of a scan deliver one run of members that starts where the
    first call starts, and the whole rest of the directory once a call has
    answered that there are no more entries. *)
Lemma enumerate_run Directory mem :
  typed_directory Directory ->
  Forall whole_header Directory ->
  forall calls (RestartScan : bool) (Context : Z),
    Forall (sane_call mem) calls ->
    is_ULONG Context ->
    let e := Nat.min (Z.to_nat (if RestartScan then 0 else Context)) (length Directory) in
    let outs := fst (enumerate Directory RestartScan Context calls) in
    (exists m : nat,
       all_delivered outs = map (member_strings mem) (firstn m (skipn e Directory))) /\
    (Exists (fun bo => ReturnStatus (snd bo) = STATUS_NO_MORE_ENTRIES) outs ->
     all_delivered outs = map (member_strings mem) (skipn e Directory)).
Proof.
  intros Hty Hwh. induction calls as [|c rest IH]; intros RestartScan Context Hs Hctx e outs.
  - subst outs. cbn. split.
    + exists 0%nat. reflexivity.
    + intros H. inversion H.
  - inversion Hs as [|? ? Hc Hrest]; subst.
    destruct (call_step Directory mem c RestartScan Context Hty Hwh Hc Hctx)
      as (j & Hj & Hdel & Hctx' & Hmin & Hend).
    fold e in Hj, Hdel, Hmin, Hend.
    subst outs. cbn [enumerate fst all_delivered flat_map snd].
    set (o := query (call_env c) Directory (call_Buffer c) (call_BufferLength c)
                (call_ReturnSingleEntry c) RestartScan Context (call_ReturnLength c)) in *.
    specialize (IH false (cursor_after Context o) Hrest Hctx').
    cbv beta iota zeta in IH. rewrite Hmin in IH.
    fold (all_delivered (fst (enumerate Directory false (cursor_after Context o) rest))).
    destruct IH as [[m Hm] IHend].
    replace (skipn (e + j) Directory) with (skipn j (skipn e Directory)) in *
      by (rewrite skipn_skipn; f_equal; lia).
    rewrite Hdel. split.
    + exists (j + m)%nat. rewrite Hm, <- map_app, firstn_run by exact Hj. reflexivity.
    + intros H. inversion H as [? ? Hnow | ? ? Hlater]; subst.
      * cbn [snd] in Hnow. specialize (Hend Hnow).
        rewrite Hm. rewrite skipn_all2 with (n := e) by lia.
        rewrite skipn_nil, !firstn_nil. reflexivity.
      * rewrite (IHend Hlater), <- map_app, firstn_skipn. reflexivity.
Qed.

(* ===================================================================== *)
(** ** Every member once *)

(** C3.  Over a directory that does not change, the calls of a scan, the
    first with RestartScan and the others without, each given the cursor
    as the call before left it, deliver the (name, type name) pairs of
    the directory's members in the directory's order, none twice and none
    passed over: what has been delivered is always a leading part of the
    list of members, and it is the whole list once a call has returned
    STATUS_NO_MORE_ENTRIES.  The calls are ones around which nothing fails,
    the members' strings hold whole wide characters, and a multi-entry call
    is made with a buffer that leaves room for one entry below 2^32. *)
Theorem scan_delivers_each_member_once Directory mem (Context : Z) calls :
  typed_directory Directory ->
  Forall whole_header Directory ->
  is_ULONG Context ->
  Forall (sane_call mem) calls ->
  (exists n : nat,
     all_delivered (fst (enumerate Directory true Context calls))
     = map (member_strings mem) (firstn n Directory)) /\
  (Exists (fun bo => ReturnStatus (snd bo) = STATUS_NO_MORE_ENTRIES)
          (fst (enumerate Directory true Context calls)) ->
   all_delivered (fst (enumerate Directory true Context calls))
   = map (member_strings mem) Directory).
Proof.
  intros Hty Hwh Hctx Hs.
  exact (enumerate_run Directory mem Hty Hwh calls true Context Hs Hctx).
Qed.

Lemma sane_example_calls : Forall (sane_call example_memory) example_calls.
Proof.
  repeat constructor;
    unfold no_wrap, MAX_ENTRY_SIZE, ULONG_MAX, sizeof_ODI, USHORT_MAX; cbn; lia.
Qed.

Lemma scan_delivers_each_member_once_witness :
  typed_directory example_directory /\
  Forall whole_header example_directory /\
  is_ULONG 7 /\
  Forall (sane_call example_memory) example_calls /\
  Exists (fun bo => ReturnStatus (snd bo) = STATUS_NO_MORE_ENTRIES)
         (fst (enumerate example_directory true 7 example_calls)) /\
  all_delivered (fst (enumerate example_directory true 7 example_calls))
  = map (member_strings example_memory) example_directory.
Proof.
  assert (H3 : is_ULONG 7) by (unfold is_ULONG, ULONG_MAX; lia).
  assert (H5 : Exists (fun bo => ReturnStatus (snd bo) = STATUS_NO_MORE_ENTRIES)
                 (fst (enumerate example_directory true 7 example_calls)))
    by (apply Exists_cons_tl, Exists_cons_tl, Exists_cons_hd; reflexivity).
  split; [exact typed_example_directory|]. split; [exact whole_example_directory|].
  split; [exact H3|]. split; [exact sane_example_calls|]. split; [exact H5|].
  exact (proj2 (scan_delivers_each_member_once example_directory example_memory 7
                  example_calls typed_example_directory whole_example_directory H3
                  sane_example_calls) H5).
Defined.

(* ===================================================================== *)
(** ** Where the writes go *)

Lemma value_pair {A} (a : A) (t : list Event) : value (a, t) = a.
Proof. reflexivity. Qed.

Lemma trace_pair {A} (a : A) (t : list Event) : trace (a, t) = t.
Proof. reflexivity. Qed.

(** One iteration of the loop, with its trace. *)
Lemma scan_entry_step BufferLength (single : bool) h s :
  typed_header h ->
  0 <= skip s <= ULONG_MAX ->
  0 <= consumed s -> consumed s + 1 <= ULONG_MAX ->
  collected s <= consumed s ->
  0 <= runningRequired s -> runningRequired s + MAX_ENTRY_SIZE <= ULONG_MAX ->
  scan_entry BufferLength single h (locals_of s) =
  ((locals_of (fst (spec_step BufferLength single h s)),
    snd (spec_step BufferLength single h s)),
   if 0 <? skip s then []
   else if runningRequired s + spec_entrySize h <=? BufferLength
        then [EvRead EntryDescriptors;
              EvWrite ScratchBuffer (sizeof_ODI * collected s) sizeof_ODI]
        else [EvRead EntryDescriptors]).
Proof.
  intros Hh Hsk Hc Hc1 Hcol Hr Hrm.
  pose proof (spec_entrySize_bounds h Hh) as Hes.
  assert (Hcol0 : 0 <= collected s) by (unfold collected; lia).
  unfold scan_entry, spec_step.
  cbn [locals_of SkipEntries NextEntry RequiredSize nDirectories Status DirInfo].
  rewrite (EntrySize_spec h Hh), length_map. fold (collected s).
  rewrite (ULONG_small (consumed s + 1)) by zlia.
  rewrite (ULONG_small (runningRequired s + spec_entrySize h)) by zlia.
  destruct (Z.eqb_spec (skip s) 0) as [E0|E0].
  - rewrite E0. cbn [Z.ltb Z.compare].
    destruct (Z.leb_spec (runningRequired s + spec_entrySize h) BufferLength).
    + unfold bind, emit, ret. cbn [app fst snd].
      rewrite (ULONG_small (collected s + 1)) by zlia.
      unfold locals_of. cbn [skip consumed runningRequired staged status].
      rewrite collected_snoc, map_app. reflexivity.
    + unfold bind, emit, ret. cbn [app fst snd].
      replace (consumed s + 1 - 1) with (consumed s) by lia.
      rewrite (ULONG_small (consumed s)) by zlia.
      destruct single; unfold locals_of;
        cbn [skip consumed runningRequired staged status]; reflexivity.
  - destruct (Z.ltb_spec 0 (skip s)); [|lia].
    unfold ret. rewrite (ULONG_small (skip s - 1)) by zlia.
    cbn [fst snd]. reflexivity.
Qed.

Lemma spec_scan_step BufferLength single h rest s :
  spec_scan BufferLength single (h :: rest) s =
  if snd (spec_step BufferLength single h s)
  then fst (spec_step BufferLength single h s)
  else spec_scan BufferLength single rest (fst (spec_step BufferLength single h s)).
Proof.
  cbn [spec_scan]. unfold spec_step.
  destruct (0 <? skip s); [reflexivity|].
  destruct (_ <=? _); [destruct single; reflexivity|].
  destruct single; reflexivity.
Qed.

(** Every record the loop stages is written inside the scratch buffer. *)
Lemma scan_list_within BufferLength (single : bool) :
  forall entries s,
    Forall typed_header entries ->
    single = true \/
      runningRequired (spec_scan BufferLength single entries s)
      + MAX_ENTRY_SIZE <= ULONG_MAX ->
    0 <= skip s <= ULONG_MAX ->
    0 <= consumed s ->
    consumed s + Z.of_nat (length entries) <= ULONG_MAX ->
    collected s <= consumed s ->
    sizeof_ODI * (collected s + 1) <= runningRequired s ->
    runningRequired s + MAX_ENTRY_SIZE <= ULONG_MAX ->
    Forall (within 0 BufferLength)
      (trace (scan_list BufferLength single entries (locals_of s))).
Proof.
  induction entries as [|h rest IH]; intros s Hty Hnw Hsk Hc Hlen Hcol Hr Hrm.
  - constructor.
  - inversion Hty as [|? ? Hh Hrest]; subst.
    pose proof (spec_entrySize_bounds h Hh) as Hes.
    assert (Hcol0 : 0 <= collected s) by (unfold collected; lia).
    cbn [length] in Hlen. rewrite Nat2Z.inj_succ in Hlen.
    cbn [scan_list]. eff.
    rewrite scan_entry_step by (auto; zlia).
    rewrite !value_pair, !trace_pair. cbn [fst snd].
    rewrite spec_scan_step in Hnw.
    apply Forall_app. split.
    + destruct (0 <? skip s); [constructor|].
      destruct (Z.leb_spec (runningRequired s + spec_entrySize h) BufferLength).
      * repeat constructor; zlia.
      * repeat constructor.
    + unfold spec_step in *.
      destruct (Z.ltb_spec 0 (skip s)) as [Hpos|Hz]; cbn [fst snd] in *.
      * eff. constructor; [exact I|].
        apply IH; cbn [skip consumed runningRequired staged status]; auto;
          unfold collected in *; cbn [staged]; zlia.
      * destruct (Z.leb_spec (runningRequired s + spec_entrySize h) BufferLength);
          cbn [fst snd] in *.
        -- destruct single; [constructor|].
           eff. constructor; [exact I|].
           destruct Hnw as [Hnw|Hnw]; [discriminate|].
           pose proof (spec_scan_runningRequired_mono BufferLength false rest
                         (mkScan (skip s) (consumed s + 1)
                            (runningRequired s + spec_entrySize h)
                            (staged s ++ [h]) STATUS_SUCCESS false) Hrest) as Hmono.
           cbn [runningRequired] in Hmono.
           apply IH; cbn [skip consumed runningRequired staged status]; auto;
             try rewrite collected_snoc; zlia.
        -- destruct single; constructor.
Qed.

Lemma pack_string_within mem base slot s p lo hi :
  typed_string s ->
  lo <= slot -> slot + sizeof_ODI <= hi ->
  lo <= base + strbuf p ->
  base + strbuf p + Z.of_nat (length (packed mem s)) <= hi ->
  Forall (within lo hi) (trace (pack_string mem base slot s p)).
Proof.
  intros [[H0 H1] _] Hslo Hshi Hlo Hhi.
  rewrite length_packed in Hhi by exact H0.
  pose proof (half_bounds (Length s) H0).
  unfold pack_string. eff. cbn [app].
  repeat constructor; zlia.
Qed.

(** The body of the second loop on one record. *)
Lemma pack_entry_value mem base slot d p :
  typed_record d ->
  strbuf p = Z.of_nat (length (strings p)) ->
  0 <= CopyBytes p ->
  let n := if Length (ObjectName d) >? 0 then packed mem (ObjectName d) else [] in
  let t := packed mem (ObjectTypeName d) in
  CopyBytes p + Z.of_nat (length n) + Z.of_nat (length t) <= ULONG_MAX ->
  snd (value (pack_entry mem base slot d p)) =
  mkPacking (strbuf p + Z.of_nat (length n) + Z.of_nat (length t))
            (deststrbuf p + Z.of_nat (length n) + Z.of_nat (length t))
            (CopyBytes p + Z.of_nat (length n) + Z.of_nat (length t))
            (strings p ++ n ++ t).
Proof.
  intros [Hn Ht] Hs Hc0 n t Hc. unfold pack_entry. eff.
  assert (Hname :
    snd (value (if Length (ObjectName d) >? 0
                then pack_string mem base slot (ObjectName d) p
                else ret (ObjectName d, p))) =
    mkPacking (strbuf p + Z.of_nat (length n)) (deststrbuf p + Z.of_nat (length n))
              (CopyBytes p + Z.of_nat (length n)) (strings p ++ n)).
  { subst n. destruct (Length (ObjectName d) >? 0).
    - rewrite pack_string_value; auto; lia.
    - eff. cbn [snd length]. rewrite !Z.add_0_r, app_nil_r. destruct p; reflexivity. }
  rewrite Hname.
  rewrite pack_string_value
    by (cbn [strbuf deststrbuf CopyBytes strings];
        first [assumption | rewrite length_app; lia | fold t; lia]).
  cbn [fst snd strbuf deststrbuf CopyBytes strings]. fold t.
  rewrite <- app_assoc. reflexivity.
Qed.

Lemma pack_entry_within mem base slot d p lo hi :
  typed_record d ->
  strbuf p = Z.of_nat (length (strings p)) ->
  0 <= CopyBytes p ->
  let n := if Length (ObjectName d) >? 0 then packed mem (ObjectName d) else [] in
  let t := packed mem (ObjectTypeName d) in
  CopyBytes p + Z.of_nat (length n) + Z.of_nat (length t) <= ULONG_MAX ->
  lo <= slot -> slot + sizeof_ODI <= hi ->
  lo <= base + strbuf p ->
  base + strbuf p + Z.of_nat (length n) + Z.of_nat (length t) <= hi ->
  Forall (within lo hi) (trace (pack_entry mem base slot d p)).
Proof.
  intros [Hn Ht] Hs Hc0 n t Hc Hslo Hshi Hlo Hhi. unfold pack_entry. eff.
  cbn [app]. constructor; [exact I|].
  assert (Hname :
    snd (value (if Length (ObjectName d) >? 0
                then pack_string mem base slot (ObjectName d) p
                else ret (ObjectName d, p))) =
    mkPacking (strbuf p + Z.of_nat (length n)) (deststrbuf p + Z.of_nat (length n))
              (CopyBytes p + Z.of_nat (length n)) (strings p ++ n)).
  { subst n. destruct (Length (ObjectName d) >? 0).
    - rewrite pack_string_value; auto; lia.
    - eff. cbn [snd length]. rewrite !Z.add_0_r, app_nil_r. destruct p; reflexivity. }
  rewrite Hname. rewrite !Forall_app. split; [|split].
  - subst n. destruct (Length (ObjectName d) >? 0); [|constructor].
    apply pack_string_within; auto; lia.
  - apply pack_string_within; cbn [strbuf]; auto; fold t; lia.
  - constructor.
Qed.

(** The second loop writes between the start of the string area and the
    end of the strings it packs. *)
Lemma pack_entries_within mem base :
  forall slots slot p lo hi,
    Forall typed_record slots ->
    lo <= slot -> slot + sizeof_ODI * Z.of_nat (length slots) <= hi ->
    strbuf p = Z.of_nat (length (strings p)) ->
    0 <= CopyBytes p ->
    CopyBytes p + Z.of_nat (length (snd (layout mem (deststrbuf p) slots)))
      <= ULONG_MAX ->
    lo <= base + strbuf p ->
    base + strbuf p + Z.of_nat (length (snd (layout mem (deststrbuf p) slots))) <= hi ->
    Forall (within lo hi) (trace (pack_entries mem base slot slots p)).
Proof.
  induction slots as [|d rest IH]; intros slot p lo hi Hty Hslo Hshi Hs Hc0 Hc Hlo Hhi.
  - constructor.
  - inversion Hty as [|? ? Hd Hrest]; subst.
    cbn [length] in Hshi. rewrite Nat2Z.inj_succ in Hshi.
    cbn [layout fst snd] in *. cbn [pack_entries]. eff.
    set (n := if Length (ObjectName d) >? 0 then packed mem (ObjectName d) else []) in *.
    set (t := packed mem (ObjectTypeName d)) in *.
    rewrite !length_app, !Nat2Z.inj_add in Hc, Hhi.
    rewrite (pack_entry_value mem base slot d p Hd Hs Hc0) by (fold n t; lia).
    fold n t.
    rewrite !Forall_app. split; [|split].
    + apply pack_entry_within; auto; fold n t; zlia.
    + apply IH; cbn [strbuf deststrbuf CopyBytes strings]; auto;
        try (rewrite !length_app; lia); zlia.
    + constructor.
Qed.

(** A scan that has staged members has counted no more than the buffer
    holds. *)
Lemma spec_scan_fits BufferLength (single : bool) Directory k :
  0 <= k ->
  staged (spec_scan BufferLength single Directory (spec_start k)) <> [] ->
  runningRequired (spec_scan BufferLength single Directory (spec_start k))
  <= BufferLength.
Proof.
  intros Hk. rewrite spec_scan_skip by (cbn; exact Hk).
  cbn [spec_start skip consumed runningRequired staged status].
  destruct (Nat.leb_spec (length Directory) (Z.to_nat k)); [cbn; congruence|].
  set (rest := skipn (Z.to_nat k) Directory).
  destruct single.
  - destruct rest as [|h tl]; [cbn; congruence|].
    rewrite spec_scan_single by reflexivity. cbn [runningRequired staged app].
    destruct (Z.leb_spec (sizeof_ODI + spec_entrySize h) BufferLength);
      cbn [staged runningRequired]; [lia|congruence].
  - rewrite spec_scan_multi by reflexivity. cbn [runningRequired staged app].
    intros Hne. apply fit_count_total.
    destruct (fit_count BufferLength sizeof_ODI rest); [cbn in Hne; congruence|lia].
Qed.

Lemma no_write_within (P : Event -> bool) lo hi t :
  (forall r off len, P (EvWrite r off len) = true ->
     r <> ScratchBuffer /\ r <> CallerBuffer) ->
  forallb P t = true -> Forall (within lo hi) t.
Proof.
  intros HP. induction t as [|e t IH]; intros H; constructor.
  - cbn [forallb] in H. apply andb_prop in H. destruct H as [He _].
    destruct e as [|?|r off len| | | | | | | | |]; try exact I.
    destruct (HP r off len He) as [H1 H2]. destruct r; try exact I; contradiction.
  - cbn [forallb] in H. apply andb_prop in H. tauto.
Qed.

Lemma capture_within env RestartScan Context ReturnLength lo hi :
  Forall (within lo hi) (trace (capture env RestartScan Context ReturnLength)).
Proof.
  apply (no_write_within probing); [|apply capture_probing].
  intros r off len H. discriminate.
Qed.

Lemma capture_skip env (RestartScan : bool) Context ReturnLength v :
  is_ULONG Context ->
  value (capture env RestartScan Context ReturnLength) = Returns v ->
  is_ULONG (snd v).
Proof.
  intros H. assert (H0 : is_ULONG 0) by zlia.
  unfold capture, probe_block, probe_ReturnLength.
  destruct (PreviousMode env), RestartScan, ReturnLength,
    (probe_faults_at (ProbeFault env) AtProbeBuffer),
    (probe_faults_at (ProbeFault env) AtProbeContext),
    (probe_faults_at (ProbeFault env) AtReadContext),
    (probe_faults_at (ProbeFault env) AtProbeReturnLength);
    cbn; intros E; try discriminate; injection E as <-; assumption.
Qed.

Lemma deliver_within env St CopyBytes tmp NextEntry RequiredSize ReturnLength hi :
  (CopyBytes <> 0 -> 0 <= CopyBytes <= hi) ->
  Forall (within 0 hi)
    (trace (deliver env St CopyBytes tmp NextEntry RequiredSize ReturnLength)).
Proof.
  intros H. unfold deliver.
  destruct (copy_fault (DeliverFault env) CopyBytes) as [[stored c]|] eqn:Ef.
  - unfold copy_fault in Ef.
    destruct (DeliverFault env) as [[[n| |] c']|]; try discriminate.
    destruct (Z.leb_spec 0 n); [|discriminate].
    destruct (Z.ltb_spec n CopyBytes); [|discriminate].
    injection Ef as -> ->.
    destruct (Z.eqb_spec stored 0); repeat constructor; lia.
  - destruct (Z.eqb_spec CopyBytes 0), ReturnLength,
      (faults_at (DeliverFault env) AtWriteContext),
      (faults_at (DeliverFault env) AtWriteReturnLength);
      repeat constructor; lia.
Qed.

(** Lines 294-355 write inside the part of the scratch buffer that the
    scan counted. *)
Lemma compact_within mem Buffer s St hi :
  Forall typed_header (staged s) ->
  sizeof_ODI + total_size (staged s) <= ULONG_MAX ->
  (staged s <> [] -> sizeof_ODI + total_size (staged s) <= hi) ->
  Forall (within 0 hi) (trace (compact mem Buffer (locals_of s) St)) /\
  0 <= fst (value (compact mem Buffer (locals_of s) St)) <= Z.max 0 hi /\
  (fst (value (compact mem Buffer (locals_of s) St)) <> 0 ->
   fst (value (compact mem Buffer (locals_of s) St))
   <= sizeof_ODI + total_size (staged s) <= hi).
Proof.
  intros Hty Hmax Hhi.
  pose proof (layout_size mem (staged s)
                (Buffer + (sizeof_ODI * collected s + sizeof_ODI)) Hty) as Hl.
  pose proof (total_size_nonneg _ Hty) as Hnn.
  rewrite compact_value by assumption.
  unfold compact. cbn [locals_of nDirectories DirInfo].
  destruct (NT_SUCCESS St && (collected s >? 0)) eqn:E.
  - apply andb_prop in E. destruct E as [_ E].
    assert (Hne : staged s <> []).
    { intros E0. unfold collected in E. rewrite E0 in E. discriminate. }
    specialize (Hhi Hne). unfold collected in *.
    assert (Hb : output_bytes (output_of mem Buffer (staged s))
                 <= sizeof_ODI + total_size (staged s)).
    { unfold output_bytes, output_of. cbn [fst snd].
      rewrite length_app, length_layout_records, length_map. cbn [length].
      rewrite Nat2Z.inj_add. zlia. }
    pose proof (output_bytes_pos mem Buffer (staged s)).
    cbn [fst]. split; [|split; [zlia|intros _; zlia]].
    eff. cbn [app]. constructor; [unfold within; zlia|].
    rewrite Forall_app. split; [|constructor].
    apply pack_entries_within; cbn [strbuf deststrbuf CopyBytes strings length].
    + rewrite Forall_map. eapply Forall_impl; [|exact Hty]. exact typed_staged_record.
    + lia.
    + rewrite length_map. zlia.
    + reflexivity.
    + apply ULONG_range.
    + rewrite (ULONG_small (Z.of_nat (length (staged s)) + 1)) by zlia.
      rewrite ULONG_small by zlia. zlia.
    + zlia.
    + zlia.
  - cbn [fst]. split; [constructor|]. split; [lia|]. intros H. contradiction.
Qed.

(** From the acquisition of the lock on, every write stays inside its
    buffer. *)
Lemma locked_part_within env Directory Buffer BufferLength (single : bool)
    skip0 ReturnLength :
  typed_directory Directory ->
  is_ULONG skip0 ->
  single = true \/ no_wrap BufferLength ->
  Forall (within 0 BufferLength)
    (locked_part env Directory Buffer BufferLength single skip0 ReturnLength).
Proof.
  intros [Hty Hlen] Hk Hnw.
  pose proof (wrap_free BufferLength single Directory skip0 Hnw) as Hnw'.
  unfold locked_part. cbn zeta.
  change (initial_locals skip0) with (locals_of (spec_start skip0)).
  rewrite scan_list_refines; [ | exact Hty | exact Hnw' | cbn; zlia .. ].
  set (s := spec_scan BufferLength single Directory (spec_start skip0)) in *.
  cbn [fst snd].
  pose proof (spec_scan_total BufferLength single Directory
                (spec_start skip0) Hty) as Htot.
  fold s in Htot. cbn [spec_start runningRequired staged total_size fold_right] in Htot.
  assert (Hrr : runningRequired s <= ULONG_MAX).
  { destruct Hnw' as [Hs|Hs]; [|zlia].
    subst single.
    pose proof (spec_scan_single_bound BufferLength Directory (spec_start skip0) Hty) as H.
    fold s in H. cbn [spec_start runningRequired] in H. zlia. }
  assert (Hst : Forall typed_header (staged s)).
  { apply spec_scan_staged_Forall; [exact Hty | constructor]. }
  assert (Hfit : staged s <> [] -> sizeof_ODI + total_size (staged s) <= BufferLength).
  { intros Hne.
    pose proof (spec_scan_fits BufferLength single Directory skip0 (proj1 Hk) Hne) as H.
    fold s in H. lia. }
  match goal with |- context [compact ?m ?b (locals_of s) ?st] =>
    destruct (compact_within m b s st BufferLength Hst ltac:(zlia) Hfit)
      as (Hcw & Hc0 & Hcb) end.
  cbn [app]. constructor; [exact I|]. constructor; [exact I|].
  rewrite !Forall_app. split; [|split].
  - apply scan_list_within; [exact Hty | exact Hnw' | cbn; zlia .. ].
  - exact Hcw.
  - constructor; [exact I|]. constructor; [exact I|].
    rewrite Forall_app. split; [|repeat constructor].
    destruct (_ || _); [|constructor].
    apply deliver_within. intros Hne. specialize (Hcb Hne). lia.
Qed.

(** What lines 294-355 count in [CopyBytes] stays below [RequiredSize],
    and below BufferLength when it is not 0. *)
Lemma CopyBytes_bounds mem Directory Buffer BufferLength (single : bool) skip0 St :
  typed_directory Directory ->
  is_ULONG skip0 ->
  single = true \/ no_wrap BufferLength ->
  0 <= fst (value (compact mem Buffer
                     (fst (value (scan_list BufferLength single Directory
                                    (initial_locals skip0)))) St))
    <= RequiredSize (fst (value (scan_list BufferLength single Directory
                                   (initial_locals skip0)))) /\
  (fst (value (compact mem Buffer
                 (fst (value (scan_list BufferLength single Directory
                                (initial_locals skip0)))) St)) <> 0 ->
   RequiredSize (fst (value (scan_list BufferLength single Directory
                               (initial_locals skip0)))) <= BufferLength).
Proof.
  intros [Hty Hlen] Hk Hnw.
  pose proof (wrap_free BufferLength single Directory skip0 Hnw) as Hnw'.
  change (initial_locals skip0) with (locals_of (spec_start skip0)).
  rewrite scan_list_refines; [ | exact Hty | exact Hnw' | cbn; zlia .. ].
  set (s := spec_scan BufferLength single Directory (spec_start skip0)) in *.
  cbn [fst snd].
  pose proof (spec_scan_total BufferLength single Directory
                (spec_start skip0) Hty) as Htot.
  fold s in Htot. cbn [spec_start runningRequired staged total_size fold_right] in Htot.
  assert (Hrr : runningRequired s <= ULONG_MAX).
  { destruct Hnw' as [Hs|Hs]; [|zlia].
    subst single.
    pose proof (spec_scan_single_bound BufferLength Directory (spec_start skip0) Hty) as H.
    fold s in H. cbn [spec_start runningRequired] in H. zlia. }
  assert (Hst : Forall typed_header (staged s)).
  { apply spec_scan_staged_Forall; [exact Hty | constructor]. }
  assert (Hfit : staged s <> [] -> sizeof_ODI + total_size (staged s) <= BufferLength).
  { intros Hne.
    pose proof (spec_scan_fits BufferLength single Directory skip0 (proj1 Hk) Hne) as H.
    fold s in H. lia. }
  pose proof (total_size_nonneg _ Hst) as Hnn.
  destruct (compact_within mem Buffer s St BufferLength Hst ltac:(zlia) Hfit)
    as (_ & Hc0 & Hcb).
  cbn [locals_of RequiredSize].
  assert (Hstaged : fst (value (compact mem Buffer (locals_of s) St)) <> 0 ->
                    staged s <> []).
  { rewrite compact_value by (auto; zlia).
    destruct (NT_SUCCESS St && (collected s >? 0)) eqn:E; cbn [fst]; [|congruence].
    intros _ E0. apply andb_prop in E. destruct E as [_ E].
    unfold collected in E. rewrite E0 in E. discriminate. }
  split.
  - destruct (Z.eq_dec (fst (value (compact mem Buffer (locals_of s) St))) 0) as [E|E].
    + rewrite E. zlia.
    + specialize (Hcb E). lia.
  - intros E. pose proof (spec_scan_fits BufferLength single Directory skip0
                            (proj1 Hk) (Hstaged E)) as H.
    fold s in H. exact H.
Qed.

(* ===================================================================== *)
(** ** Nothing is written past BufferLength *)

(** C10, as the code has it.  In every call, whatever fails around it,
    each write into the scratch buffer (the records the scan stages, the
    terminator and the strings of the compaction) and the copy into the
    caller's buffer stay within the first BufferLength bytes of their
    buffer.  [CopyBytes] never exceeds [RequiredSize], and when it is not 0
    [RequiredSize] does not exceed BufferLength; seen from the caller, the
    bytes copied do not exceed the size reported through ReturnLength,
    which then does not exceed BufferLength.  RequiredSize itself is not bounded by
    BufferLength in general: it exceeds it when the call returns
    STATUS_BUFFER_TOO_SMALL, and then nothing is copied.  A multi-entry
    scan is taken in a buffer that leaves room for one entry below 2^32. *)
Theorem writes_stay_within_BufferLength env Directory Buffer BufferLength
    (ReturnSingleEntry RestartScan : bool) (Context : Z) (ReturnLength : bool) :
  typed_directory Directory ->
  is_ULONG Context ->
  ReturnSingleEntry = true \/ no_wrap BufferLength ->
  Forall (within 0 BufferLength)
    (query_trace env Directory Buffer BufferLength ReturnSingleEntry RestartScan
       Context ReturnLength) /\
  (forall Status',
     0 <= fst (value (compact (KernelMemory env) Buffer
                        (fst (value (scan_list BufferLength ReturnSingleEntry
                                       Directory
                                       (initial_locals
                                          (if RestartScan then 0 else Context)))))
                        Status'))
       <= RequiredSize (fst (value (scan_list BufferLength ReturnSingleEntry
                                      Directory
                                      (initial_locals
                                         (if RestartScan then 0 else Context)))))
     /\
     (fst (value (compact (KernelMemory env) Buffer
                    (fst (value (scan_list BufferLength ReturnSingleEntry
                                   Directory
                                   (initial_locals
                                      (if RestartScan then 0 else Context)))))
                    Status')) <> 0 ->
      RequiredSize (fst (value (scan_list BufferLength ReturnSingleEntry
                                  Directory
                                  (initial_locals
                                     (if RestartScan then 0 else Context)))))
      <= BufferLength)) /\
  (quiet env ->
   forall out,
     BufferOut (query env Directory Buffer BufferLength ReturnSingleEntry
                  RestartScan Context ReturnLength) = Some out ->
     buffer_writes (query_trace env Directory Buffer BufferLength ReturnSingleEntry
                      RestartScan Context ReturnLength)
       = [(0, output_bytes out)] /\
     output_bytes out <= BufferLength /\
     forall rl,
       ReturnLengthOut (query env Directory Buffer BufferLength ReturnSingleEntry
                          RestartScan Context ReturnLength) = Some rl ->
       output_bytes out <= rl /\ rl <= BufferLength).
Proof.
  intros Hty Hctx Hnw. split; [|split].
  - rewrite query_trace_eq. cbn zeta. rewrite Forall_app. split.
    + apply capture_within.
    + destruct (value (capture env _ Context ReturnLength)) as [v|esc] eqn:Ev;
        [|constructor].
      destruct (match PreviousMode env with
                | UserMode => _ | KernelMode => false end); [constructor|].
      constructor; [exact I|].
      destruct (NT_SUCCESS (ReferenceStatus env)); [|constructor].
      constructor; [exact I|].
      destruct (PoolAvailable env); [|constructor].
      apply locked_part_within; auto.
      exact (capture_skip env RestartScan Context ReturnLength v Hctx Ev).
  - intros Status'. apply CopyBytes_bounds; auto.
    destruct RestartScan; [zlia|exact Hctx].
  - intros Hq out Hout.
    assert (Hk : is_ULONG (if RestartScan then 0 else Context))
      by (destruct RestartScan; [zlia|exact Hctx]).
    pose proof (query_buffer_writes env Directory Buffer BufferLength ReturnSingleEntry
                  RestartScan Context ReturnLength Hq Hty Hk Hnw) as Hbw.
    rewrite Hout in Hbw. split; [exact Hbw|].
    unfold query in *.
    rewrite NtQueryDirectoryObject_quiet in * by (auto; apply wrap_free; exact Hnw).
    set (s := spec_scan BufferLength ReturnSingleEntry Directory
                (spec_start (if RestartScan then 0 else Context))) in *.
    unfold outcome_of in *.
    destruct (NT_SUCCESS (final_status ReturnSingleEntry s) || ReturnSingleEntry);
      [|discriminate].
    cbn [BufferOut ReturnLengthOut] in *.
    destruct (NT_SUCCESS (final_status ReturnSingleEntry s) && (collected s >? 0)) eqn:E;
      [|discriminate].
    apply andb_prop in E. destruct E as [_ Hcol].
    inversion Hout as [Eout]. clear Hout.
    destruct Hty as [Hty Hlen].
    assert (Hst : Forall typed_header (staged s))
      by (apply spec_scan_staged_Forall; [exact Hty | constructor]).
    assert (Hne : staged s <> []).
    { intros E0. unfold collected in Hcol. rewrite E0 in Hcol. discriminate. }
    pose proof (spec_scan_fits BufferLength ReturnSingleEntry Directory
                  (if RestartScan then 0 else Context) (proj1 Hk) Hne) as Hfit.
    pose proof (spec_scan_total BufferLength ReturnSingleEntry Directory
                  (spec_start (if RestartScan then 0 else Context)) Hty) as Htot.
    fold s in Hfit, Htot.
    cbn [spec_start runningRequired staged total_size fold_right] in Htot.
    pose proof (layout_size (KernelMemory env) (staged s)
                  (Buffer + (sizeof_ODI * Z.of_nat (length (staged s)) + sizeof_ODI))
                  Hst) as Hl.
    assert (Hb : output_bytes (output_of (KernelMemory env) Buffer (staged s))
                 <= runningRequired s).
    { unfold output_bytes, output_of. cbn [fst snd].
      rewrite length_app, length_layout_records, length_map. cbn [length].
      rewrite Nat2Z.inj_add. zlia. }
    split; [lia|]. intros rl Hrl.
    destruct ReturnLength; [|discriminate]. inversion Hrl; subst. lia.
Qed.

Lemma writes_stay_within_BufferLength_witness :
  typed_directory example_directory /\
  is_ULONG 0 /\
  no_wrap 128 /\
  Forall (within 0 128)
    (query_trace example_env example_directory 5000 128 false true 0 true).
Proof.
  assert (H2 : is_ULONG 0) by (unfold is_ULONG, ULONG_MAX; lia).
  assert (H3 : no_wrap 128)
    by (unfold no_wrap, MAX_ENTRY_SIZE, ULONG_MAX, sizeof_ODI, USHORT_MAX; lia).
  split; [exact typed_example_directory|]. split; [exact H2|]. split; [exact H3|].
  exact (proj1 (writes_stay_within_BufferLength example_env example_directory
                  5000 128 false true 0 true typed_example_directory H2
                  (or_intror H3))).
Defined.

(** C10 as stated fails on RequiredSize: a single-entry call on "Bar" with
    a buffer of 53 bytes leaves the loop with RequiredSize = 54, reports 54
    through ReturnLength, and copies nothing. *)
Lemma RequiredSize_exceeds_BufferLength_when_too_small :
  RequiredSize
    (fst (value (scan_list 53 true example_directory (initial_locals 1)))) = 54 /\
  53 < 54 /\
  ReturnStatus (query example_env example_directory 5000 53 true false 1 true)
    = STATUS_BUFFER_TOO_SMALL /\
  ReturnLengthOut (query example_env example_directory 5000 53 true false 1 true)
    = Some 54 /\
  buffer_writes (query_trace example_env example_directory 5000 53 true false 1 true)
    = [].
Proof. repeat split. Qed.

(* ===================================================================== *)
(** ** Calls that fail before the scan *)

(** X1.  A caller in user mode whose pointers do not pass the probing block
    (lines 151-180): the call returns the code of the exception, writes
    nothing, and its trace holds probes and the read of [*Context] only, so
    that no reference is taken, no memory allocated and no lock acquired. *)
Theorem validation_failure_has_no_effect env Directory Buffer BufferLength
    (ReturnSingleEntry RestartScan : bool) (Context : Z) (ReturnLength : bool) s c :
  PreviousMode env = UserMode ->
  ProbeFault env = Some (s, c) ->
  probe_step_reached s RestartScan ReturnLength = true ->
  NT_SUCCESS c = false ->
  query env Directory Buffer BufferLength ReturnSingleEntry RestartScan
    Context ReturnLength = failed c /\
  forallb probing
    (query_trace env Directory Buffer BufferLength ReturnSingleEntry RestartScan
       Context ReturnLength) = true.
Proof.
  intros Hm Hf Hr Hc.
  assert (E : exists k,
            value (capture env RestartScan Context ReturnLength) = Returns (c, k)).
  { unfold capture, probe_block, probe_ReturnLength. rewrite Hm, Hf.
    destruct s, RestartScan, ReturnLength; try discriminate; eexists; reflexivity. }
  destruct E as [k E].
  split.
  - unfold query, NtQueryDirectoryObject. eff. rewrite E. cbv beta iota.
    cbn [fst]. rewrite Hm, Hc. reflexivity.
  - rewrite query_trace_eq. cbn zeta. rewrite E. cbv beta iota.
    cbn [fst]. rewrite Hm, Hc. cbn [negb].
    rewrite app_nil_r. apply capture_probing.
Qed.

Lemma validation_failure_has_no_effect_witness :
  PreviousMode (mkEnv UserMode (Some (AtProbeContext, STATUS_BUFFER_TOO_SMALL))
                  STATUS_SUCCESS true None example_memory) = UserMode /\
  probe_step_reached AtProbeContext false true = true /\
  NT_SUCCESS STATUS_BUFFER_TOO_SMALL = false /\
  query (mkEnv UserMode (Some (AtProbeContext, STATUS_BUFFER_TOO_SMALL))
           STATUS_SUCCESS true None example_memory)
    example_directory 5000 128 false false 0 true
  = failed STATUS_BUFFER_TOO_SMALL.
Proof.
  split; [reflexivity|]. split; [reflexivity|]. split; [reflexivity|].
  exact (proj1 (validation_failure_has_no_effect
                  (mkEnv UserMode (Some (AtProbeContext, STATUS_BUFFER_TOO_SMALL))
                     STATUS_SUCCESS true None example_memory)
                  example_directory 5000 128 false false 0 true
                  AtProbeContext STATUS_BUFFER_TOO_SMALL
                  eq_refl eq_refl eq_refl eq_refl)).
Defined.

(** X2.  A handle that [ObReferenceObjectByHandle] does not resolve (lines
    186-192, 389-391): the call returns the status of the resolution, writes
    nothing, and its trace ends with the resolution: nothing is allocated,
    locked or released after it. *)
Theorem unresolved_handle_is_returned env Directory Buffer BufferLength
    (ReturnSingleEntry RestartScan : bool) (Context : Z) (ReturnLength : bool) :
  ProbeFault env = None ->
  NT_SUCCESS (ReferenceStatus env) = false ->
  query env Directory Buffer BufferLength ReturnSingleEntry RestartScan
    Context ReturnLength = failed (ReferenceStatus env) /\
  (exists t,
     forallb probing t = true /\
     query_trace env Directory Buffer BufferLength ReturnSingleEntry RestartScan
       Context ReturnLength = t ++ [EvObReferenceObjectByHandle (ReferenceStatus env)]) /\
  references
    (query_trace env Directory Buffer BufferLength ReturnSingleEntry RestartScan
       Context ReturnLength) = 0.
Proof.
  intros Hp Hr.
  pose proof (capture_quiet env RestartScan Context ReturnLength Hp) as Ev.
  assert (E : match PreviousMode env with
              | UserMode => negb (NT_SUCCESS
                   (fst (STATUS_SUCCESS, if RestartScan then 0 else Context)))
              | KernelMode => false
              end = false)
    by (destruct (PreviousMode env); reflexivity).
  split; [|split].
  - unfold query, NtQueryDirectoryObject. eff. rewrite Ev. cbv beta iota.
    rewrite E. eff. rewrite Hr. reflexivity.
  - exists (trace (capture env RestartScan Context ReturnLength)).
    split; [apply capture_probing|].
    rewrite query_trace_eq. cbn zeta. rewrite Ev. cbv beta iota.
    rewrite E, Hr. reflexivity.
  - rewrite query_trace_eq. cbn zeta. rewrite Ev. cbv beta iota.
    rewrite E, Hr, references_app.
    destruct (probing_no_reference _
                (capture_probing env RestartScan Context ReturnLength)) as [-> _].
    cbn [references]. rewrite Hr. reflexivity.
Qed.

Lemma unresolved_handle_is_returned_witness :
  ProbeFault (mkEnv UserMode None STATUS_OBJECT_NAME_COLLISION true None
                example_memory) = None /\
  NT_SUCCESS STATUS_OBJECT_NAME_COLLISION = false /\
  query (mkEnv UserMode None STATUS_OBJECT_NAME_COLLISION true None example_memory)
    example_directory 5000 128 false true 0 true
  = failed STATUS_OBJECT_NAME_COLLISION.
Proof.
  split; [reflexivity|]. split; [reflexivity|].
  exact (proj1 (unresolved_handle_is_returned
                  (mkEnv UserMode None STATUS_OBJECT_NAME_COLLISION true None
                     example_memory)
                  example_directory 5000 128 false true 0 true eq_refl eq_refl)).
Defined.

(* ===================================================================== *)
(** ** What a call takes, it gives back *)

Lemma count_app p t1 t2 : count p (t1 ++ t2) = (count p t1 + count p t2)%nat.
Proof. unfold count. rewrite filter_app, length_app. reflexivity. Qed.

Lemma count_none (P p : Event -> bool) t :
  (forall e, P e = true -> p e = false) ->
  forallb P t = true -> count p t = 0%nat.
Proof.
  intros HP. unfold count. induction t as [|e t IH]; intros H; [reflexivity|].
  cbn [forallb] in H. apply andb_prop in H. destruct H as [He Ht].
  cbn [filter]. rewrite (HP e He). apply IH. exact Ht.
Qed.

Lemma count_locked_part (p : Event -> bool) env Directory Buffer BufferLength
    single skip0 RL :
  (forall e, resident e = true -> p e = false) ->
  (forall e, writes_caller e = true -> p e = false) ->
  count p (locked_part env Directory Buffer BufferLength single skip0 RL) =
  count p [EvKeAcquireSpinLock; EvKeReleaseSpinLock; EvObDereferenceObject;
           EvExFreePool].
Proof.
  intros Hr Hc. unfold locked_part. cbn zeta.
  match goal with |- context [if ?c then trace (deliver ?a ?b ?d ?e ?f ?g ?h) else []] =>
    assert (Hw : forallb writes_caller
                   (if c then trace (deliver a b d e f g h) else []) = true)
      by (destruct c; [apply deliver_writes_caller | reflexivity]);
    set (w := if c then trace (deliver a b d e f g h) else []) in * end.
  match goal with |- context [trace (scan_list ?a ?b ?c ?d)] =>
    pose proof (scan_list_resident a b c d) as Hs;
    set (sc := trace (scan_list a b c d)) in * end.
  match goal with |- context [trace (compact ?a ?b ?c ?d)] =>
    pose proof (compact_resident a b c d) as Hk;
    set (k := trace (compact a b c d)) in * end.
  rewrite !count_app.
  rewrite (count_none resident p sc Hr Hs), (count_none resident p k Hr Hk),
    (count_none writes_caller p w Hc Hw).
  unfold count. cbn [filter].
  rewrite (Hr (EvRead DirectoryList) eq_refl).
  destruct (p EvKeAcquireSpinLock), (p EvKeReleaseSpinLock),
    (p EvObDereferenceObject), (p EvExFreePool); reflexivity.
Qed.

Lemma lock_after_locked_part env Directory Buffer BufferLength single skip0 RL st :
  fold_left lock_step (locked_part env Directory Buffer BufferLength single skip0 RL)
    st = Released.
Proof.
  unfold locked_part. cbn zeta.
  match goal with |- context [if ?c then trace (deliver ?a ?b ?d ?e ?f ?g ?h) else []] =>
    assert (Hw : forallb writes_caller
                   (if c then trace (deliver a b d e f g h) else []) = true)
      by (destruct c; [apply deliver_writes_caller | reflexivity]);
    set (w := if c then trace (deliver a b d e f g h) else []) in * end.
  match goal with |- context [trace (scan_list ?a ?b ?c ?d)] =>
    pose proof (scan_list_resident a b c d) as Hs;
    set (sc := trace (scan_list a b c d)) in * end.
  match goal with |- context [trace (compact ?a ?b ?c ?d)] =>
    pose proof (compact_resident a b c d) as Hk;
    set (k := trace (compact a b c d)) in * end.
  cbn [app fold_left lock_step]. rewrite !fold_left_app.
  destruct (resident_under_lock _ Hs) as [_ ->].
  destruct (resident_under_lock _ Hk) as [_ ->].
  cbn [fold_left lock_step]. rewrite fold_left_app.
  destruct (writes_after_release _ Hw) as [_ ->]. reflexivity.
Qed.

(** X3.  On every path of [NtQueryDirectoryObject] (lines 186-391) the
    scratch buffer is freed as often as it was allocated, the lock is
    acquired and released exactly once when the buffer was allocated and
    never otherwise, at most one buffer is allocated, and the lock is not
    held when the call returns. *)
Theorem scratch_and_lock_are_balanced env Directory Buffer BufferLength
    (ReturnSingleEntry RestartScan : bool) (Context : Z) (ReturnLength : bool) :
  let t := query_trace env Directory Buffer BufferLength ReturnSingleEntry
             RestartScan Context ReturnLength in
  count is_free t = count is_allocation t /\
  count is_acquire t = count is_allocation t /\
  count is_release t = count is_allocation t /\
  (count is_allocation t <= 1)%nat /\
  (lock_after t = NeverTaken \/ lock_after t = Released).
Proof.
  cbn zeta. rewrite query_trace_eq. cbn zeta.
  pose proof (capture_probing env RestartScan Context ReturnLength) as Hc.
  set (c := capture env RestartScan Context ReturnLength) in *.
  assert (Hp : forall p, (forall e, probing e = true -> p e = false) ->
                 count p (trace c) = 0%nat)
    by (intros p Hpe; exact (count_none probing p _ Hpe Hc)).
  assert (L : fold_left lock_step (trace c) NeverTaken = NeverTaken)
    by (apply (probing_keeps_lock _ NeverTaken Hc); discriminate).
  unfold lock_after. rewrite !count_app, fold_left_app, L.
  rewrite !Hp by (intros e; destruct e as [r|r|r ? ?|?|? b| | | | | | |];
                  try destruct r; try destruct b; cbn; congruence).
  destruct (value c) as [v|esc];
    [|cbn; repeat split; auto].
  destruct (match PreviousMode env with
            | UserMode => _ | KernelMode => false end);
    [cbn; repeat split; auto|].
  destruct (NT_SUCCESS (ReferenceStatus env));
    [|cbn; repeat split; auto].
  destruct (PoolAvailable env); [|cbn; repeat split; auto].
  change (?a :: ?b :: ?l) with ([a; b] ++ l).
  rewrite !count_app, fold_left_app, lock_after_locked_part.
  rewrite !count_locked_part
    by (intros e; destruct e as [r|r|r ? ?|?|? b| | | | | | |];
        try destruct r; try destruct b; cbn; congruence).
  cbn. repeat split; auto.
Qed.

(** X4.  A caller in kernel mode is trusted (lines 151, 181-184): none of
    its pointers is probed.  As long as the read of [*Context] of line 183
    raises no exception, the whole call, result and events, is the same
    whatever a probe would have raised.  When that read raises an exception,
    no handler of the function catches it: the exception leaves the
    function, which has done nothing but the read. *)
Theorem kernel_mode_caller_is_not_probed env Directory Buffer BufferLength
    (ReturnSingleEntry RestartScan : bool) (Context : Z) (ReturnLength : bool) :
  PreviousMode env = KernelMode ->
  count is_probe
    (query_trace env Directory Buffer BufferLength ReturnSingleEntry RestartScan
       Context ReturnLength) = 0%nat /\
  (RestartScan = true \/ probe_faults_at (ProbeFault env) AtReadContext = None ->
   NtQueryDirectoryObject env Directory Buffer BufferLength ReturnSingleEntry
     RestartScan Context ReturnLength =
   NtQueryDirectoryObject (without_probe_fault env) Directory Buffer BufferLength
     ReturnSingleEntry RestartScan Context ReturnLength) /\
  (forall c,
     RestartScan = false ->
     probe_faults_at (ProbeFault env) AtReadContext = Some c ->
     NtQueryDirectoryObject env Directory Buffer BufferLength ReturnSingleEntry
       RestartScan Context ReturnLength = (Escapes c, [EvRead CallerContext])).
Proof.
  intros Hm. split; [|split].
  - rewrite query_trace_eq. cbn zeta. rewrite Hm.
    rewrite count_app.
    assert (count is_probe (trace (capture env RestartScan Context ReturnLength))
            = 0%nat) as ->.
    { unfold capture. rewrite Hm.
      destruct RestartScan, (probe_faults_at (ProbeFault env) AtReadContext);
        reflexivity. }
    cbn [Nat.add].
    destruct (value (capture env RestartScan Context ReturnLength)) as [v|esc];
      [|reflexivity].
    change (?a :: ?l) with ([a] ++ l). rewrite count_app. cbn [count filter is_probe length Nat.add].
    destruct (NT_SUCCESS (ReferenceStatus env)); [|reflexivity].
    change (?a :: ?l) with ([a] ++ l). rewrite count_app.
    destruct (PoolAvailable env); [|reflexivity].
    rewrite count_locked_part
      by (intros e; destruct e as [r|r|r ? ?|?|? b| | | | | | |];
          try destruct r; try destruct b; cbn; congruence).
    reflexivity.
  - intros Hr. destruct env as [m pf rs pa df km]. cbn in Hm, Hr. subst m.
    unfold without_probe_fault, NtQueryDirectoryObject, capture, deliver.
    cbn [PreviousMode ProbeFault ReferenceStatus PoolAvailable DeliverFault
         KernelMemory].
    destruct RestartScan; [reflexivity|].
    destruct Hr as [Hr|Hr]; [discriminate|]. rewrite Hr. reflexivity.
  - intros c -> Hf. unfold NtQueryDirectoryObject, capture.
    rewrite Hm, Hf. reflexivity.
Qed.

Lemma kernel_mode_caller_is_not_probed_witness :
  PreviousMode (mkEnv KernelMode (Some (AtReadContext, STATUS_BUFFER_TOO_SMALL))
                  STATUS_SUCCESS true None example_memory) = KernelMode /\
  count is_probe
    (query_trace (mkEnv KernelMode (Some (AtReadContext, STATUS_BUFFER_TOO_SMALL))
                    STATUS_SUCCESS true None example_memory)
       example_directory 5000 128 false false 0 true) = 0%nat /\
  NtQueryDirectoryObject
    (mkEnv KernelMode (Some (AtReadContext, STATUS_BUFFER_TOO_SMALL))
       STATUS_SUCCESS true None example_memory)
    example_directory 5000 128 false false 0 true
  = (Escapes STATUS_BUFFER_TOO_SMALL, [EvRead CallerContext]).
Proof.
  split; [reflexivity|].
  pose proof (kernel_mode_caller_is_not_probed
                (mkEnv KernelMode (Some (AtReadContext, STATUS_BUFFER_TOO_SMALL))
                   STATUS_SUCCESS true None example_memory)
                example_directory 5000 128 false false 0 true eq_refl) as H.
  split; [exact (proj1 H)|].
  exact (proj2 (proj2 H) STATUS_BUFFER_TOO_SMALL eq_refl eq_refl).
Defined.

(* ===================================================================== *)
(** ** Failures of the creation *)

(** X5.  A creation that fails early creates nothing more (lines 430-444,
    446-456, 487): after a failed probe of the handle variable the call
    returns the exception's code and [ObCreateObject] is not called; after a
    failed [ObCreateObject] the call returns its status unchanged, and
    nothing is inserted, dereferenced or written. *)
Theorem creation_stops_at_first_failure env :
  (CreatorMode env = UserMode ->
   forall c, HandleProbeFault env = Some c -> NT_SUCCESS c = false ->
   NtCreateDirectoryObject env =
   (mkCreateOutcome c None, [EvProbe CallerHandle])) /\
  (handle_probed env -> NT_SUCCESS (CreateStatus env) = false ->
   value (NtCreateDirectoryObject env) = mkCreateOutcome (CreateStatus env) None /\
   exists t, forallb probing t = true /\
     trace (NtCreateDirectoryObject env) = t ++ [EvObCreateObject (CreateStatus env)]).
Proof.
  split.
  - intros Hm c Hf Hc. unfold NtCreateDirectoryObject. rewrite Hm, Hf.
    cbn. rewrite Hc. reflexivity.
  - intros Hp Hc. unfold NtCreateDirectoryObject. rewrite Hc.
    destruct Hp as [Hp|Hp]; rewrite Hp.
    + split; [reflexivity|]. exists []. split; reflexivity.
    + destruct (CreatorMode env).
      * split; [reflexivity|]. exists []. split; reflexivity.
      * split; [reflexivity|]. exists [EvProbe CallerHandle]. split; reflexivity.
Qed.

(** X6.  [NtCreateDirectoryObject] reports success exactly when it has
    written the new handle through [DirectoryHandle] (lines 416-488),
    provided that the code of an exception raised by that write is a failure
    code; and the handle written is the one [ObInsertObject] gave. *)
Theorem creation_succeeds_iff_handle_written env :
  failure_code (HandleWriteFault env) ->
  (NT_SUCCESS (CreateReturn (value (NtCreateDirectoryObject env))) = true <->
   HandleOut (value (NtCreateDirectoryObject env)) = Some (hDirectory env)) /\
  (forall h, HandleOut (value (NtCreateDirectoryObject env)) = Some h ->
             h = hDirectory env) /\
  (HandleOut (value (NtCreateDirectoryObject env)) = Some (hDirectory env) <->
   In (EvWrite CallerHandle 0 4) (trace (NtCreateDirectoryObject env))).
Proof.
  intros Hw. unfold NtCreateDirectoryObject, failure_code in *.
  destruct (CreatorMode env);
    [| destruct (HandleProbeFault env) as [c|]; cbn;
       [destruct (NT_SUCCESS c) eqn:Ec; cbn|] ];
    destruct (NT_SUCCESS (CreateStatus env)) eqn:E1;
    destruct (NT_SUCCESS (InsertStatus env)) eqn:E2;
    destruct (HandleWriteFault env) as [w|]; cbn;
    repeat split; intros; try congruence;
    repeat match goal with
    | H : _ \/ _ |- _ => destruct H
    | H : False |- _ => destruct H
    end; try congruence; auto 8.
Qed.

Lemma creation_succeeds_iff_handle_written_witness :
  failure_code (HandleWriteFault created_env) /\
  (NT_SUCCESS (CreateReturn (value (NtCreateDirectoryObject created_env))) = true <->
   HandleOut (value (NtCreateDirectoryObject created_env)) = Some 84).
Proof.
  split; [exact I|].
  exact (proj1 (creation_succeeds_iff_handle_written created_env I)).
Defined.

(** X7.  When the write of the new handle raises an exception (lines
    472-481), the directory has been inserted already and stays so: the call
    returns the exception's code and gives no handle, [ObInsertObject] has
    succeeded, [ObMakeTemporaryObject] is not called, and the single
    reference of the creation has been dropped. *)
Theorem handle_write_fault_leaves_directory_inserted env c :
  handle_probed env ->
  NT_SUCCESS (CreateStatus env) = true ->
  NT_SUCCESS (InsertStatus env) = true ->
  HandleWriteFault env = Some c ->
  value (NtCreateDirectoryObject env) = mkCreateOutcome c None /\
  In (EvObInsertObject (InsertStatus env)) (trace (NtCreateDirectoryObject env)) /\
  ~ In EvObMakeTemporaryObject (trace (NtCreateDirectoryObject env)) /\
  dereferences (trace (NtCreateDirectoryObject env)) = 1%nat.
Proof.
  intros Hp H1 H2 Hw. unfold NtCreateDirectoryObject. rewrite H1, H2, Hw.
  destruct Hp as [Hp|Hp]; rewrite Hp; [|destruct (CreatorMode env)]; cbn;
    (split; [reflexivity|]); (split; [auto 6|]); (split; [|reflexivity]);
    intros H; repeat (destruct H as [H|H]; [discriminate|]); exact H.
Qed.

Lemma handle_write_fault_leaves_directory_inserted_witness :
  handle_probed (mkCreateEnv UserMode None STATUS_SUCCESS STATUS_SUCCESS 84
                   (Some STATUS_BUFFER_TOO_SMALL)) /\
  value (NtCreateDirectoryObject
           (mkCreateEnv UserMode None STATUS_SUCCESS STATUS_SUCCESS 84
              (Some STATUS_BUFFER_TOO_SMALL)))
  = mkCreateOutcome STATUS_BUFFER_TOO_SMALL None.
Proof.
  split; [right; reflexivity|].
  exact (proj1 (handle_write_fault_leaves_directory_inserted
                  (mkCreateEnv UserMode None STATUS_SUCCESS STATUS_SUCCESS 84
                     (Some STATUS_BUFFER_TOO_SMALL))
                  STATUS_BUFFER_TOO_SMALL
                  (or_intror eq_refl) eq_refl eq_refl eq_refl)).
Defined.

(* ===================================================================== *)
(** ** Opening a directory *)

(** X8.  [NtOpenDirectoryObject] looks the name up only after the handle
    variable has passed its probe (lines 48-73): for a caller in user mode
    whose probe raises a failure code the call returns that code, and
    neither looks the name up nor writes a handle; a caller in kernel mode is
    not probed. *)
Theorem open_probes_before_lookup env :
  (OpenerMode env = UserMode ->
   forall c, OpenProbeFault env = Some c -> NT_SUCCESS c = false ->
   NtOpenDirectoryObject env = (mkOpenOutcome c None, [OpProbeForWriteHandle])) /\
  (OpenerMode env = UserMode ->
   exists t, snd (NtOpenDirectoryObject env) = OpProbeForWriteHandle :: t /\
             ~ In OpProbeForWriteHandle t) /\
  (OpenerMode env = KernelMode ->
   ~ In OpProbeForWriteHandle (snd (NtOpenDirectoryObject env))).
Proof.
  unfold NtOpenDirectoryObject, open_by_name. repeat split.
  - intros Hm c Hf Hc. rewrite Hm, Hf, Hc. reflexivity.
  - intros Hm. rewrite Hm.
    destruct (OpenProbeFault env) as [c|]; [destruct (NT_SUCCESS c)|];
      cbn; destruct (NT_SUCCESS (OpenStatus env)); try destruct (OpenWriteFault env);
      cbn; eexists; (split; [reflexivity|]); intros H;
      repeat (destruct H as [H|H]; [discriminate|]); exact H.
  - intros Hm. rewrite Hm.
    destruct (NT_SUCCESS (OpenStatus env)); try destruct (OpenWriteFault env);
      cbn; intros H; repeat (destruct H as [H|H]; [discriminate|]); exact H.
Qed.

(** X9.  [NtOpenDirectoryObject] reports success exactly when it has
    written a handle through [DirectoryHandle], and that handle is the one
    [ObOpenObjectByName] gave (lines 67-87), provided that the code of an
    exception raised by the write is a failure code; a failed lookup is
    returned unchanged. *)
Theorem open_succeeds_iff_handle_written env :
  failure_code (OpenWriteFault env) ->
  (NT_SUCCESS (OpenReturn (fst (NtOpenDirectoryObject env))) = true <->
   OpenedHandle (fst (NtOpenDirectoryObject env)) = Some (hOpened env)) /\
  (forall h, OpenedHandle (fst (NtOpenDirectoryObject env)) = Some h ->
             h = hOpened env /\
             In (OpWriteHandle h) (snd (NtOpenDirectoryObject env))) /\
  (In (OpObOpenObjectByName (OpenStatus env)) (snd (NtOpenDirectoryObject env)) ->
   NT_SUCCESS (OpenStatus env) = false ->
   OpenReturn (fst (NtOpenDirectoryObject env)) = OpenStatus env).
Proof.
  intros Hw. unfold NtOpenDirectoryObject, open_by_name, failure_code in *.
  destruct (OpenerMode env);
    [| destruct (OpenProbeFault env) as [c|]; cbn;
       [destruct (NT_SUCCESS c) eqn:Ec; cbn|] ];
    destruct (NT_SUCCESS (OpenStatus env)) eqn:E1;
    destruct (OpenWriteFault env) as [w|]; cbn;
    repeat split; intros; try congruence;
    repeat match goal with
    | H : Some _ = Some _ |- _ => injection H as <-
    | H : _ \/ _ |- _ => destruct H
    | H : False |- _ => destruct H
    end; try congruence; auto 8.
Qed.

Lemma open_succeeds_iff_handle_written_witness :
  failure_code (OpenWriteFault opened_env) /\
  (NT_SUCCESS (OpenReturn (fst (NtOpenDirectoryObject opened_env))) = true <->
   OpenedHandle (fst (NtOpenDirectoryObject opened_env)) = Some 44).
Proof.
  split; [exact I|].
  exact (proj1 (open_succeeds_iff_handle_written opened_env I)).
Defined.

Lemma creation_stops_at_first_failure_witness :
  NtCreateDirectoryObject
    (mkCreateEnv UserMode (Some STATUS_BUFFER_TOO_SMALL) STATUS_SUCCESS
       STATUS_SUCCESS 84 None)
  = (mkCreateOutcome STATUS_BUFFER_TOO_SMALL None, [EvProbe CallerHandle]).
Proof.
  exact (proj1 (creation_stops_at_first_failure
                  (mkCreateEnv UserMode (Some STATUS_BUFFER_TOO_SMALL) STATUS_SUCCESS
                     STATUS_SUCCESS 84 None))
           eq_refl STATUS_BUFFER_TOO_SMALL eq_refl eq_refl).
Defined.

Lemma open_probes_before_lookup_witness :
  NtOpenDirectoryObject
    (mkOpenEnv UserMode (Some STATUS_BUFFER_TOO_SMALL) STATUS_SUCCESS 44 None)
  = (mkOpenOutcome STATUS_BUFFER_TOO_SMALL None, [OpProbeForWriteHandle]).
Proof.
  exact (proj1 (open_probes_before_lookup
                  (mkOpenEnv UserMode (Some STATUS_BUFFER_TOO_SMALL) STATUS_SUCCESS
                     44 None))
           eq_refl STATUS_BUFFER_TOO_SMALL eq_refl eq_refl).
Defined.

(* ===================================================================== *)
(** ** A multi-entry call in closed form *)

Lemma fit_count_maximal BufferLength : forall entries rr,
  (fit_count BufferLength rr entries < length entries)%nat ->
  BufferLength < rr + total_size (firstn (S (fit_count BufferLength rr entries)) entries).
Proof.
  induction entries as [|h rest IH]; intros rr Hj; [cbn in Hj; lia|].
  cbn [fit_count] in *.
  destruct (Z.leb_spec (rr + spec_entrySize h) BufferLength) as [Hf|Hf].
  - cbn [length] in Hj. apply Nat.succ_lt_mono in Hj.
    specialize (IH _ Hj).
    change (firstn (S (S ?n)) (h :: rest)) with (h :: firstn (S n) rest).
    change (total_size (h :: ?l)) with (spec_entrySize h + total_size l). lia.
  - cbn [firstn]. change (total_size [h]) with (spec_entrySize h + 0). lia.
Qed.

Lemma fit_count_all BufferLength : forall entries rr,
  Forall typed_header entries ->
  rr + total_size entries <= BufferLength ->
  fit_count BufferLength rr entries = length entries.
Proof.
  induction entries as [|h rest IH]; intros rr Hty Hfit; [reflexivity|].
  inversion Hty as [|? ? Hh Hrest]; subst.
  change (total_size (h :: rest)) with (spec_entrySize h + total_size rest) in Hfit.
  pose proof (total_size_nonneg rest Hrest).
  cbn [fit_count length].
  destruct (Z.leb_spec (rr + spec_entrySize h) BufferLength); [|lia].
  f_equal. apply IH; [exact Hrest | lia].
Qed.

Lemma Forall_skipn {A} (P : A -> Prop) (l : list A) n :
  Forall P l -> Forall P (skipn n l).
Proof.
  intros H. rewrite <- (firstn_skipn n l) in H. apply Forall_app in H. apply H.
Qed.

(** A multi-entry call with a member at the cursor: it delivers as many of
    the members from the cursor on as [fit_count] counts. *)
Lemma multi_entry_call env Directory Buffer BufferLength (RestartScan : bool)
    (Context : Z) (ReturnLength : bool) :
  quiet env ->
  typed_directory Directory ->
  is_ULONG (if RestartScan then 0 else Context) ->
  no_wrap BufferLength ->
  (Z.to_nat (if RestartScan then 0 else Context) < length Directory)%nat ->
  let rest := skipn (Z.to_nat (if RestartScan then 0 else Context)) Directory in
  let j := fit_count BufferLength sizeof_ODI rest in
  results (value (NtQueryDirectoryObject env Directory Buffer BufferLength
                    false RestartScan Context ReturnLength)) =
  mkOutcome (if (j =? length rest)%nat then STATUS_SUCCESS else STATUS_MORE_ENTRIES)
    (if (j =? 0)%nat then None
     else Some (output_of (KernelMemory env) Buffer (firstn j rest)))
    (Some ((if RestartScan then 0 else Context) + Z.of_nat j))
    (if ReturnLength then Some (sizeof_ODI + total_size (firstn j rest)) else None).
Proof.
  intros Hq Hty Hk Hnw Hlt.
  set (k := if RestartScan then 0 else Context) in *.
  cbn zeta.
  set (rest := skipn (Z.to_nat k) Directory).
  set (j := fit_count BufferLength sizeof_ODI rest).
  assert (Hjl : (j <= length rest)%nat) by apply fit_count_le.
  assert (Hrl : (0 < length rest)%nat).
  { unfold rest. rewrite length_skipn. lia. }
  assert (E : spec_scan BufferLength false Directory (spec_start k) =
              mkScan 0 (k + Z.of_nat j) (sizeof_ODI + total_size (firstn j rest))
                (firstn j rest)
                (if (j =? 0)%nat then STATUS_NO_MORE_ENTRIES else STATUS_SUCCESS)
                (j =? length rest)%nat).
  { rewrite spec_scan_skip by apply Hk.
    cbn [spec_start skip consumed runningRequired staged status].
    destruct (Nat.leb_spec (length Directory) (Z.to_nat k)); [lia|].
    rewrite spec_scan_multi by reflexivity.
    cbn [skip consumed runningRequired staged status app]. reflexivity. }
  rewrite NtQueryDirectoryObject_quiet; auto.
  - fold k. rewrite E. unfold outcome_of, final_status, collected.
    cbn [exhausted status staged consumed runningRequired negb andb].
    rewrite length_firstn, Nat.min_l by exact Hjl.
    destruct (Nat.eqb_spec j (length rest)) as [Ej|Ej].
    + destruct (Nat.eqb_spec j 0) as [E0|E0]; [lia|].
      cbn [negb]. change (NT_SUCCESS STATUS_SUCCESS) with true. cbn [orb andb].
      destruct (Z.gtb_spec (Z.of_nat j) 0); [reflexivity|lia].
    + cbn [negb]. change (NT_SUCCESS STATUS_MORE_ENTRIES) with true. cbn [orb andb].
      destruct (Nat.eqb_spec j 0) as [E0|E0];
        destruct (Z.gtb_spec (Z.of_nat j) 0); try lia; reflexivity.
  - right. apply no_wrap_scan. exact Hnw.
Qed.

(** X10.  A multi-entry call with a member at the cursor delivers the
    longest run of members from the cursor on that fits into
    [BufferLength] together with the terminating record (lines 209-292,
    360-374): the run fits, one member more would not, the cursor advances
    by the length of the run, [*ReturnLength] is the size of the run with
    its terminator, and the status is STATUS_SUCCESS when the run reaches
    the end of the directory and STATUS_MORE_ENTRIES when it does not. *)
Theorem multi_entry_delivers_longest_prefix env Directory Buffer BufferLength
    (RestartScan : bool) (Context : Z) (ReturnLength : bool) :
  quiet env ->
  typed_directory Directory ->
  is_ULONG (if RestartScan then 0 else Context) ->
  no_wrap BufferLength ->
  (Z.to_nat (if RestartScan then 0 else Context) < length Directory)%nat ->
  let rest := skipn (Z.to_nat (if RestartScan then 0 else Context)) Directory in
  let o := query env Directory Buffer BufferLength false RestartScan Context
             ReturnLength in
  exists j : nat,
    (j <= length rest)%nat /\
    ((0 < j)%nat -> sizeof_ODI + total_size (firstn j rest) <= BufferLength) /\
    ((j < length rest)%nat ->
     BufferLength < sizeof_ODI + total_size (firstn (S j) rest)) /\
    BufferOut o = (if (j =? 0)%nat then None
                   else Some (output_of (KernelMemory env) Buffer (firstn j rest))) /\
    ContextOut o = Some ((if RestartScan then 0 else Context) + Z.of_nat j) /\
    ReturnLengthOut o =
      (if ReturnLength then Some (sizeof_ODI + total_size (firstn j rest)) else None) /\
    ReturnStatus o = (if (j =? length rest)%nat then STATUS_SUCCESS
                      else STATUS_MORE_ENTRIES).
Proof.
  intros Hq Hty Hk Hnw Hlt. cbn zeta. unfold query.
  rewrite multi_entry_call by assumption. cbn zeta.
  set (rest := skipn _ Directory).
  exists (fit_count BufferLength sizeof_ODI rest).
  split; [apply fit_count_le|].
  split; [apply fit_count_total|].
  split; [apply fit_count_maximal|].
  repeat split.
Qed.

Lemma multi_entry_delivers_longest_prefix_witness :
  quiet example_env /\ typed_directory example_directory /\
  exists j : nat,
    (j <= 2)%nat /\
    BufferOut (query example_env example_directory 5000 64 false true 0 true)
    = (if (j =? 0)%nat then None
       else Some (output_of example_memory 5000 (firstn j example_directory))).
Proof.
  split; [exact quiet_example_env|]. split; [exact typed_example_directory|].
  destruct (multi_entry_delivers_longest_prefix example_env example_directory
              5000 64 true 0 true quiet_example_env typed_example_directory
              ltac:(cbv; split; discriminate) ltac:(cbv; discriminate)
              ltac:(cbn; lia))
    as [j [Hj [_ [_ [Hb _]]]]].
  exists j. split; [exact Hj | exact Hb].
Defined.

(** X11.  A multi-entry call with a member at the cursor returns
    STATUS_SUCCESS exactly when the buffer holds all the members from the
    cursor on and the terminating record (lines 261-292); it then delivers
    them all and moves the cursor to the number of members. *)
Theorem multi_entry_success_iff_rest_fits env Directory Buffer BufferLength
    (RestartScan : bool) (Context : Z) (ReturnLength : bool) :
  quiet env ->
  typed_directory Directory ->
  is_ULONG (if RestartScan then 0 else Context) ->
  no_wrap BufferLength ->
  (Z.to_nat (if RestartScan then 0 else Context) < length Directory)%nat ->
  let rest := skipn (Z.to_nat (if RestartScan then 0 else Context)) Directory in
  let o := query env Directory Buffer BufferLength false RestartScan Context
             ReturnLength in
  (ReturnStatus o = STATUS_SUCCESS <->
   sizeof_ODI + total_size rest <= BufferLength) /\
  (ReturnStatus o = STATUS_SUCCESS ->
   BufferOut o = Some (output_of (KernelMemory env) Buffer rest) /\
   ContextOut o = Some (Z.of_nat (length Directory)) /\
   (Forall whole_header Directory ->
    delivered Buffer o = map (member_strings (KernelMemory env)) rest)).
Proof.
  intros Hq Hty Hk Hnw Hlt. cbn zeta. unfold query.
  rewrite multi_entry_call by assumption. cbn zeta.
  set (k := if RestartScan then 0 else Context) in *.
  set (rest := skipn (Z.to_nat k) Directory).
  assert (Hrl : length rest = (length Directory - Z.to_nat k)%nat)
    by apply length_skipn.
  assert (Htr : Forall typed_header rest) by (apply Forall_skipn, Hty).
  cbn [ReturnStatus BufferOut ContextOut].
  destruct (Nat.eqb_spec (fit_count BufferLength sizeof_ODI rest) (length rest))
    as [Ej|Ej].
  - split.
    + split; [intros _|reflexivity].
      pose proof (fit_count_total BufferLength rest sizeof_ODI) as Ht.
      rewrite Ej, firstn_all in Ht. apply Ht. lia.
    + intros _. rewrite Ej, firstn_all.
      destruct (Nat.eqb_spec (length rest) 0); [lia|].
      split; [reflexivity|]. split; [f_equal; unfold is_ULONG in Hk; lia|].
      intros Hw. unfold delivered. cbn [BufferOut].
      apply decode_output; [exact Htr | apply Forall_skipn, Hw].
  - split; [|discriminate].
    split; [discriminate|]. intros Hfit. exfalso. apply Ej.
    apply fit_count_all; assumption.
Qed.

Lemma multi_entry_success_iff_rest_fits_witness :
  quiet example_env /\ typed_directory example_directory /\
  (ReturnStatus (query example_env example_directory 5000 128 false true 0 true)
   = STATUS_SUCCESS <->
   sizeof_ODI + total_size example_directory <= 128).
Proof.
  split; [exact quiet_example_env|]. split; [exact typed_example_directory|].
  exact (proj1 (multi_entry_success_iff_rest_fits example_env example_directory
                  5000 128 true 0 true quiet_example_env typed_example_directory
                  ltac:(cbv; split; discriminate) ltac:(cbv; discriminate)
                  ltac:(cbn; lia))).
Defined.

(* ===================================================================== *)
(** ** The cursor at or past the end *)

Lemma past_end_scan BufferLength single Directory k :
  0 <= k ->
  (length Directory <= Z.to_nat k)%nat ->
  spec_scan BufferLength single Directory (spec_start k) =
  mkScan (k - Z.of_nat (length Directory)) (Z.of_nat (length Directory))
    sizeof_ODI [] STATUS_NO_MORE_ENTRIES true.
Proof.
  intros Hk Hle. rewrite spec_scan_skip by exact Hk.
  cbn [spec_start skip consumed runningRequired staged status].
  destruct (Nat.leb_spec (length Directory) (Z.to_nat k)); [reflexivity|lia].
Qed.

(** X12.  A call whose cursor is at or past the last member (lines 209-231,
    287-292, 360-381) returns STATUS_NO_MORE_ENTRIES and copies nothing.  In
    single-entry mode it still writes the cursor, set back to the number of
    members, and the size of the terminating record through [ReturnLength];
    in multi-entry mode it writes nothing at all. *)
Theorem cursor_past_end_no_more_entries env Directory Buffer BufferLength
    (ReturnSingleEntry RestartScan : bool) (Context : Z) (ReturnLength : bool) :
  quiet env ->
  typed_directory Directory ->
  is_ULONG (if RestartScan then 0 else Context) ->
  (length Directory <= Z.to_nat (if RestartScan then 0 else Context))%nat ->
  query env Directory Buffer BufferLength ReturnSingleEntry RestartScan Context
    ReturnLength =
  if ReturnSingleEntry
  then mkOutcome STATUS_NO_MORE_ENTRIES None
         (Some (Z.of_nat (length Directory)))
         (if ReturnLength then Some sizeof_ODI else None)
  else failed STATUS_NO_MORE_ENTRIES.
Proof.
  intros Hq Hty Hk Hle. unfold query.
  pose proof (past_end_scan BufferLength ReturnSingleEntry Directory _
                (proj1 Hk) Hle) as E.
  rewrite NtQueryDirectoryObject_quiet; auto.
  - rewrite E. destruct ReturnSingleEntry; reflexivity.
  - destruct ReturnSingleEntry; [left; reflexivity|right].
    rewrite E. cbn. zlia.
Qed.

Lemma cursor_past_end_no_more_entries_witness :
  quiet example_env /\ typed_directory example_directory /\
  query example_env example_directory 5000 128 true false 7 true =
  mkOutcome STATUS_NO_MORE_ENTRIES None (Some 2) (Some sizeof_ODI).
Proof.
  split; [exact quiet_example_env|]. split; [exact typed_example_directory|].
  exact (cursor_past_end_no_more_entries example_env example_directory 5000 128
           true false 7 true quiet_example_env typed_example_directory
           ltac:(cbv; split; discriminate) ltac:(cbn; lia)).
Defined.

(* ===================================================================== *)
(** ** One record at a time *)

(** X13.  A single-entry call always writes the cursor, delivers one record
    or none, and moves the cursor forward by one exactly when it delivers a
    record, which is exactly when it returns STATUS_SUCCESS (lines 253-258,
    261-278, 360-374); the record is that of the member at the cursor. *)
Theorem single_entry_delivers_at_most_one env Directory Buffer BufferLength
    (RestartScan : bool) (Context : Z) (ReturnLength : bool) :
  quiet env ->
  typed_directory Directory ->
  is_ULONG (if RestartScan then 0 else Context) ->
  let k := if RestartScan then 0 else Context in
  let o := query env Directory Buffer BufferLength true RestartScan Context
             ReturnLength in
  (ReturnStatus o = STATUS_SUCCESS /\
   ContextOut o = Some (k + 1) /\
   exists h, nth_error Directory (Z.to_nat k) = Some h /\
             sizeof_ODI + spec_entrySize h <= BufferLength /\
             BufferOut o = Some (output_of (KernelMemory env) Buffer [h]))
  \/
  (ReturnStatus o <> STATUS_SUCCESS /\
   ContextOut o = Some (Z.min k (Z.of_nat (length Directory))) /\
   BufferOut o = None).
Proof.
  intros Hq Hty Hk. cbn zeta. unfold query.
  set (k := if RestartScan then 0 else Context) in *.
  destruct (nth_error Directory (Z.to_nat k)) as [h|] eqn:Hn.
  - rewrite (single_entry_call _ _ _ _ _ _ _ h) by assumption. fold k.
    assert (Z.to_nat k < length Directory)%nat
      by (apply nth_error_Some; congruence).
    destruct (Z.leb_spec (sizeof_ODI + spec_entrySize h) BufferLength).
    + left. cbn. repeat split. exists h. repeat split; auto.
    + right. cbn. repeat split; [discriminate|].
      f_equal. unfold is_ULONG in Hk. lia.
  - apply nth_error_None in Hn.
    pose proof (Hpast := past_end_scan BufferLength true
                  Directory k (proj1 Hk) Hn).
    rewrite NtQueryDirectoryObject_quiet by (auto; left; reflexivity).
    fold k. rewrite Hpast.
    right. cbn. repeat split; [discriminate|].
    f_equal. unfold is_ULONG in Hk. lia.
Qed.

Lemma single_entry_delivers_at_most_one_witness :
  quiet example_env /\ typed_directory example_directory /\
  (ReturnStatus (query example_env example_directory 5000 64 true false 1 true)
   = STATUS_SUCCESS \/
   BufferOut (query example_env example_directory 5000 64 true false 1 true)
   = None).
Proof.
  split; [exact quiet_example_env|]. split; [exact typed_example_directory|].
  destruct (single_entry_delivers_at_most_one example_env example_directory
              5000 64 false 1 true quiet_example_env typed_example_directory
              ltac:(cbv; split; discriminate)) as [H|H].
  - left. exact (proj1 H).
  - right. exact (proj2 (proj2 H)).
Defined.

(* ===================================================================== *)
(** ** Progress *)

(** X14.  Progress: in both modes, when the member at the cursor fits into
    the buffer together with the terminating record, the call succeeds,
    delivers a run of members that starts with that member, and moves the
    cursor forward by the length of the run (lines 233-260, 360-374). *)
Theorem fitting_member_is_delivered env Directory Buffer BufferLength
    (ReturnSingleEntry RestartScan : bool) (Context : Z) (ReturnLength : bool) h :
  quiet env ->
  typed_directory Directory ->
  is_ULONG (if RestartScan then 0 else Context) ->
  ReturnSingleEntry = true \/ no_wrap BufferLength ->
  nth_error Directory (Z.to_nat (if RestartScan then 0 else Context)) = Some h ->
  sizeof_ODI + spec_entrySize h <= BufferLength ->
  let k := if RestartScan then 0 else Context in
  let o := query env Directory Buffer BufferLength ReturnSingleEntry RestartScan
             Context ReturnLength in
  NT_SUCCESS (ReturnStatus o) = true /\
  exists more,
    h :: more = firstn (S (length more)) (skipn (Z.to_nat k) Directory) /\
    BufferOut o = Some (output_of (KernelMemory env) Buffer (h :: more)) /\
    ContextOut o = Some (k + 1 + Z.of_nat (length more)).
Proof.
  intros Hq Hty Hk Hm Hn Hfit. cbn zeta. unfold query.
  set (k := if RestartScan then 0 else Context) in *.
  destruct (nth_error_skipn_cons _ _ _ Hn) as [E L].
  destruct ReturnSingleEntry.
  - rewrite (single_entry_call _ _ _ _ _ _ _ h) by assumption. fold k.
    destruct (Z.leb_spec (sizeof_ODI + spec_entrySize h) BufferLength); [|lia].
    split; [reflexivity|]. exists []. cbn [length BufferOut ContextOut].
    rewrite E. cbn [firstn]. repeat split. f_equal. lia.
  - destruct Hm as [Hm|Hm]; [discriminate|].
    rewrite multi_entry_call by assumption. cbn zeta. fold k.
    rewrite E. cbn [fit_count].
    destruct (Z.leb_spec (sizeof_ODI + spec_entrySize h) BufferLength); [|lia].
    set (j := fit_count BufferLength (sizeof_ODI + spec_entrySize h)
                (skipn (S (Z.to_nat k)) Directory)).
    assert (Hj : (j <= length (skipn (S (Z.to_nat k)) Directory))%nat)
      by apply fit_count_le.
    cbn [ReturnStatus BufferOut ContextOut Nat.eqb firstn].
    split;
      [match goal with
       | |- context [if ?c then STATUS_SUCCESS else _] => destruct c
       end; reflexivity|].
    exists (firstn j (skipn (S (Z.to_nat k)) Directory)).
    rewrite length_firstn, Nat.min_l by exact Hj.
    cbn [firstn]. repeat split. f_equal. lia.
Qed.

Lemma fitting_member_is_delivered_witness :
  quiet example_env /\ typed_directory example_directory /\
  nth_error example_directory (Z.to_nat 1) = Some (mkHeader Bar Device) /\
  NT_SUCCESS
    (ReturnStatus (query example_env example_directory 5000 128 false false 1 true))
  = true.
Proof.
  split; [exact quiet_example_env|]. split; [exact typed_example_directory|].
  split; [reflexivity|].
  assert (H1 : is_ULONG (if false then 0 else 1)) by (cbv; split; discriminate).
  assert (H2 : false = true \/ no_wrap 128) by (right; cbv; discriminate).
  assert (H3 : sizeof_ODI + spec_entrySize (mkHeader Bar Device) <= 128)
    by (cbv; discriminate).
  pose proof (fitting_member_is_delivered example_env example_directory
                  5000 128 false false 1 true (mkHeader Bar Device)
                  quiet_example_env typed_example_directory H1 H2 eq_refl H3) as H.
  exact (proj1 H).
Defined.

(* ===================================================================== *)
(** ** The outcomes of a call without incident *)

(** The three cases of a call in a quiet environment: the cursor at or past
    the end, a single-entry call with a member at the cursor, a
    multi-entry call with a member at the cursor. *)
Lemma call_cases env Directory Buffer BufferLength
    (ReturnSingleEntry RestartScan : bool) (Context : Z) (ReturnLength : bool) :
  quiet env ->
  typed_directory Directory ->
  is_ULONG (if RestartScan then 0 else Context) ->
  ReturnSingleEntry = true \/ no_wrap BufferLength ->
  let k := if RestartScan then 0 else Context in
  let rest := skipn (Z.to_nat k) Directory in
  let o := query env Directory Buffer BufferLength ReturnSingleEntry RestartScan
             Context ReturnLength in
  ((length Directory <= Z.to_nat k)%nat /\
   o = if ReturnSingleEntry
       then mkOutcome STATUS_NO_MORE_ENTRIES None
              (Some (Z.of_nat (length Directory)))
              (if ReturnLength then Some sizeof_ODI else None)
       else failed STATUS_NO_MORE_ENTRIES)
  \/
  (ReturnSingleEntry = true /\
   exists h, nth_error Directory (Z.to_nat k) = Some h /\
     o = if sizeof_ODI + spec_entrySize h <=? BufferLength
         then mkOutcome STATUS_SUCCESS
                (Some (output_of (KernelMemory env) Buffer [h]))
                (Some (k + 1))
                (if ReturnLength then Some (sizeof_ODI + spec_entrySize h) else None)
         else mkOutcome STATUS_BUFFER_TOO_SMALL None (Some k)
                (if ReturnLength then Some (sizeof_ODI + spec_entrySize h) else None))
  \/
  (ReturnSingleEntry = false /\ (Z.to_nat k < length Directory)%nat /\
   exists j : nat, (j <= length rest)%nat /\
     o = mkOutcome
           (if (j =? length rest)%nat then STATUS_SUCCESS else STATUS_MORE_ENTRIES)
           (if (j =? 0)%nat then None
            else Some (output_of (KernelMemory env) Buffer (firstn j rest)))
           (Some (k + Z.of_nat j))
           (if ReturnLength then Some (sizeof_ODI + total_size (firstn j rest))
            else None)).
Proof.
  intros Hq Hty Hk Hm. cbn zeta. unfold query.
  set (k := if RestartScan then 0 else Context) in *.
  destruct (nth_error Directory (Z.to_nat k)) as [h|] eqn:Hn.
  - assert (Z.to_nat k < length Directory)%nat
      by (apply nth_error_Some; congruence).
    right. destruct ReturnSingleEntry.
    + left. split; [reflexivity|]. exists h. split; [reflexivity|].
      apply single_entry_call; assumption.
    + right. destruct Hm as [Hm|Hm]; [discriminate|].
      split; [reflexivity|]. split; [assumption|].
      eexists. split; [|apply multi_entry_call; assumption].
      apply fit_count_le.
  - apply nth_error_None in Hn. left. split; [exact Hn|].
    pose proof (past_end_scan BufferLength ReturnSingleEntry Directory k
                  (proj1 Hk) Hn) as E.
    rewrite NtQueryDirectoryObject_quiet; auto.
    + fold k. rewrite E. destruct ReturnSingleEntry; reflexivity.
    + fold k. destruct ReturnSingleEntry; [left; reflexivity|right].
      rewrite E. cbn. zlia.
Qed.

(** X15.  The statuses of a call without incident (lines 200-292, 360-381).
    The call returns one of four statuses.  STATUS_BUFFER_TOO_SMALL comes
    only in single-entry mode and STATUS_MORE_ENTRIES only in multi-entry
    mode; STATUS_NO_MORE_ENTRIES comes exactly when the cursor is at or past
    the end; records are copied only with a success status, and always with
    STATUS_SUCCESS; the cursor is left unwritten exactly when a multi-entry
    call returns STATUS_NO_MORE_ENTRIES. *)
Theorem statuses_of_a_quiet_call env Directory Buffer BufferLength
    (ReturnSingleEntry RestartScan : bool) (Context : Z) (ReturnLength : bool) :
  quiet env ->
  typed_directory Directory ->
  is_ULONG (if RestartScan then 0 else Context) ->
  ReturnSingleEntry = true \/ no_wrap BufferLength ->
  let k := if RestartScan then 0 else Context in
  let o := query env Directory Buffer BufferLength ReturnSingleEntry RestartScan
             Context ReturnLength in
  (ReturnStatus o = STATUS_SUCCESS \/ ReturnStatus o = STATUS_MORE_ENTRIES \/
   ReturnStatus o = STATUS_NO_MORE_ENTRIES \/
   ReturnStatus o = STATUS_BUFFER_TOO_SMALL) /\
  (ReturnStatus o = STATUS_BUFFER_TOO_SMALL -> ReturnSingleEntry = true) /\
  (ReturnStatus o = STATUS_MORE_ENTRIES -> ReturnSingleEntry = false) /\
  (ReturnStatus o = STATUS_NO_MORE_ENTRIES <->
   (length Directory <= Z.to_nat k)%nat) /\
  (BufferOut o <> None -> NT_SUCCESS (ReturnStatus o) = true) /\
  (ReturnStatus o = STATUS_SUCCESS -> BufferOut o <> None) /\
  (ContextOut o = None <->
   ReturnSingleEntry = false /\ ReturnStatus o = STATUS_NO_MORE_ENTRIES).
Proof.
  intros Hq Hty Hk Hm. cbn zeta.
  destruct (call_cases env Directory Buffer BufferLength ReturnSingleEntry
              RestartScan Context ReturnLength Hq Hty Hk Hm)
    as [[Hle ->] | [[-> [h [Hn ->]]] | [-> [Hlt [j [Hj ->]]]]]].
  - destruct ReturnSingleEntry; cbn;
      repeat split; intros; try discriminate; try congruence; auto;
      try (destruct H; discriminate).
  - assert (Z.to_nat (if RestartScan then 0 else Context) < length Directory)%nat
      by (apply nth_error_Some; congruence).
    destruct (sizeof_ODI + spec_entrySize h <=? BufferLength); cbn;
      repeat split; intros; try discriminate; try congruence; auto; try lia;
      try (destruct H0; discriminate).
  - assert (Hrl : length (skipn (Z.to_nat (if RestartScan then 0 else Context))
                            Directory)
                  = (length Directory
                     - Z.to_nat (if RestartScan then 0 else Context))%nat)
      by apply length_skipn.
    destruct (Nat.eqb_spec j (length (skipn (Z.to_nat
                (if RestartScan then 0 else Context)) Directory)));
      destruct (Nat.eqb_spec j 0); cbn;
      repeat split; intros; try discriminate; try congruence; auto; try lia;
      try (destruct H; discriminate).
Qed.

Lemma statuses_of_a_quiet_call_witness :
  quiet example_env /\ typed_directory example_directory /\
  (ReturnStatus (query example_env example_directory 5000 40 true true 0 true)
   = STATUS_SUCCESS \/
   ReturnStatus (query example_env example_directory 5000 40 true true 0 true)
   = STATUS_MORE_ENTRIES \/
   ReturnStatus (query example_env example_directory 5000 40 true true 0 true)
   = STATUS_NO_MORE_ENTRIES \/
   ReturnStatus (query example_env example_directory 5000 40 true true 0 true)
   = STATUS_BUFFER_TOO_SMALL).
Proof.
  split; [exact quiet_example_env|]. split; [exact typed_example_directory|].
  exact (proj1 (statuses_of_a_quiet_call example_env example_directory
                  5000 40 true true 0 true quiet_example_env
                  typed_example_directory
                  ltac:(cbv; split; discriminate) (or_introl eq_refl))).
Defined.

(* ===================================================================== *)
(** ** The size reported and the bytes written *)

Lemma odd_bytes_whole members :
  Forall whole_header members -> odd_bytes members = 0.
Proof.
  induction 1 as [|h rest [Hn Ht] _ IH]; [reflexivity|].
  change (odd_bytes (h :: rest))
    with (Length (Name h) mod 2 + Length (TypeName h) mod 2 + odd_bytes rest).
  unfold whole_string in *. rewrite !Zmod_even, Hn, Ht, IH. reflexivity.
Qed.

Lemma packed_size mem s :
  0 <= Length s ->
  Z.of_nat (length (packed mem s)) + Length s mod 2 = Length s + 2.
Proof.
  intros H. rewrite length_packed by exact H. unfold sizeof_WCHAR.
  pose proof (Z.div_mod (Length s) 2 ltac:(lia)). lia.
Qed.

(** The records and strings of the staged members take the room the scan
    counted for them, less one byte for each string of odd length. *)
Lemma layout_size_exact mem : forall members p,
  Forall typed_header members ->
  sizeof_ODI * Z.of_nat (length members)
  + Z.of_nat (length (snd (layout mem p (map staged_record members))))
  + odd_bytes members
  = total_size members.
Proof.
  induction members as [|h rest IH]; intros p Hty; [reflexivity|].
  inversion Hty as [|? ? Hh Hrest]; subst.
  change (odd_bytes (h :: rest))
    with (Length (Name h) mod 2 + Length (TypeName h) mod 2 + odd_bytes rest).
  cbn [map layout snd length total_size fold_right].
  fold (total_size rest).
  rewrite !length_app.
  match goal with |- context [layout mem ?q (map staged_record rest)] =>
    specialize (IH q Hrest);
    set (R := length (snd (layout mem q (map staged_record rest)))) in * end.
  destruct Hh as [[[Hn0 Hn1] _] [[Ht0 Ht1] _]].
  pose proof (packed_size mem (TypeName h) Ht0) as Ht.
  unfold spec_entrySize, staged_record in *. cbn [ObjectName ObjectTypeName] in *.
  rewrite !Nat2Z.inj_add.
  destruct (Z.eqb_spec (Length (Name h)) 0) as [E|E].
  - cbn [Length Z.gtb Z.compare length]. rewrite E. cbn [Z.modulo Z.div_eucl].
    zlia.
  - destruct (Z.gtb_spec (Length (Name h)) 0); [|lia].
    pose proof (packed_size mem (Name h) Hn0). zlia.
Qed.

Lemma output_bytes_exact mem Buffer members :
  Forall typed_header members ->
  output_bytes (output_of mem Buffer members) + odd_bytes members
  = sizeof_ODI + total_size members.
Proof.
  intros Hty. unfold output_bytes, output_of. cbn [fst snd].
  rewrite length_app, length_layout_records, length_map. cbn [length].
  pose proof (layout_size_exact mem members
                (Buffer + (sizeof_ODI * Z.of_nat (length members) + sizeof_ODI))
                Hty).
  zlia.
Qed.

Lemma Forall_firstn {A} (P : A -> Prop) (l : list A) n :
  Forall P l -> Forall P (firstn n l).
Proof.
  intros H. rewrite <- (firstn_skipn n l) in H. apply Forall_app in H. apply H.
Qed.

(** X16.  When a call without incident copies records and reports a size
    through [ReturnLength], the size reported is the number of bytes copied
    plus one byte for each delivered string whose [Length] is odd (lines
    227-231 count [Length + 2] bytes for a string, lines 328-336 and 345-353
    write [2 * (Length / 2) + 2]); when all lengths are even the two are
    equal. *)
Theorem ReturnLength_is_bytes_copied_plus_odd_bytes env Directory Buffer
    BufferLength (ReturnSingleEntry RestartScan : bool) (Context : Z)
    (ReturnLength : bool) out rl :
  quiet env ->
  typed_directory Directory ->
  is_ULONG (if RestartScan then 0 else Context) ->
  ReturnSingleEntry = true \/ no_wrap BufferLength ->
  BufferOut (query env Directory Buffer BufferLength ReturnSingleEntry
               RestartScan Context ReturnLength) = Some out ->
  ReturnLengthOut (query env Directory Buffer BufferLength ReturnSingleEntry
                     RestartScan Context ReturnLength) = Some rl ->
  exists members,
    members = firstn (length members)
                (skipn (Z.to_nat (if RestartScan then 0 else Context)) Directory) /\
    out = output_of (KernelMemory env) Buffer members /\
    rl = output_bytes out + odd_bytes members /\
    (Forall whole_header Directory -> rl = output_bytes out).
Proof.
  intros Hq Hty Hk Hm.
  set (k := if RestartScan then 0 else Context) in *.
  assert (Htr : Forall typed_header (skipn (Z.to_nat k) Directory))
    by (apply Forall_skipn, Hty).
  destruct (call_cases env Directory Buffer BufferLength ReturnSingleEntry
              RestartScan Context ReturnLength Hq Hty Hk Hm)
    as [[Hle ->] | [[-> [h [Hn ->]]] | [-> [Hlt [j [Hj ->]]]]]].
  - destruct ReturnSingleEntry; discriminate.
  - fold k in Hn |- *.
    destruct (nth_error_skipn_cons _ _ _ Hn) as [E L].
    destruct (sizeof_ODI + spec_entrySize h <=? BufferLength); [|discriminate].
    cbn [BufferOut ReturnLengthOut]. intros Ho Hr.
    destruct ReturnLength; [|discriminate].
    assert (Eo : out = output_of (KernelMemory env) Buffer [h]) by congruence.
    assert (Er : rl = sizeof_ODI + spec_entrySize h) by congruence.
    clear Ho Hr. subst out rl.
    assert (Hh : Forall typed_header [h]).
    { rewrite E in Htr. inversion Htr; subst. constructor; [assumption|constructor]. }
    pose proof (output_bytes_exact (KernelMemory env) Buffer [h] Hh) as Hx.
    change (total_size [h]) with (spec_entrySize h + 0) in Hx.
    exists [h]. split; [rewrite E; reflexivity|]. split; [reflexivity|].
    split; [lia|].
    intros Hw. rewrite odd_bytes_whole in Hx; [lia|].
    apply Forall_skipn with (n := Z.to_nat k) in Hw. rewrite E in Hw.
    inversion Hw; subst. constructor; [assumption|constructor].
  - fold k in Hj |- *. set (rest := skipn (Z.to_nat k) Directory) in *.
    cbn [BufferOut ReturnLengthOut]. intros Ho Hr.
    destruct (j =? 0)%nat; [discriminate|].
    destruct ReturnLength; [|discriminate].
    assert (Eo : out = output_of (KernelMemory env) Buffer (firstn j rest))
      by congruence.
    assert (Er : rl = sizeof_ODI + total_size (firstn j rest)) by congruence.
    clear Ho Hr. subst out rl.
    pose proof (output_bytes_exact (KernelMemory env) Buffer (firstn j rest)
                  (Forall_firstn _ _ _ Htr)) as Hx.
    exists (firstn j rest).
    split; [rewrite length_firstn, Nat.min_l by exact Hj; reflexivity|].
    split; [reflexivity|]. split; [lia|].
    intros Hw. rewrite odd_bytes_whole in Hx; [lia|].
    apply Forall_firstn, Forall_skipn, Hw.
Qed.

Lemma ReturnLength_is_bytes_copied_plus_odd_bytes_witness :
  quiet example_env /\ typed_directory example_directory /\
  BufferOut (query example_env example_directory 5000 128 false true 0 true)
  = Some (output_of example_memory 5000 example_directory) /\
  ReturnLengthOut (query example_env example_directory 5000 128 false true 0 true)
  = Some 92 /\
  exists members,
    output_of example_memory 5000 example_directory
    = output_of (KernelMemory example_env) 5000 members /\
    92 = output_bytes (output_of example_memory 5000 example_directory)
         + odd_bytes members.
Proof.
  assert (H3 : is_ULONG (if true then 0 else 0))
    by (unfold is_ULONG, ULONG_MAX; lia).
  assert (H4 : no_wrap 128)
    by (unfold no_wrap, MAX_ENTRY_SIZE, ULONG_MAX, sizeof_ODI, USHORT_MAX; lia).
  assert (H5 : BufferOut (query example_env example_directory 5000 128 false true
                            0 true)
               = Some (output_of example_memory 5000 example_directory))
    by reflexivity.
  assert (H6 : ReturnLengthOut (query example_env example_directory 5000 128 false
                                  true 0 true) = Some 92)
    by reflexivity.
  split; [exact quiet_example_env|]. split; [exact typed_example_directory|].
  split; [exact H5|]. split; [exact H6|].
  destruct (ReturnLength_is_bytes_copied_plus_odd_bytes example_env
              example_directory 5000 128 false true 0 true
              (output_of example_memory 5000 example_directory) 92
              quiet_example_env typed_example_directory H3 (or_intror H4) H5 H6)
    as [members [_ [Ho [Hr _]]]].
  exists members. split; [exact Ho | exact Hr].
Defined.

(* ===================================================================== *)
(** ** Exceptions while the results are written *)




(** The copy of the 92 bytes of the two members of the example directory,
    when byte 60 of [Buffer] cannot be written: the call returns the
    exception's code, [Buffer] holds the three records and the first 12
    bytes of the strings, and neither the cursor nor [*ReturnLength] is
    written. *)
Example copy_interrupted_at_byte_60 :
  query (mkEnv UserMode None STATUS_SUCCESS true
           (Some (AtCopyBuffer 60, STATUS_BUFFER_TOO_SMALL)) example_memory)
    example_directory 5000 128 false true 0 true
  = mkOutcome STATUS_BUFFER_TOO_SMALL
      (Some (fst (output_of example_memory 5000 example_directory),
             firstn 12 (snd (output_of example_memory 5000 example_directory))))
      None None /\
  buffer_writes
    (query_trace (mkEnv UserMode None STATUS_SUCCESS true
                    (Some (AtCopyBuffer 60, STATUS_BUFFER_TOO_SMALL))
                    example_memory)
       example_directory 5000 128 false true 0 true)
  = [(0, 60)].
Proof. split; reflexivity. Qed.

(* ===================================================================== *)
(** ** Strings of odd length, as the caller reads them *)

Lemma read_area_prefix base pre s rest (p len : Z) :
  p = base + Z.of_nat (length pre) ->
  0 <= len <= Z.of_nat (length s) ->
  read_area base (pre ++ s ++ rest) p len = firstn (Z.to_nat len) s.
Proof.
  intros -> Hl. unfold read_area.
  replace (Z.to_nat (base + Z.of_nat (length pre) - base)) with (length pre) by lia.
  rewrite skipn_app, skipn_all, Nat.sub_diag. cbn [app skipn].
  rewrite firstn_app.
  replace (Z.to_nat len - length s)%nat with 0%nat by lia.
  cbn [firstn]. apply app_nil_r.
Qed.

Lemma read_back_packed mem s :
  typed_string s ->
  firstn (Z.to_nat (Length s)) (packed mem s) = read_back mem s.
Proof.
  intros [[H0 _] _]. unfold read_back, packed, wide_null, sizeof_WCHAR.
  pose proof (length_chars mem s) as Hc.
  pose proof (Z.div_mod (Length s) 2 ltac:(lia)) as Hd.
  rewrite Zmod_even in Hd.
  destruct (Z.even (Length s)).
  - replace (2 * (Length s / 2)) with (Length s) by lia.
    rewrite (@firstn_all2 _ (Z.to_nat (Length s)) (chars mem s)) by lia.
    rewrite firstn_app, firstn_all2 by lia.
    replace (Z.to_nat (Length s) - length (chars mem s))%nat with 0%nat by lia.
    cbn [firstn]. apply app_nil_r.
  - assert (E : firstn (Z.to_nat (2 * (Length s / 2))) (chars mem s)
                = removelast (chars mem s)).
    { rewrite removelast_firstn_len. f_equal. lia. }
    rewrite E.
    assert (L : length (removelast (chars mem s)) = (Z.to_nat (Length s) - 1)%nat).
    { rewrite <- E, length_firstn. lia. }
    rewrite firstn_app, firstn_all2 by lia. rewrite L.
    replace (Z.to_nat (Length s) - (Z.to_nat (Length s) - 1))%nat with 1%nat by lia.
    reflexivity.
Qed.

Lemma decode_layout_any mem base : forall members pre p,
  Forall typed_header members ->
  p = base + Z.of_nat (length pre) ->
  map (decode_record base (pre ++ snd (layout mem p (map staged_record members))))
      (fst (layout mem p (map staged_record members)))
  = map (member_read_back mem) members.
Proof.
  induction members as [|h rest IH]; intros pre p Hty Hp; [reflexivity|].
  inversion Hty as [|? ? [Hn Ht] Hrest]; subst.
  cbn [map layout fst snd].
  set (n := if Length (ObjectName (staged_record h)) >? 0
            then packed mem (ObjectName (staged_record h)) else []).
  set (t := packed mem (ObjectTypeName (staged_record h))).
  set (q := base + Z.of_nat (length pre) + Z.of_nat (length n) + Z.of_nat (length t)).
  f_equal.
  - unfold decode_record, member_read_back.
    cbn [ObjectName ObjectTypeName Length Buffer].
    pose proof Hn as [[Hn0 Hn1] Hn2]. pose proof Ht as [[Ht0 Ht1] Ht2].
    f_equal.
    + subst n. unfold staged_record. cbn [ObjectName].
      destruct (Z.eqb_spec (Length (Name h)) 0) as [E|E].
      * cbn [Length Z.gtb Z.compare Z.eqb]. reflexivity.
      * destruct (Z.gtb_spec (Length (Name h)) 0); [|lia].
        cbn [Length Buffer].
        destruct (Z.eqb_spec (Length (Name h)) 0); [lia|].
        f_equal. rewrite <- read_back_packed by assumption.
        apply read_area_prefix; [reflexivity|].
        pose proof (packed_size mem (Name h) Hn0).
        pose proof (Z.mod_pos_bound (Length (Name h)) 2 ltac:(lia)). lia.
    + subst t. cbn [staged_record ObjectTypeName Length].
      rewrite <- read_back_packed by assumption.
      rewrite (app_assoc pre n), <- !app_assoc.
      rewrite (app_assoc pre n).
      apply read_area_prefix; [rewrite length_app; lia|].
      pose proof (packed_size mem (TypeName h) Ht0).
      pose proof (Z.mod_pos_bound (Length (TypeName h)) 2 ltac:(lia)). lia.
  - specialize (IH (pre ++ n ++ t) q Hrest).
    rewrite <- !app_assoc in IH. apply IH.
    subst q. rewrite !length_app. lia.
Qed.

Lemma decode_output_any mem Buffer members :
  Forall typed_header members ->
  decode Buffer (output_of mem Buffer members) = map (member_read_back mem) members.
Proof.
  intros Hty. unfold decode. rewrite length_output_records.
  unfold output_of. cbn [fst snd]. rewrite removelast_snoc.
  pose proof (decode_layout_any mem
                (Buffer + sizeof_ODI * Z.of_nat (S (length members)))
                members [] (Buffer + (sizeof_ODI * Z.of_nat (length members) + sizeof_ODI))
                Hty) as H.
  cbn [app length] in H. apply H. zlia.
Qed.

(** The members a call without incident has copied the records of.  From a
    cursor within the directory, the cursor moves forward by their
    number. *)
Lemma copied_members env Directory Buffer BufferLength
    (ReturnSingleEntry RestartScan : bool) (Context : Z) (ReturnLength : bool) :
  quiet env ->
  typed_directory Directory ->
  is_ULONG (if RestartScan then 0 else Context) ->
  ReturnSingleEntry = true \/ no_wrap BufferLength ->
  let k := if RestartScan then 0 else Context in
  let o := query env Directory Buffer BufferLength ReturnSingleEntry RestartScan
             Context ReturnLength in
  exists members,
    members = firstn (length members) (skipn (Z.to_nat k) Directory) /\
    BufferOut o = (if (length members =? 0)%nat then None
                   else Some (output_of (KernelMemory env) Buffer members)) /\
    (k <= Z.of_nat (length Directory) ->
     cursor_after k o = k + Z.of_nat (length members) /\
     k + Z.of_nat (length members) <= Z.of_nat (length Directory)).
Proof.
  intros Hq Hty Hk Hm. cbn zeta.
  set (k := if RestartScan then 0 else Context) in *.
  assert (Hk0 : 0 <= k) by apply Hk.
  destruct (call_cases env Directory Buffer BufferLength ReturnSingleEntry
              RestartScan Context ReturnLength Hq Hty Hk Hm)
    as [[Hle ->] | [[-> [h [Hn ->]]] | [-> [Hlt [j [Hj ->]]]]]].
  - fold k in Hle. exists []. cbn [length Nat.eqb firstn].
    split; [reflexivity|].
    destruct ReturnSingleEntry; cbn; (split; [reflexivity|]); intros; lia.
  - fold k in Hn |- *. destruct (nth_error_skipn_cons _ _ _ Hn) as [E L].
    destruct (sizeof_ODI + spec_entrySize h <=? BufferLength).
    + exists [h]. rewrite E. cbn [length firstn Nat.eqb BufferOut].
      unfold cursor_after. cbn [ContextOut].
      split; [reflexivity|]. split; [reflexivity|]. intros _.
      change (Z.of_nat 1) with 1. lia.
    + exists []. cbn [length firstn Nat.eqb BufferOut].
      unfold cursor_after. cbn [ContextOut].
      split; [reflexivity|]. split; [reflexivity|]. intros _.
      change (Z.of_nat 0) with 0. lia.
  - fold k in Hj, Hlt |- *. set (rest := skipn (Z.to_nat k) Directory) in *.
    assert (Hrl : length rest = (length Directory - Z.to_nat k)%nat)
      by apply length_skipn.
    exists (firstn j rest). rewrite length_firstn, Nat.min_l by exact Hj.
    unfold cursor_after. cbn [ContextOut BufferOut].
    split; [reflexivity|]. split; [reflexivity|]. intros _. lia.
Qed.

(** X18.  What the caller reads through the records a call has copied, for
    any lengths of the members' strings (lines 314-354): every string comes
    with its [Length] bytes; a string of even [Length] comes intact; of a
    string of odd [Length] the last byte is replaced by a zero byte, the
    terminating null being written at the last whole character. *)
Theorem delivered_strings_lose_odd_last_byte env Directory Buffer BufferLength
    (ReturnSingleEntry RestartScan : bool) (Context : Z) (ReturnLength : bool) :
  quiet env ->
  typed_directory Directory ->
  is_ULONG (if RestartScan then 0 else Context) ->
  ReturnSingleEntry = true \/ no_wrap BufferLength ->
  exists members,
    members = firstn (length members)
                (skipn (Z.to_nat (if RestartScan then 0 else Context)) Directory) /\
    delivered Buffer
      (query env Directory Buffer BufferLength ReturnSingleEntry RestartScan
         Context ReturnLength)
    = map (member_read_back (KernelMemory env)) members /\
    Forall (fun h =>
              length (read_back (KernelMemory env) (Name h))
                = Z.to_nat (Length (Name h)) /\
              length (read_back (KernelMemory env) (TypeName h))
                = Z.to_nat (Length (TypeName h)) /\
              (whole_header h ->
               member_read_back (KernelMemory env) h
               = member_strings (KernelMemory env) h))
           members.
Proof.
  intros Hq Hty Hk Hm.
  destruct (copied_members env Directory Buffer BufferLength ReturnSingleEntry
              RestartScan Context ReturnLength Hq Hty Hk Hm)
    as [members [Hpre [Hb _]]].
  assert (Htm : Forall typed_header members).
  { rewrite Hpre. apply Forall_firstn, Forall_skipn, Hty. }
  exists members. split; [exact Hpre|]. split.
  - unfold delivered. rewrite Hb.
    destruct members as [|h more]; [reflexivity|].
    cbn [length Nat.eqb]. apply decode_output_any. exact Htm.
  - apply Forall_forall. intros h Hin.
    assert (L : forall s, typed_string s ->
                  length (read_back (KernelMemory env) s) = Z.to_nat (Length s)).
    { intros s Hs. rewrite <- read_back_packed by exact Hs.
      rewrite length_firstn. destruct Hs as [[H0 _] _].
      pose proof (packed_size (KernelMemory env) s H0).
      pose proof (Z.mod_pos_bound (Length s) 2 ltac:(lia)). lia. }
    rewrite Forall_forall in Htm. destruct (Htm h Hin) as [Hn Ht].
    split; [apply L, Hn|]. split; [apply L, Ht|].
    intros [Wn Wt]. unfold member_read_back, member_strings, read_back.
    unfold whole_string in Wn, Wt. rewrite Wn, Wt. reflexivity.
Qed.

Lemma typed_odd_directory : typed_directory odd_directory.
Proof.
  split; [|cbn; zlia].
  repeat constructor; cbn; zlia.
Qed.

Lemma delivered_strings_lose_odd_last_byte_witness :
  quiet example_env /\ typed_directory odd_directory /\
  exists members,
    members = firstn (length members) (skipn (Z.to_nat 0) odd_directory) /\
    delivered 5000 (query example_env odd_directory 5000 128 true true 0 true)
    = map (member_read_back example_memory) members.
Proof.
  split; [exact quiet_example_env|]. split; [exact typed_odd_directory|].
  destruct (delivered_strings_lose_odd_last_byte example_env odd_directory
              5000 128 true true 0 true quiet_example_env typed_odd_directory
              ltac:(cbv; split; discriminate) (or_introl eq_refl))
    as [members [Hp [Hd _]]].
  exists members. split; [exact Hp | exact Hd].
Defined.

(* ===================================================================== *)
(** ** The cursor over several calls *)

Lemma call_advances_cursor Directory mem c (Context : Z) :
  typed_directory Directory ->
  sane_call mem c ->
  0 <= Context <= Z.of_nat (length Directory) ->
  let o := query (call_env c) Directory (call_Buffer c) (call_BufferLength c)
             (call_ReturnSingleEntry c) false Context (call_ReturnLength c) in
  cursor_after Context o
  = Context + Z.of_nat (length (delivered (call_Buffer c) o)) /\
  cursor_after Context o <= Z.of_nat (length Directory).
Proof.
  intros Hty (Hq & Hmem & Hm) Hc. cbn zeta.
  assert (Hk : is_ULONG (if false then 0 else Context)).
  { destruct Hty as [_ Hl]. unfold is_ULONG. lia. }
  destruct (copied_members (call_env c) Directory (call_Buffer c)
              (call_BufferLength c) (call_ReturnSingleEntry c) false Context
              (call_ReturnLength c) Hq Hty Hk Hm)
    as [members [Hpre [Hb Hcur]]].
  cbv beta iota zeta in Hb, Hcur.
  destruct (Hcur (proj2 Hc)) as [Ha Hle].
  assert (Htm : Forall typed_header members).
  { rewrite Hpre. apply Forall_firstn, Forall_skipn, Hty. }
  assert (Hd : length (delivered (call_Buffer c)
                 (query (call_env c) Directory (call_Buffer c)
                    (call_BufferLength c) (call_ReturnSingleEntry c) false
                    Context (call_ReturnLength c))) = length members).
  { unfold delivered. rewrite Hb.
    destruct members as [|h more]; [reflexivity|].
    cbn [length Nat.eqb]. rewrite decode_output_any by exact Htm.
    apply length_map. }
  rewrite Hd. split; [exact Ha | lia].
Qed.

(** X19.  Over any sequence of calls without incident that starts at a
    cursor within the directory and hands each call the cursor the previous
    one left (lines 209-231, 253-258, 370), in any mix of modes and buffer
    sizes: the cursor has moved forward by exactly the number of records
    delivered, and never goes past the number of members. *)
Theorem cursor_counts_delivered_records Directory mem calls (Context : Z) :
  typed_directory Directory ->
  Forall (sane_call mem) calls ->
  0 <= Context <= Z.of_nat (length Directory) ->
  snd (enumerate Directory false Context calls)
  = Context
    + Z.of_nat (length (all_delivered (fst (enumerate Directory false Context calls))))
  /\ snd (enumerate Directory false Context calls) <= Z.of_nat (length Directory).
Proof.
  intros Hty Hcalls. revert Context.
  induction Hcalls as [|c rest Hc Hrest IH]; intros Context Hk.
  - cbn. lia.
  - cbn [enumerate fst snd all_delivered flat_map].
    fold (all_delivered
            (fst (enumerate Directory false
                    (cursor_after Context
                       (query (call_env c) Directory (call_Buffer c)
                          (call_BufferLength c) (call_ReturnSingleEntry c) false
                          Context (call_ReturnLength c))) rest))).
    destruct (call_advances_cursor Directory mem c Context Hty Hc Hk) as [Ha Hle].
    cbv zeta in Ha, Hle.
    set (o := query (call_env c) Directory (call_Buffer c) (call_BufferLength c)
                (call_ReturnSingleEntry c) false Context (call_ReturnLength c)) in *.
    destruct (IH (cursor_after Context o)) as [Hs Hl]; [lia|].
    rewrite length_app, Nat2Z.inj_add. split; [lia | exact Hl].
Qed.

Lemma cursor_counts_delivered_records_witness :
  typed_directory example_directory /\
  Forall (sane_call example_memory) example_calls /\
  snd (enumerate example_directory false 0 example_calls)
  = 0 + Z.of_nat (length (all_delivered
                            (fst (enumerate example_directory false 0
                                    example_calls)))).
Proof.
  assert (H : 0 <= 0 <= Z.of_nat (length example_directory)) by (cbn; lia).
  split; [exact typed_example_directory|]. split; [exact sane_example_calls|].
  exact (proj1 (cursor_counts_delivered_records example_directory example_memory
                  example_calls 0 typed_example_directory sane_example_calls H)).
Defined.

(* ===================================================================== *)
(** ** Restarting the scan *)

(** X20.  With [RestartScan] the value of [*Context] plays no part (lines
    160-163, 181-184): the call does not read it, gives the same result and
    the same events whatever it holds, and gives the result of a call
    without [RestartScan] on a cursor of 0, provided the read of the cursor
    in that call raises no exception. *)
Theorem restart_scan_ignores_cursor env Directory Buffer BufferLength
    (ReturnSingleEntry : bool) (Context Context' : Z) (ReturnLength : bool) :
  NtQueryDirectoryObject env Directory Buffer BufferLength ReturnSingleEntry true
    Context ReturnLength
  = NtQueryDirectoryObject env Directory Buffer BufferLength ReturnSingleEntry true
      Context' ReturnLength /\
  count is_context_read
    (query_trace env Directory Buffer BufferLength ReturnSingleEntry true Context
       ReturnLength) = 0%nat /\
  (probe_faults_at (ProbeFault env) AtReadContext = None ->
   query env Directory Buffer BufferLength ReturnSingleEntry true Context
     ReturnLength
   = query env Directory Buffer BufferLength ReturnSingleEntry false 0
       ReturnLength).
Proof.
  split; [reflexivity|]. split.
  - rewrite query_trace_eq. cbn zeta. rewrite count_app.
    assert (count is_context_read (trace (capture env true Context ReturnLength))
            = 0%nat) as ->.
    { unfold capture, probe_block, probe_ReturnLength.
      destruct (PreviousMode env), ReturnLength,
        (probe_faults_at (ProbeFault env) AtProbeBuffer),
        (probe_faults_at (ProbeFault env) AtProbeContext),
        (probe_faults_at (ProbeFault env) AtProbeReturnLength); reflexivity. }
    cbn [Nat.add].
    destruct (value (capture env true Context ReturnLength)) as [v|esc];
      [|reflexivity].
    destruct (match PreviousMode env with
              | UserMode => _ | KernelMode => false end); [reflexivity|].
    change (?a :: ?l) with ([a] ++ l). rewrite count_app.
    cbn [count filter is_context_read length Nat.add].
    destruct (NT_SUCCESS (ReferenceStatus env)); [|reflexivity].
    change (?a :: ?l) with ([a] ++ l). rewrite count_app.
    destruct (PoolAvailable env); [|reflexivity].
    rewrite count_locked_part
      by (intros e; destruct e as [r|r|r ? ?|?|? b| | | | | | |];
          try destruct r; try destruct b; cbn; congruence).
    reflexivity.
  - intros Hf. unfold query, NtQueryDirectoryObject.
    assert (E : value (capture env true Context ReturnLength)
                = value (capture env false 0 ReturnLength)).
    { unfold capture, probe_block. rewrite Hf.
      destruct (PreviousMode env),
        (probe_faults_at (ProbeFault env) AtProbeBuffer),
        (probe_faults_at (ProbeFault env) AtProbeContext); eff; reflexivity. }
    eff. rewrite E. reflexivity.
Qed.

Lemma restart_scan_ignores_cursor_witness :
  probe_faults_at (ProbeFault example_env) AtReadContext = None /\
  query example_env example_directory 5000 128 false true 77 true
  = query example_env example_directory 5000 128 false false 0 true.
Proof.
  split; [reflexivity|].
  exact (proj2 (proj2 (restart_scan_ignores_cursor example_env example_directory
                         5000 128 false 77 0 true)) eq_refl).
Defined.

(* ===================================================================== *)
(** ** The scratch buffer along a trace *)

Lemma pool_disciplined_app t1 : forall st t2,
  pool_disciplined st (t1 ++ t2) =
  pool_disciplined st t1 && pool_disciplined (fold_left pool_step t1 st) t2.
Proof.
  induction t1 as [|e t1 IH]; intros st t2; [reflexivity|].
  cbn [app pool_disciplined fold_left]. rewrite IH, andb_assoc. reflexivity.
Qed.

Lemma pool_quiet_events (P : Event -> bool) st t :
  (forall e, P e = true -> pool_allows st e = true /\ pool_step st e = st) ->
  forallb P t = true ->
  pool_disciplined st t = true /\ fold_left pool_step t st = st.
Proof.
  intros HP. induction t as [|e t IH]; intros H; [split; reflexivity|].
  cbn [forallb] in H. apply andb_prop in H. destruct H as [He Ht].
  cbn [pool_disciplined fold_left].
  destruct (HP e He) as [-> ->]. apply IH. exact Ht.
Qed.

Lemma probing_before_pool t :
  forallb probing t = true ->
  pool_disciplined NotAllocated t = true /\
  fold_left pool_step t NotAllocated = NotAllocated.
Proof.
  apply pool_quiet_events.
  intros e; destruct e as [r|r|r ? ?|?|? b| | | | | | |];
    try destruct r; try discriminate; split; reflexivity.
Qed.

Lemma resident_with_pool t :
  forallb resident t = true ->
  pool_disciplined Allocated t = true /\
  fold_left pool_step t Allocated = Allocated.
Proof.
  apply pool_quiet_events.
  intros e; destruct e as [r|r|r ? ?|?|? b| | | | | | |];
    try destruct r; try discriminate; split; reflexivity.
Qed.

Lemma writes_with_pool t :
  forallb writes_caller t = true ->
  pool_disciplined Allocated t = true /\
  fold_left pool_step t Allocated = Allocated.
Proof.
  apply pool_quiet_events.
  intros e; destruct e as [r|r|r ? ?|?|? b| | | | | | |];
    try destruct r; try discriminate; split; reflexivity.
Qed.

Lemma locked_part_with_pool env Directory Buffer BufferLength single skip0 RL :
  pool_disciplined Allocated
    (locked_part env Directory Buffer BufferLength single skip0 RL) = true /\
  fold_left pool_step
    (locked_part env Directory Buffer BufferLength single skip0 RL) Allocated
  = Freed.
Proof.
  unfold locked_part. cbn zeta.
  match goal with |- context [if ?c then trace (deliver ?a ?b ?d ?e ?f ?g ?h) else []] =>
    assert (Hw : forallb writes_caller
                   (if c then trace (deliver a b d e f g h) else []) = true)
      by (destruct c; [apply deliver_writes_caller | reflexivity]);
    set (w := if c then trace (deliver a b d e f g h) else []) in * end.
  match goal with |- context [trace (scan_list ?a ?b ?c ?d)] =>
    pose proof (scan_list_resident a b c d) as Hs;
    set (sc := trace (scan_list a b c d)) in * end.
  match goal with |- context [trace (compact ?a ?b ?c ?d)] =>
    pose proof (compact_resident a b c d) as Hk;
    set (k := trace (compact a b c d)) in * end.
  destruct (resident_with_pool _ Hs) as [Ds Fs].
  destruct (resident_with_pool _ Hk) as [Dk Fk].
  destruct (writes_with_pool _ Hw) as [Dw Fw].
  cbn [app pool_disciplined pool_allows pool_step uses_scratch andb fold_left].
  rewrite !pool_disciplined_app, !fold_left_app, Ds, Fs, Dk, Fk.
  cbn [app pool_disciplined pool_allows pool_step uses_scratch andb fold_left].
  rewrite !pool_disciplined_app, !fold_left_app, Dw, Fw.
  split; reflexivity.
Qed.

(** X21.  The scratch buffer is used only while it is allocated (lines
    194-383): on every path of [NtQueryDirectoryObject] there is at most one
    allocation, every access to the scratch buffer, the copy to the caller
    included, comes after the allocation has succeeded and before the
    release, the buffer is released once and only after it was allocated,
    and the call does not return with the buffer allocated. *)
Theorem scratch_buffer_used_while_allocated env Directory Buffer BufferLength
    (ReturnSingleEntry RestartScan : bool) (Context : Z) (ReturnLength : bool) :
  pool_disciplined NotAllocated
    (query_trace env Directory Buffer BufferLength ReturnSingleEntry RestartScan
       Context ReturnLength) = true /\
  (pool_after
     (query_trace env Directory Buffer BufferLength ReturnSingleEntry RestartScan
        Context ReturnLength) = NotAllocated \/
   pool_after
     (query_trace env Directory Buffer BufferLength ReturnSingleEntry RestartScan
        Context ReturnLength) = Freed).
Proof.
  unfold pool_after. rewrite query_trace_eq. cbn zeta.
  rewrite pool_disciplined_app, fold_left_app.
  destruct (probing_before_pool _
              (capture_probing env RestartScan Context ReturnLength)) as [-> ->].
  cbn [andb].
  destruct (value (capture env _ Context ReturnLength)) as [v|esc];
    [|split; auto].
  destruct (match PreviousMode env with
            | UserMode => _ | KernelMode => false end); [split; auto|].
  cbn [pool_disciplined pool_allows pool_step uses_scratch andb fold_left].
  destruct (NT_SUCCESS (ReferenceStatus env)); [|split; auto].
  cbn [pool_disciplined pool_allows pool_step uses_scratch andb fold_left].
  destruct (PoolAvailable env); [|split; auto].
  destruct (locked_part_with_pool env Directory Buffer BufferLength
              ReturnSingleEntry (snd v) ReturnLength) as [-> ->].
  split; auto.
Qed.

(* ===================================================================== *)
(** ** Where the delivered descriptors point *)




